(** * terminator: the polling / decision loop of the OOM terminator

    A shallow embedding of [main.go]: the pod resolver [getPods], the
    memory sample and its float64 percentage, the per-pod over-limit
    records [podsToKill], the expiry sweep and the loop of [Terminate].

    Conventions.
    - Go's [int], [int64] and [time.Duration] are [Z] with the 64-bit
      wrap-around written out ([wrap64]); a [time.Time] is its reading in
      nanoseconds.
    - [float64] is IEEE 754 binary64 as specified by [SpecFloat]
      (precision 53, emax 1024, round to nearest even).
    - The API server is a record of responses ([Cluster]), which also
      holds the time the loop spends at each of its points; one loop
      iteration runs against one such record, and a cancelled context
      turns every response into the context's error.
    - [podsToKill] is a [gmap] from pod name to record; the Go map holds
      pointers, each allocated once at insertion and reachable only through
      its key, so updating the record in place is an insert at the key.
    - Time is what the environment makes of it. The loop passes through
      points ([Point]): its requests, its log lines and the sweep. The
      environment of an iteration says how long each of them takes, any
      natural number of nanoseconds, counted from the end of the point
      before it, and [time.Sleep] adds its duration. A request made with
      the context is aborted when the context is cancelled while it is in
      flight; log lines and sleeps do not look at the context.
    - The requests of the pod resolver are taken as one point: cancelled
      before the last of them is answered, resolution fails with the
      context's error, at the time of cancellation.
    - The sweep reads [time.Since] once for each record, at a time of its
      own, in the order Go ranges over the map. *)

From Stdlib Require Import ZArith Lia List Bool.
From Stdlib Require Import Floats.SpecFloat.
From stdpp Require Import base strings gmap list fin_maps.

Local Open Scope Z_scope.

(** ** Go integers and time *)

Module Go.

Definition minInt64 : Z := - 2 ^ 63.
Definition maxInt64 : Z := 2 ^ 63 - 1.

(** Two's complement reduction to 64 bits. *)
Definition wrap64 (z : Z) : Z := (z + 2 ^ 63) mod 2 ^ 64 - 2 ^ 63.

Definition int64 (z : Z) : Prop := minInt64 <= z <= maxInt64.

Definition add (a b : Z) : Z := wrap64 (a + b).
Definition mul (a b : Z) : Z := wrap64 (a * b).

(** [time.Time.Sub], which saturates at the extreme durations. *)
Definition Sub (t u : Z) : Z :=
  if t - u <? minInt64 then minInt64
  else if maxInt64 <? t - u then maxInt64
  else t - u.

(** [time.Since(t)] read at clock value [now]. *)
Definition Since (now t : Z) : Z := Sub now t.

End Go.

(** ** float64 *)

Module Float64.

Definition prec : Z := 53.
Definition emax : Z := 1024.

(** The conversion [float64(n)] of an integer. *)
Definition ofInt (n : Z) : spec_float := binary_normalize prec emax n 0 false.

Definition div (x y : spec_float) : spec_float := SFdiv prec emax x y.
Definition mul (x y : spec_float) : spec_float := SFmul prec emax x y.

(** Go's [x >= y]: false as soon as one side is a NaN. *)
Definition geb (x y : spec_float) : bool :=
  match SFcompare x y with
  | Some Gt | Some Eq => true
  | _ => false
  end.

End Float64.

(** ** API objects and the API server *)

Inductive error :=
| ErrNotFound
| ErrCanceled
| ErrOther (msg : string).

(** [errors.IsNotFound]. *)
Definition IsNotFound (e : error) : bool :=
  match e with
  | ErrNotFound => true
  | _ => false
  end.

(** The pair (value, error) returned by a client call. *)
Inductive result (A : Type) :=
| Ok (a : A)
| Err (e : error).
Arguments Ok {A} a.
Arguments Err {A} e.

(** What a call of a Go function of this program ends in: its value, its
    error, or a run-time panic. *)
Inductive outcome (A : Type) :=
| Return (a : A)
| Fail (e : error)
| Panic.
Arguments Return {A} a.
Arguments Fail {A} e.
Arguments Panic {A}.

(** A container, with the entry [Resources.Limits["memory"]] when it is
    declared (as the int64 that [Value()] gives). *)
Record Container := {
  LimitsMemory : option Z
}.

Record Pod := {
  Name : string;
  Namespace : string;
  Phase : string;
  Containers : list Container;
  DeletionGracePeriodSeconds : option Z
}.

(** [Spec.Selector] of a service: a map, possibly empty. *)
Record Service := {
  Selector : gmap string string
}.

(** [Spec.Selector] (a pointer to a label selector, of which [MatchLabels]
    is read) and [Spec.Replicas] (a pointer to an int32) of a deployment. *)
Record Deployment := {
  SelectorMatchLabels : option (gmap string string);
  Replicas : option Z
}.

(** A container's entry of a pod's metrics, with [Usage["memory"]] when it
    is reported. *)
Record ContainerMetrics := {
  UsageMemory : option Z
}.

Record PodMetrics := {
  MetricsContainers : list ContainerMetrics
}.

(** [metav1.ListOptions]: the label set the selector string is rendered
    from (the empty set selects everything) and the page limit (0: none). *)
Record ListOptions := {
  LabelSelector : gmap string string;
  Limit : Z
}.

Record DeleteOptions := {
  GracePeriodSeconds : option Z
}.

(** The responses of the control plane and of the metrics API, and the time
    things take, in nanoseconds. The typed clients return a non-nil zero
    object next to an error, so reading a field of the object in an error
    branch does not panic.
    - [ResolveTook]: the calls of one [getPods], from the first request to
      its outcome;
    - [MetricsTook]: the metrics request of a pod (namespace, name) and the
      log of its result, lines 149 to 164;
    - [LogTook]: what follows the update of a pod's record, the log of line
      173;
    - [DeleteTook]: the delete request of a pod, line 177. *)
(** The points of [Terminate] at which time passes, by source line. *)
Inductive Point :=
| PtResolve                               (* 136: the requests of getPods *)
| PtFound                                 (* 141: "found %d pods" *)
| PtMetrics (namespace name : string)     (* 149: the metrics request *)
| PtNoMetrics (name : string)             (* 152: "has no metrics" *)
| PtUsage (name : string)                 (* 164: the usage line *)
| PtOver (name : string)                  (* 173: "over the memory limit" *)
| PtDeleting (name : string)              (* 175: "Deleting pod" *)
| PtDelete (namespace name : string)      (* 177: the delete request *)
| PtSweepRead (name : string)             (* 190, 191: from the start of
                                             the sweep to [time.Since] on
                                             the record of [name] *)
| PtSweep.                                (* 190 to 195: the whole sweep *)

(** The environment of one iteration: the answers of the API server and
    the time each point takes. *)
Record Cluster := {
  PodsList : string -> ListOptions -> result (list Pod);
  ServicesGet : string -> string -> result Service;
  DeploymentsGet : string -> string -> result Deployment;
  PodMetricsesGet : string -> string -> result PodMetrics;
  PodsDelete : string -> string -> DeleteOptions -> option error;
  Took : Point -> N
}.

(** [ResourceList.Memory()]: the entry, or a zero quantity. *)
Definition Memory (q : option Z) : Z :=
  match q with
  | Some v => v
  | None => 0
  end.

(** ** Pod resolver: [getPods] *)

(** The loop over [serviceNames], with [pods.Items] as accumulator. *)
Fixpoint getPods_services (c : Cluster) (namespace : string)
    (serviceNames : list string) (pods : list Pod) : outcome (list Pod) :=
  match serviceNames with
  | [] => Return pods
  | name :: rest =>
      match ServicesGet c namespace name with
      | Err err =>
          if IsNotFound err then getPods_services c namespace rest pods
          else Fail err
      | Ok service =>
          match PodsList c namespace
                  {| LabelSelector := Selector service; Limit := 0 |} with
          | Err err => Fail err
          | Ok servicePods =>
              getPods_services c namespace rest (pods ++ servicePods)
          end
      end
  end.

(** The inner loop counting the pods whose phase is "Running". *)
Fixpoint countRunning (items : list Pod) (running : Z) : Z :=
  match items with
  | [] => running
  | pod :: rest =>
      if String.eqb (Phase pod) "Running"
      then countRunning rest (Go.add running 1)
      else countRunning rest running
  end.

(** The loop over [deploymentNames]. *)
Fixpoint getPods_deployments (c : Cluster) (namespace : string)
    (deploymentNames : list string) (pods : list Pod) : outcome (list Pod) :=
  match deploymentNames with
  | [] => Return pods
  | name :: rest =>
      match DeploymentsGet c namespace name with
      | Err err =>
          if IsNotFound err then getPods_deployments c namespace rest pods
          else Fail err
      | Ok deployment =>
          match SelectorMatchLabels deployment with
          | None => Panic
          | Some set =>
              match PodsList c namespace
                      {| LabelSelector := set; Limit := 0 |} with
              | Err err => Fail err
              | Ok deploymentPods =>
                  let running := countRunning deploymentPods 0 in
                  match Replicas deployment with
                  | None => Panic
                  | Some replicas =>
                      if running >=? replicas
                      then getPods_deployments c namespace rest
                             (pods ++ deploymentPods)
                      else getPods_deployments c namespace rest pods
                  end
              end
          end
      end
  end.

(** Both loops, services first, starting from an empty pod list. *)
Definition getPods_filters (c : Cluster) (namespace : string)
    (serviceNames deploymentNames : list string) : outcome (list Pod) :=
  match getPods_services c namespace serviceNames [] with
  | Return pods => getPods_deployments c namespace deploymentNames pods
  | Fail err => Fail err
  | Panic => Panic
  end.

Definition getPods (c : Cluster) (namespace : string)
    (serviceNames deploymentNames : list string) : outcome (list Pod) :=
  match serviceNames, deploymentNames with
  | [], [] =>
      match PodsList c namespace {| LabelSelector := ∅; Limit := 10 |} with
      | Ok pods => Return pods
      | Err err => Fail err
      end
  | _, _ => getPods_filters c namespace serviceNames deploymentNames
  end.

(** ** The sample: usage percentage against the threshold *)

(** [float64(using.Value()) / float64(limit.Value()) * 100]. *)
Definition percentage (using_ limit : Z) : spec_float :=
  Float64.mul (Float64.div (Float64.ofInt using_) (Float64.ofInt limit))
    (Float64.ofInt 100).

(** [percentage >= float64(memoryLimit)]. *)
Definition overLimitb (using_ limit memoryLimit : Z) : bool :=
  Float64.geb (percentage using_ limit) (Float64.ofInt memoryLimit).

(** ** The tracker and the loop of [Terminate] *)

(** The struct [overLimit]; its field [at] is [at_] here. *)
Record overLimit := {
  at_ : Z;
  count : Z
}.

(** What the loop does to the outside world, in the order it does it. *)
Inductive Event :=
| CallPodMetrics (namespace name : string)
| LogDeleting (name : string)
| CallDelete (namespace name : string) (opts : DeleteOptions)
    (err : option error)
| Sleep (d : Z).

(** The local map [podsToKill], the clock (what [time.Now] reads), and the
    events so far. *)
Record State := {
  podsToKill : gmap string overLimit;
  clock : Z;
  events : list Event
}.

Definition setPods (m : gmap string overLimit) (s : State) : State :=
  {| podsToKill := m; clock := clock s; events := events s |}.

Definition emit (e : Event) (s : State) : State :=
  {| podsToKill := podsToKill s; clock := clock s;
     events := events s ++ [e] |}.

Definition setClock (now : Z) (s : State) : State :=
  {| podsToKill := podsToKill s; clock := now; events := events s |}.

(** Local work that takes [d]. *)
Definition elapse (d : N) (s : State) : State :=
  setClock (clock s + Z.of_N d) s.

(** [time.Sleep(d)]: returns at once when [d] is not positive. *)
Definition time_Sleep (d : Z) (s : State) : State :=
  {| podsToKill := podsToKill s; clock := clock s + Z.max d 0;
     events := events s ++ [Sleep d] |}.

(** The cancellation context: the clock value at which it is cancelled,
    if ever. *)
Record Context := {
  cancelAt : option Z
}.

Definition cancelled (ctx : Context) (now : Z) : bool :=
  match cancelAt ctx with
  | Some t => t <=? now
  | None => false
  end.

Definition canceledCluster : Cluster :=
  {| PodsList := fun _ _ => Err ErrCanceled;
     ServicesGet := fun _ _ => Err ErrCanceled;
     DeploymentsGet := fun _ _ => Err ErrCanceled;
     PodMetricsesGet := fun _ _ => Err ErrCanceled;
     PodsDelete := fun _ _ _ => Some ErrCanceled;
     Took := fun _ => 0%N |}.

(** The responses of the calls made with [ctx] that would be done at clock
    value [now]: those of [c], or the context's error when the context is
    cancelled by then. *)
Definition client (ctx : Context) (now : Z) (c : Cluster) : Cluster :=
  if cancelled ctx now then canceledCluster else c.

(** The clock value at which a call made with [ctx] at clock value [start]
    returns, when it takes [took] left alone: at its end, or, if the context
    is cancelled by then, when the context is cancelled (the request is
    aborted in flight) and at once if it was cancelled before. *)
Definition returnsAt (ctx : Context) (start : Z) (took : N) : Z :=
  match cancelAt ctx with
  | Some t => if t <=? start + Z.of_N took then Z.max start t
              else start + Z.of_N took
  | None => start + Z.of_N took
  end.

Record terminator := {
  dryRun : bool
}.

(** How a piece of the loop ends: it goes on, or [Terminate] returns the
    error, or the process panics. *)
Inductive status :=
| Running
| Returned (err : error)
| Panicked.

(** Lines 167 to 171: count one more observation, or open a record. *)
Definition observe (name : string) (now : Z) (m : gmap string overLimit)
    : gmap string overLimit :=
  match m !! name with
  | Some over => <[name := {| at_ := at_ over; count := Go.add (count over) 1 |}]> m
  | None => <[name := {| at_ := now; count := 0 |}]> m
  end.

(** [podsToKill[pod.Name].count]; the record is there after [observe]. *)
Definition countOf (name : string) (m : gmap string overLimit) : Z :=
  match m !! name with
  | Some over => count over
  | None => 0
  end.

(** Lines 166 to 186: the branch taken when the pod is over the limit.
    [time.Now] of line 170 reads the clock the branch is entered at. The
    boolean is the new value of [killed]. *)
Definition overBranch (t : terminator) (ctx : Context) (c : Cluster)
    (killAfter killSleep : Z) (pod : Pod) (s : State)
    : status * State * bool :=
  let s1 :=
    elapse (Took c (PtOver (Name pod)))
      (setPods (observe (Name pod) (clock s) (podsToKill s)) s) in
  if countOf (Name pod) (podsToKill s1) >=? killAfter then
    let s2 := elapse (Took c (PtDeleting (Name pod)))
                (emit (LogDeleting (Name pod)) s1) in
    let opts := {| GracePeriodSeconds := DeletionGracePeriodSeconds pod |} in
    let finish (s3 : State) :=
      let s4 := time_Sleep killSleep s3 in
      (Running, setPods (delete (Name pod) (podsToKill s4)) s4, true) in
    if dryRun t then finish s2
    else
      let took := Took c (PtDelete (Namespace pod) (Name pod)) in
      let err := PodsDelete (client ctx (clock s2 + Z.of_N took) c)
                   (Namespace pod) (Name pod) opts in
      let s3 := setClock (returnsAt ctx (clock s2) took)
                  (emit (CallDelete (Namespace pod) (Name pod) opts err) s2) in
      match err with
      | Some e => (Returned e, s3, false)
      | None => finish s3
      end
  else (Running, s1, false).

(** The body of the loop over [pods.Items] (lines 144 to 186). *)
Definition podBody (t : terminator) (ctx : Context) (c : Cluster)
    (memoryLimit killAfter killSleep : Z) (pod : Pod) (s : State)
    (killed : bool) : status * State * bool :=
  match Containers pod with
  | [] => (Running, s, killed)
  | container :: _ =>
      if negb (String.eqb (Phase pod) "Running") || killed
      then (Running, s, killed)
      else
        let limit := Memory (LimitsMemory container) in
        let took := Took c (PtMetrics (Namespace pod) (Name pod)) in
        let s1 := setClock (returnsAt ctx (clock s) took)
                    (emit (CallPodMetrics (Namespace pod) (Name pod)) s) in
        match PodMetricsesGet (client ctx (clock s + Z.of_N took) c)
                (Namespace pod) (Name pod) with
        | Err err =>
            if IsNotFound err
            then (Running, elapse (Took c (PtNoMetrics (Name pod))) s1, killed)
            else (Returned err, s1, killed)
        | Ok podMetrics =>
            match MetricsContainers podMetrics with
            | [] => (Running, s1, killed)
            | cm :: _ =>
                let using_ := Memory (UsageMemory cm) in
                let s2 := elapse (Took c (PtUsage (Name pod))) s1 in
                if overLimitb using_ limit memoryLimit
                then overBranch t ctx c killAfter killSleep pod s2
                else (Running, s2, killed)
            end
        end
  end.

(** The loop over [pods.Items]. *)
Fixpoint podsLoop (t : terminator) (ctx : Context) (c : Cluster)
    (memoryLimit killAfter killSleep : Z) (pods : list Pod) (s : State)
    (killed : bool) : status * State * bool :=
  match pods with
  | [] => (Running, s, killed)
  | pod :: rest =>
      match podBody t ctx c memoryLimit killAfter killSleep pod s killed with
      | (Running, s', killed') =>
          podsLoop t ctx c memoryLimit killAfter killSleep rest s' killed'
      | stop => stop
      end
  end.

(** The test of line 191 on one record, read at clock value [now]. *)
Definition expired (now killSleep : Z) (over : overLimit) : bool :=
  Go.Since now (at_ over) >? Go.mul killSleep (Go.add (count over) 1).

(** The sweep of lines 190 to 195, with the record of each name read at
    clock value [readAt name]. Deleting the entry under the cursor while
    ranging over a Go map is well defined; every record present when the
    range starts is tested once, in an order Go leaves open. *)
Definition sweep (readAt : string -> Z) (killSleep : Z)
    (m : gmap string overLimit) : gmap string overLimit :=
  filter (fun kv => expired (readAt kv.1) killSleep kv.2 = false) m.

(** When the sweep started at [now] under [c] reads the record of [name]. *)
Definition sweepReads (c : Cluster) (now : Z) (name : string) : Z :=
  now + Z.of_N (Took c (PtSweepRead name)).

(** One iteration of the [for] loop of [Terminate]. *)
Definition iteration (t : terminator) (ctx : Context) (c : Cluster)
    (namespace : string) (memoryLimit killAfter : Z)
    (serviceNames deploymentNames : list string) (sleep killSleep : Z)
    (s : State) : status * State :=
  let took := Took c PtResolve in
  let s0 := setClock (returnsAt ctx (clock s) took) s in
  match getPods (client ctx (clock s + Z.of_N took) c) namespace serviceNames
          deploymentNames with
  | Fail err => (Returned err, s0)
  | Panic => (Panicked, s0)
  | Return pods =>
      match podsLoop t ctx c memoryLimit killAfter killSleep pods
              (elapse (Took c PtFound) s0) false with
      | (Running, s1, _) =>
          let m := sweep (sweepReads c (clock s1)) killSleep (podsToKill s1) in
          (Running, time_Sleep sleep (elapse (Took c PtSweep) (setPods m s1)))
      | (stop, s1, _) => (stop, s1)
      end
  end.

(** The [for] loop, run against the API server states [cs], one for each
    iteration; [Running] when the loop has outlived them. *)
Fixpoint loop (t : terminator) (ctx : Context) (namespace : string)
    (memoryLimit killAfter : Z) (serviceNames deploymentNames : list string)
    (sleep killSleep : Z) (cs : list Cluster) (s : State) : status * State :=
  match cs with
  | [] => (Running, s)
  | c :: rest =>
      match iteration t ctx c namespace memoryLimit killAfter serviceNames
              deploymentNames sleep killSleep s with
      | (Running, s') =>
          loop t ctx namespace memoryLimit killAfter serviceNames
            deploymentNames sleep killSleep rest s'
      | stop => stop
      end
  end.

(** [Terminate], started at clock value [start]. *)
Definition Terminate (t : terminator) (ctx : Context) (namespace : string)
    (memoryLimit killAfter : Z) (serviceNames deploymentNames : list string)
    (sleep killSleep : Z) (start : Z) (cs : list Cluster) : status * State :=
  loop t ctx namespace memoryLimit killAfter serviceNames deploymentNames
    sleep killSleep cs {| podsToKill := ∅; clock := start; events := [] |}.


(** ** Reading the events *)

(** A memory sample of a pod. *)
Definition isSample (e : Event) : bool :=
  match e with
  | CallPodMetrics _ _ => true
  | _ => false
  end.

(** The decision to kill a pod (taken in dry-run mode too). *)
Definition isDecision (e : Event) : bool :=
  match e with
  | LogDeleting _ => true
  | _ => false
  end.

(** A pod-delete request. *)
Definition isDelete (e : Event) : bool :=
  match e with
  | CallDelete _ _ _ _ => true
  | _ => false
  end.

(** A pod-delete request that came back with an error. *)
Definition isFailedDelete (e : Event) : bool :=
  match e with
  | CallDelete _ _ _ (Some _) => true
  | _ => false
  end.

Definition countb (f : Event -> bool) (l : list Event) : nat :=
  length (List.filter f l).

(** How often a pod of that name is in the candidate list. *)
Definition occurrences (name : string) (pods : list Pod) : nat :=
  length (List.filter (fun pod => String.eqb (Name pod) name) pods).

(** What the events after the samples of an iteration may be: no sample,
    at most one decision, at most one delete request. *)
Definition quiet (tail : list Event) : Prop :=
  Forall (fun e => isSample e = false) tail /\
  (countb isDecision tail <= 1)%nat /\
  (countb isDelete tail <= 1)%nat.

(** The events but for the pod-delete requests. *)
Definition withoutDeletes (l : list Event) : list Event :=
  List.filter (fun e => negb (isDelete e)) l.

(** A run with termination requests and a dry run that went the same way:
    same records, same clock, same events but for the delete requests. *)
Definition sameButDeletes (real dry : State) : Prop :=
  podsToKill dry = podsToKill real /\
  clock dry = clock real /\
  events dry = withoutDeletes (events real).

(** The time the pod-delete requests among the events [l] take under [c]. *)
Definition deleteTime (c : Cluster) (l : list Event) : Z :=
  fold_right
    (fun e acc =>
       match e with
       | CallDelete namespace name _ _ =>
           Z.of_N (Took c (PtDelete namespace name)) + acc
       | _ => acc
       end) 0 l.

(** The same, but for the clock: the run with termination requests is
    [lag] ahead of the dry run. *)
Definition sameButLag (lag : Z) (real dry : State) : Prop :=
  podsToKill dry = podsToKill real /\
  clock real = clock dry + lag /\
  events dry = withoutDeletes (events real).

(** A scan, started by the run with termination requests in state [sr],
    that went the same way in both runs, the delete requests and the time
    they took apart; [r] and [d] are what it returned in either run. *)
Definition together (c : Cluster) (sr : State)
    (r d : status * State * bool) : Prop :=
  r.1.1 = d.1.1 /\ r.2 = d.2 /\
  exists new,
    events r.1.2 = events sr ++ new /\
    sameButLag (deleteTime c new) r.1.2 d.1.2 /\
    (r.1.1 = Running -> r.2 = false -> deleteTime c new = 0).

(** The run with termination requests stopped on a refused request. *)
Definition refused (st : status) (s : State) : Prop :=
  (exists err, st = Returned err) /\
  (0 < countb isFailedDelete (events s))%nat.

(** What one pod of the list does to the record of [name]: it removes it
    (and then sets [killed]), or leaves it, or counts one more observation
    if the pod bears that name. *)
Definition recordStep (name : string) (pod : Pod) (over : overLimit)
    (st : status) (s' : State) (killed' : bool) : Prop :=
  (podsToKill s' !! name = None /\ st = Running /\ killed' = true) \/
  (exists over',
      podsToKill s' !! name = Some over' /\ at_ over' = at_ over /\
      (count over' = count over \/
       Name pod = name /\ count over' = Go.add (count over) 1)).

(** ** One candidate pod, over the limit *)

(** In an iteration whose candidate list is [pod] alone: the time from the
    start of the iteration to [time.Now] of line 170. *)
Definition leadTime (c : Cluster) (pod : Pod) : Z :=
  Z.of_N (Took c PtResolve) + Z.of_N (Took c PtFound) +
  Z.of_N (Took c (PtMetrics (Namespace pod) (Name pod))) +
  Z.of_N (Took c (PtUsage (Name pod))).

(** The age the sweep of that iteration reads on a record it opened. *)
Definition readAge (c : Cluster) (pod : Pod) : Z :=
  Z.of_N (Took c (PtOver (Name pod))) +
  Z.of_N (Took c (PtSweepRead (Name pod))).

(** The time such an iteration takes when it kills no pod. *)
Definition cycleTime (c : Cluster) (pod : Pod) (sleep : Z) : Z :=
  leadTime c pod + Z.of_N (Took c (PtOver (Name pod))) +
  Z.of_N (Took c PtSweep) + Z.max sleep 0.

(** The time such an iteration takes from [time.Now] on when it kills the
    pod. *)
Definition killTime (c : Cluster) (pod : Pod) (sleep killSleep : Z) : Z :=
  Z.of_N (Took c (PtOver (Name pod))) +
  Z.of_N (Took c (PtDeleting (Name pod))) +
  Z.of_N (Took c (PtDelete (Namespace pod) (Name pod))) +
  Z.max killSleep 0 + Z.of_N (Took c PtSweep) + Z.max sleep 0.

(** The state in which such an iteration enters the over-limit branch. *)
Definition sampled (c : Cluster) (pod : Pod) (s : State) : State :=
  {| podsToKill := podsToKill s;
     clock := clock s + leadTime c pod;
     events := events s ++ [CallPodMetrics (Namespace pod) (Name pod)] |}.

(** The loop after [j] iterations that found [pod] over the limit, the
    first started at [start], none of them reaching the bar. *)
Definition streak (c : Cluster) (pod : Pod) (sleep : Z) (start : Z) (j : nat)
    (evs : list Event) : State :=
  {| podsToKill :=
       {[ Name pod := {| at_ := start + leadTime c pod;
                         count := Z.of_nat j - 1 |} ]};
     clock := start + Z.of_nat j * cycleTime c pod sleep;
     events := evs |}.

(** What the loop holds between iterations when the sweep cuts every
    streak of the pod [name]: no record, or one of count 0 that is at
    least a poll interval old; no decision and no delete request so far. *)
Definition cutShort (name : string) (sleep : Z) (s : State) : Prop :=
  countb isDecision (events s) = 0%nat /\
  countb isDelete (events s) = 0%nat /\
  (podsToKill s = ∅ \/
   exists opened,
     podsToKill s = {[ name := {| at_ := opened; count := 0 |} ]} /\
     opened + sleep <= clock s).

(** ** What resolution and sampling come down to *)

(** The pods the service [name] adds to the candidates when resolution goes
    through: those its selector lists, none when the service is unknown. *)
Definition serviceItems (c : Cluster) (namespace name : string) : list Pod :=
  match ServicesGet c namespace name with
  | Ok service =>
      match PodsList c namespace
              {| LabelSelector := Selector service; Limit := 0 |} with
      | Ok items => items
      | Err _ => []
      end
  | Err _ => []
  end.

(** The pods the deployment [name] adds when resolution goes through: those
    its selector lists if enough of them are running, none otherwise. *)
Definition deploymentItems (c : Cluster) (namespace name : string)
    : list Pod :=
  match DeploymentsGet c namespace name with
  | Ok deployment =>
      match SelectorMatchLabels deployment, Replicas deployment with
      | Some set, Some replicas =>
          match PodsList c namespace {| LabelSelector := set; Limit := 0 |} with
          | Ok items => if countRunning items 0 >=? replicas then items else []
          | Err _ => []
          end
      | _, _ => []
      end
  | Err _ => []
  end.

(** The pod is one the scan would find over the limit: it has a container,
    is running, has metrics with a container, and its percentage reaches
    the threshold. *)
Definition overNow (c : Cluster) (memoryLimit : Z) (pod : Pod) : bool :=
  match Containers pod with
  | [] => false
  | container :: _ =>
      String.eqb (Phase pod) "Running" &&
      match PodMetricsesGet c (Namespace pod) (Name pod) with
      | Ok podMetrics =>
          match MetricsContainers podMetrics with
          | cm :: _ =>
              overLimitb (Memory (UsageMemory cm))
                (Memory (LimitsMemory container)) memoryLimit
          | [] => false
          end
      | Err _ => false
      end
  end.

(** The delete options the loop sends for a pod. *)
Definition deleteOptionsOf (pod : Pod) : DeleteOptions :=
  {| GracePeriodSeconds := DeletionGracePeriodSeconds pod |}.

(** How the scan of a pod list may end, as the events that follow its
    samples: nothing (no pod chosen); a decision and the post-kill sleep (dry
    run); a decision, a granted delete request and the post-kill sleep; a
    decision and a refused delete request. The first three leave the loop
    running, the last returns the error. *)
Inductive scanEnd (t : terminator) (killSleep : Z) (pods : list Pod)
    : status -> bool -> list Event -> Prop :=
| EndNone : scanEnd t killSleep pods Running false []
| EndDry (pod : Pod) :
    In pod pods -> dryRun t = true ->
    scanEnd t killSleep pods Running true
      [LogDeleting (Name pod); Sleep killSleep]
| EndKill (pod : Pod) :
    In pod pods -> dryRun t = false ->
    scanEnd t killSleep pods Running true
      [LogDeleting (Name pod);
       CallDelete (Namespace pod) (Name pod) (deleteOptionsOf pod) None;
       Sleep killSleep]
| EndRefused (pod : Pod) (err : error) :
    In pod pods -> dryRun t = false ->
    scanEnd t killSleep pods (Returned err) false
      [LogDeleting (Name pod);
       CallDelete (Namespace pod) (Name pod) (deleteOptionsOf pod) (Some err)]
| EndMetrics (err : error) :
    scanEnd t killSleep pods (Returned err) false [].

(** Every record was opened between [since] and the present clock value. *)
Definition openedWithin (since : Z) (s : State) : Prop :=
  forall name over,
    podsToKill s !! name = Some over -> since <= at_ over <= clock s.

(** The sample of a running pod of [pods] that has a container. *)
Definition sampleOf (pods : list Pod) (e : Event) : Prop :=
  exists pod,
    In pod pods /\ e = CallPodMetrics (Namespace pod) (Name pod) /\
    Phase pod = "Running" /\ Containers pod <> [].

(** The lookup of the service [name] is answered "not found", or the service
    is found and its pods are listed. *)
Definition serviceResolves (c : Cluster) (namespace name : string) : Prop :=
  ServicesGet c namespace name = Err ErrNotFound \/
  exists service items,
    ServicesGet c namespace name = Ok service /\
    PodsList c namespace
      {| LabelSelector := Selector service; Limit := 0 |} = Ok items.

(** The same for the deployment [name], which when found has a selector and
    a replica count. *)
Definition deploymentResolves (c : Cluster) (namespace name : string)
    : Prop :=
  DeploymentsGet c namespace name = Err ErrNotFound \/
  exists deployment set replicas items,
    DeploymentsGet c namespace name = Ok deployment /\
    SelectorMatchLabels deployment = Some set /\
    Replicas deployment = Some replicas /\
    PodsList c namespace {| LabelSelector := set; Limit := 0 |} = Ok items.

(** ** Concrete inputs *)

Module Demo.

Definition pod (name phase : string) (limit : option Z) : Pod :=
  {| Name := name; Namespace := "default"; Phase := phase;
     Containers := [ {| LimitsMemory := limit |} ];
     DeletionGracePeriodSeconds := None |}.

Definition app (name : string) : gmap string string := {[ "app" := name ]}.

Definition api1 : Pod := pod "api-1" "Running" (Some 1000).
Definition web1 : Pod := pod "web-1" "Running" (Some 1000).
Definition web2 : Pod := pod "web-2" "Running" (Some 1000).
Definition web3 : Pod := pod "web-3" "Pending" (Some 1000).
Definition job1 : Pod := pod "job-1" "Running" (Some 1000).

(** A running pod whose container declares no memory limit. *)
Definition free1 : Pod := pod "free-1" "Running" None.

Definition metricsOf (usage : Z) : PodMetrics :=
  {| MetricsContainers := [ {| UsageMemory := Some usage |} ] |}.

(** A namespace with the services "api" (one pod) and "free" (the pod
    without a limit, which no deployment owns), the deployments "web"
    (three replicas wanted, two pods running), "job" (one replica wanted
    and running; the service "jobs" selects the same pod) and "bare" (no
    replica count), a service "flaky" whose lookup times out, and nothing
    else. Every pod uses 990 bytes, of 1000 where it has a limit. The
    points of the loop take [took]. *)
Definition paced (took : Point -> N) : Cluster :=
  {| PodsList := fun _ opts =>
       if decide (LabelSelector opts = app "api") then Ok [api1]
       else if decide (LabelSelector opts = app "web") then Ok [web1; web2; web3]
       else if decide (LabelSelector opts = app "job") then Ok [job1]
       else if decide (LabelSelector opts = app "free") then Ok [free1]
       else Ok [api1; web1; web2; web3; job1];
     ServicesGet := fun _ name =>
       if String.eqb name "api" then Ok {| Selector := app "api" |}
       else if String.eqb name "jobs" then Ok {| Selector := app "job" |}
       else if String.eqb name "free" then Ok {| Selector := app "free" |}
       else if String.eqb name "flaky" then Err (ErrOther "timeout")
       else Err ErrNotFound;
     DeploymentsGet := fun _ name =>
       if String.eqb name "web"
       then Ok {| SelectorMatchLabels := Some (app "web"); Replicas := Some 3 |}
       else if String.eqb name "job"
       then Ok {| SelectorMatchLabels := Some (app "job"); Replicas := Some 1 |}
       else if String.eqb name "bare"
       then Ok {| SelectorMatchLabels := Some (app "job"); Replicas := None |}
       else Err ErrNotFound;
     PodMetricsesGet := fun _ _ => Ok (metricsOf 990);
     PodsDelete := fun _ _ _ => None;
     Took := took |}.

(** That namespace answering in no time. *)
Definition cluster : Cluster := paced (fun _ => 0%N).

(** The same, with every pod-delete request refused. *)
Definition forbidding : Cluster :=
  {| PodsList := PodsList cluster;
     ServicesGet := ServicesGet cluster;
     DeploymentsGet := DeploymentsGet cluster;
     PodMetricsesGet := PodMetricsesGet cluster;
     PodsDelete := fun _ _ _ => Some (ErrOther "forbidden");
     Took := fun _ => 0%N |}.

(** The durations of a small cluster: 20 ms to resolve the pods, 5 ms
    for a metrics request, 15 ms for a delete request, 10 us for a log
    line, 2 us for the sweep, which reads each record 1 us after it
    started. *)
Definition durations (p : Point) : N :=
  match p with
  | PtResolve => 20000000
  | PtMetrics _ _ => 5000000
  | PtDelete _ _ => 15000000
  | PtSweepRead _ => 1000
  | PtSweep => 2000
  | _ => 10000
  end%N.

(** [cluster] and [forbidding], with these durations. *)
Definition timed : Cluster := paced durations.

Definition timedForbidding : Cluster :=
  {| PodsList := PodsList cluster;
     ServicesGet := ServicesGet cluster;
     DeploymentsGet := DeploymentsGet cluster;
     PodMetricsesGet := PodMetricsesGet cluster;
     PodsDelete := PodsDelete forbidding;
     Took := durations |}.

Definition real : terminator := {| dryRun := false |}.
Definition dry : terminator := {| dryRun := true |}.
Definition background : Context := {| cancelAt := None |}.

(** One second, in nanoseconds. *)
Definition second : Z := 1000000000.

(** "job-1" tracked since clock value 0, seen over the limit twice. *)
Definition tracked : State :=
  {| podsToKill := {[ "job-1" := {| at_ := 0; count := 1 |} ]};
     clock := second; events := [] |}.

End Demo.

Module DemoSweep.

(** Two records opened at clock value 0: "old" with no further
    observation, "busy" with three. *)
Definition records : gmap string overLimit :=
  {[ "old" := {| at_ := 0; count := 0 |};
     "busy" := {| at_ := 0; count := 3 |} ]}.

(** The loop holding these records at clock value 2.5 s. *)
Definition start : State :=
  {| podsToKill := records; clock := 2500000000; events := [] |}.

End DemoSweep.

Module DemoMore.

(** Two pods called "web-0", one in each of two namespaces. *)
Definition webA : Pod :=
  {| Name := "web-0"; Namespace := "team-a"; Phase := "Running";
     Containers := [ {| LimitsMemory := Some 1000 |} ];
     DeletionGracePeriodSeconds := Some 30 |}.

Definition webB : Pod :=
  {| Name := "web-0"; Namespace := "team-b"; Phase := "Running";
     Containers := [ {| LimitsMemory := Some 1000 |} ];
     DeletionGracePeriodSeconds := Some 5 |}.

(** A pod that is still pending, and one with no container. *)
Definition pending : Pod := Demo.pod "new-1" "Pending" (Some 1000).

Definition hollow : Pod :=
  {| Name := "hollow-1"; Namespace := "default"; Phase := "Running";
     Containers := []; DeletionGracePeriodSeconds := None |}.

(** All namespaces at once: both "web-0" pods, each using 990 of 1000,
    with the durations of [Demo.timed]. *)
Definition everywhere : Cluster :=
  {| PodsList := fun _ _ => Ok [webA; webB];
     ServicesGet := fun _ _ => Err ErrNotFound;
     DeploymentsGet := fun _ _ => Err ErrNotFound;
     PodMetricsesGet := fun _ _ => Ok (Demo.metricsOf 990);
     PodsDelete := fun _ _ _ => None;
     Took := Demo.durations |}.

(** The namespace of [Demo.timed] on a quiet day: every pod uses 100
    bytes. *)
Definition quietCluster : Cluster :=
  {| PodsList := PodsList Demo.cluster;
     ServicesGet := ServicesGet Demo.cluster;
     DeploymentsGet := DeploymentsGet Demo.cluster;
     PodMetricsesGet := fun _ _ => Ok (Demo.metricsOf 100);
     PodsDelete := PodsDelete Demo.cluster;
     Took := Demo.durations |}.

(** The same namespace with the pod listing out of order: the services and
    deployments are found, listing pods by selector answers "not found", and
    the deployment "loose" has no selector. *)
Definition unlisted : Cluster :=
  {| PodsList := fun _ _ => Err ErrNotFound;
     ServicesGet := ServicesGet Demo.cluster;
     DeploymentsGet := fun _ name =>
       if String.eqb name "loose"
       then Ok {| SelectorMatchLabels := None; Replicas := Some 1 |}
       else DeploymentsGet Demo.cluster "default" name;
     PodMetricsesGet := PodMetricsesGet Demo.cluster;
     PodsDelete := PodsDelete Demo.cluster;
     Took := fun _ => 0%N |}.

(** The namespace of [Demo.timed] with the metrics API out of order. *)
Definition blind : Cluster :=
  {| PodsList := PodsList Demo.cluster;
     ServicesGet := ServicesGet Demo.cluster;
     DeploymentsGet := DeploymentsGet Demo.cluster;
     PodMetricsesGet := fun _ _ => Err (ErrOther "unavailable");
     PodsDelete := PodsDelete Demo.cluster;
     Took := Demo.durations |}.

End DemoMore.
(** * Properties *)

(** ** Go arithmetic *)

Lemma wrap64_id (z : Z) : Go.int64 z -> Go.wrap64 z = z.
Proof.
  unfold Go.int64, Go.minInt64, Go.maxInt64, Go.wrap64. intros H.
  rewrite Z.mod_small; lia.
Qed.

Lemma wrap64_range (z : Z) : Go.int64 (Go.wrap64 z).
Proof.
  unfold Go.int64, Go.minInt64, Go.maxInt64, Go.wrap64.
  pose proof (Z.mod_pos_bound (z + 2 ^ 63) (2 ^ 64) ltac:(lia)). lia.
Qed.

Lemma Since_exact (now t : Z) : Go.int64 (now - t) -> Go.Since now t = now - t.
Proof.
  unfold Go.Since, Go.Sub, Go.int64. intros H.
  destruct (Z.ltb_spec (now - t) Go.minInt64); [lia |].
  destruct (Z.ltb_spec Go.maxInt64 (now - t)); [lia | reflexivity].
Qed.

(** ** The pod resolver *)

Section Resolver.

Variable c : Cluster.
Variable namespace : string.

Lemma getPods_services_app (pre post : list string) (pods : list Pod) :
  getPods_services c namespace (pre ++ post) pods =
  match getPods_services c namespace pre pods with
  | Return pods' => getPods_services c namespace post pods'
  | Fail err => Fail err
  | Panic => Panic
  end.
Proof.
  revert pods. induction pre as [| name pre IH]; intros pods; simpl; [done |].
  destruct (ServicesGet c namespace name) as [service | err].
  - destruct (PodsList c namespace _); [apply IH | done].
  - destruct (IsNotFound err); [apply IH | done].
Qed.

Lemma getPods_deployments_app (pre post : list string) (pods : list Pod) :
  getPods_deployments c namespace (pre ++ post) pods =
  match getPods_deployments c namespace pre pods with
  | Return pods' => getPods_deployments c namespace post pods'
  | Fail err => Fail err
  | Panic => Panic
  end.
Proof.
  revert pods. induction pre as [| name pre IH]; intros pods; simpl; [done |].
  destruct (DeploymentsGet c namespace name) as [deployment | err].
  - destruct (SelectorMatchLabels deployment); [| done].
    destruct (PodsList c namespace _); [| done].
    destruct (Replicas deployment); [| done].
    destruct (_ >=? _); apply IH.
  - destruct (IsNotFound err); [apply IH | done].
Qed.

Lemma getPods_with_service (pre post deploymentNames : list string)
    (name : string) :
  getPods c namespace (pre ++ name :: post) deploymentNames =
  getPods_filters c namespace (pre ++ name :: post) deploymentNames.
Proof. unfold getPods. destruct pre; reflexivity. Qed.

Lemma getPods_with_deployment (serviceNames pre post : list string)
    (name : string) :
  getPods c namespace serviceNames (pre ++ name :: post) =
  getPods_filters c namespace serviceNames (pre ++ name :: post).
Proof. unfold getPods. destruct serviceNames, pre; reflexivity. Qed.

(** A lookup that fails otherwise than by "not found" leaves no way to a
    successful return of its loop. *)
Lemma getPods_services_abort (names : list string) (name : string)
    (err : error) (pods : list Pod) :
  In name names -> ServicesGet c namespace name = Err err ->
  IsNotFound err = false ->
  forall pods', getPods_services c namespace names pods <> Return pods'.
Proof.
  revert pods. induction names as [| n names IH]; intros pods Hin Hget Hnf pods';
    simpl in *; [done |].
  destruct Hin as [-> | Hin].
  - rewrite Hget, Hnf. discriminate.
  - destruct (ServicesGet c namespace n) as [service | e].
    + destruct (PodsList c namespace _); [by apply IH | discriminate].
    + destruct (IsNotFound e); [by apply IH | discriminate].
Qed.

Lemma getPods_deployments_abort (names : list string) (name : string)
    (err : error) (pods : list Pod) :
  In name names -> DeploymentsGet c namespace name = Err err ->
  IsNotFound err = false ->
  forall pods', getPods_deployments c namespace names pods <> Return pods'.
Proof.
  revert pods. induction names as [| n names IH]; intros pods Hin Hget Hnf pods';
    simpl in *; [done |].
  destruct Hin as [-> | Hin].
  - rewrite Hget, Hnf. discriminate.
  - destruct (DeploymentsGet c namespace n) as [deployment | e].
    + destruct (SelectorMatchLabels deployment); [| discriminate].
      destruct (PodsList c namespace _); [| discriminate].
      destruct (Replicas deployment); [| discriminate].
      destruct (_ >=? _); by apply IH.
    + destruct (IsNotFound e); [by apply IH | discriminate].
Qed.

Lemma getPods_services_all_missing (names : list string) (pods : list Pod) :
  (forall name, In name names -> ServicesGet c namespace name = Err ErrNotFound) ->
  getPods_services c namespace names pods = Return pods.
Proof.
  induction names as [| n names IH]; intros H; simpl; [done |].
  rewrite (H n) by (by left). simpl. apply IH. intros name Hin. apply H. by right.
Qed.

Lemma getPods_deployments_all_missing (names : list string) (pods : list Pod) :
  (forall name, In name names -> DeploymentsGet c namespace name = Err ErrNotFound) ->
  getPods_deployments c namespace names pods = Return pods.
Proof.
  induction names as [| n names IH]; intros H; simpl; [done |].
  rewrite (H n) by (by left). simpl. apply IH. intros name Hin. apply H. by right.
Qed.

End Resolver.

(** The number of pods of [items] whose phase is "Running". *)
Lemma countRunning_length (items : list Pod) (running : Z) :
  0 <= running ->
  running + Z.of_nat (length items) <= Go.maxInt64 ->
  countRunning items running =
  running + Z.of_nat (length (filter (fun pod => Phase pod = "Running") items)).
Proof.
  revert running. induction items as [| pod items IH]; intros running H0 Hmax.
  - simpl. lia.
  - cbn [countRunning]. rewrite filter_cons. cbn [length] in Hmax.
    destruct (String.eqb_spec (Phase pod) "Running") as [Heq | Hne].
    + rewrite decide_True by done. unfold Go.add.
      rewrite wrap64_id by (unfold Go.int64, Go.minInt64, Go.maxInt64 in *; lia).
      rewrite IH by lia. cbn [length]. lia.
    + rewrite decide_False by done. rewrite IH by lia. done.
Qed.

Lemma getPods_services_resolves (c : Cluster) (namespace : string)
    (names : list string) (acc : list Pod) :
  (forall name, In name names -> serviceResolves c namespace name) ->
  getPods_services c namespace names acc =
  Return (acc ++ flat_map (serviceItems c namespace) names).
Proof.
  revert acc. induction names as [| name names IH]; intros acc H.
  - simpl. by rewrite app_nil_r.
  - cbn [getPods_services flat_map]. unfold serviceItems at 1.
    destruct (H name (or_introl eq_refl))
      as [Hget | (service & items & Hget & Hlist)].
    + rewrite Hget. simpl. apply IH. intros n Hn. apply H. by right.
    + rewrite Hget, Hlist, IH, app_assoc; [done |].
      intros n Hn. apply H. by right.
Qed.

Lemma getPods_deployments_resolves (c : Cluster) (namespace : string)
    (names : list string) (acc : list Pod) :
  (forall name, In name names -> deploymentResolves c namespace name) ->
  getPods_deployments c namespace names acc =
  Return (acc ++ flat_map (deploymentItems c namespace) names).
Proof.
  revert acc. induction names as [| name names IH]; intros acc H.
  - simpl. by rewrite app_nil_r.
  - cbn [getPods_deployments flat_map]. unfold deploymentItems at 1.
    assert (Hrest : forall n, In n names -> deploymentResolves c namespace n).
    { intros n Hn. apply H. by right. }
    destruct (H name (or_introl eq_refl))
      as [Hget | (deployment & set & replicas & items & Hget & Hsel & Hrep & Hlist)].
    + rewrite Hget. simpl. by apply IH.
    + rewrite Hget, Hsel, Hlist, Hrep.
      destruct (_ >=? _); rewrite IH by done; [by rewrite app_assoc | done].
Qed.

(** C5. A "not found" answer to a service or deployment lookup skips that
    filter only: resolution gives what it gives without that name, and
    succeeds with no pods when every name is missing. Every filter that is
    found still contributes: a found service adds the pods its selector
    lists, and when every lookup is answered (found or "not found")
    resolution succeeds with the pods of the found services, then those of
    the found deployments that pass the running test, each in the order of
    the names. Any other lookup error aborts resolution: it returns that
    error when the filters before it went through, and never returns a pod
    list. *)
Theorem not_found_skips_only_that_filter (c : Cluster) (namespace : string) :
  (forall pre name post deploymentNames,
      ServicesGet c namespace name = Err ErrNotFound ->
      getPods c namespace (pre ++ name :: post) deploymentNames =
      getPods_filters c namespace (pre ++ post) deploymentNames) /\
  (forall serviceNames pre name post,
      DeploymentsGet c namespace name = Err ErrNotFound ->
      getPods c namespace serviceNames (pre ++ name :: post) =
      getPods_filters c namespace serviceNames (pre ++ post)) /\
  (forall serviceNames deploymentNames,
      (forall name, In name serviceNames ->
                    ServicesGet c namespace name = Err ErrNotFound) ->
      (forall name, In name deploymentNames ->
                    DeploymentsGet c namespace name = Err ErrNotFound) ->
      getPods_filters c namespace serviceNames deploymentNames = Return []) /\
  (forall pre name post deploymentNames err pods,
      ServicesGet c namespace name = Err err -> IsNotFound err = false ->
      getPods_services c namespace pre [] = Return pods ->
      getPods c namespace (pre ++ name :: post) deploymentNames = Fail err) /\
  (forall serviceNames pre name post err pods0 pods,
      DeploymentsGet c namespace name = Err err -> IsNotFound err = false ->
      getPods_services c namespace serviceNames [] = Return pods0 ->
      getPods_deployments c namespace pre pods0 = Return pods ->
      getPods c namespace serviceNames (pre ++ name :: post) = Fail err) /\
  (forall serviceNames deploymentNames name err,
      (In name serviceNames /\ ServicesGet c namespace name = Err err \/
       In name deploymentNames /\ DeploymentsGet c namespace name = Err err) ->
      IsNotFound err = false ->
      forall pods,
        getPods c namespace serviceNames deploymentNames <> Return pods) /\
  (forall name rest pods service items,
      ServicesGet c namespace name = Ok service ->
      PodsList c namespace
        {| LabelSelector := Selector service; Limit := 0 |} = Ok items ->
      getPods_services c namespace (name :: rest) pods =
      getPods_services c namespace rest (pods ++ items)) /\
  (forall serviceNames deploymentNames,
      (forall name, In name serviceNames ->
                    serviceResolves c namespace name) ->
      (forall name, In name deploymentNames ->
                    deploymentResolves c namespace name) ->
      getPods_filters c namespace serviceNames deploymentNames =
      Return (flat_map (serviceItems c namespace) serviceNames ++
              flat_map (deploymentItems c namespace) deploymentNames)).
Proof.
  split; [| split; [| split; [| split; [| split; [| split; [| split]]]]]].
  - intros pre name post deps Hget.
    rewrite getPods_with_service. unfold getPods_filters.
    rewrite !getPods_services_app. simpl. by rewrite Hget.
  - intros svcs pre name post Hget.
    rewrite getPods_with_deployment. unfold getPods_filters.
    destruct (getPods_services c namespace svcs []); [| done | done].
    rewrite !getPods_deployments_app. simpl. by rewrite Hget.
  - intros svcs deps Hs Hd. unfold getPods_filters.
    rewrite getPods_services_all_missing by done.
    by apply getPods_deployments_all_missing.
  - intros pre name post deps err pods Hget Hnf Hpre.
    rewrite getPods_with_service. unfold getPods_filters.
    rewrite getPods_services_app, Hpre. simpl. by rewrite Hget, Hnf.
  - intros svcs pre name post err pods0 pods Hget Hnf Hs Hpre.
    rewrite getPods_with_deployment. unfold getPods_filters.
    rewrite Hs, getPods_deployments_app, Hpre. simpl. by rewrite Hget, Hnf.
  - intros svcs deps name err Hcase Hnf pods.
    assert (Hf : getPods c namespace svcs deps =
                 getPods_filters c namespace svcs deps).
    { unfold getPods. destruct svcs, deps; try reflexivity.
      destruct Hcase as [[[] _] | [[] _]]. }
    rewrite Hf. unfold getPods_filters.
    destruct Hcase as [[Hin Hget] | [Hin Hget]].
    + pose proof (getPods_services_abort c namespace svcs name err [] Hin Hget Hnf) as Hab.
      destruct (getPods_services c namespace svcs []) as [p | |];
        [by destruct (Hab p) | discriminate | discriminate].
    + destruct (getPods_services c namespace svcs []) as [p | |];
        [| discriminate | discriminate].
      by apply (getPods_deployments_abort c namespace deps name err).
  - intros name rest pods service items Hget Hlist. simpl.
    by rewrite Hget, Hlist.
  - intros svcs deps Hs Hd. unfold getPods_filters.
    rewrite getPods_services_resolves by done.
    by rewrite getPods_deployments_resolves.
Qed.

(** With "ghost" unknown, the filters api, ghost resolve like api alone;
    with "flaky" timing out after api, resolution fails with that error;
    and with "ghost" unknown among the services api, ghost, jobs and the
    deployments ghost, job, resolution succeeds with the pods of the three
    that are found. *)
Lemma not_found_skips_only_that_filter_witness :
  getPods Demo.cluster "default" (["api"] ++ "ghost" :: []) ["job"] =
  getPods_filters Demo.cluster "default" (["api"] ++ []) ["job"] /\
  getPods Demo.cluster "default" (["api"] ++ "flaky" :: []) ["job"] =
  Fail (ErrOther "timeout") /\
  getPods_filters Demo.cluster "default" ["api"; "ghost"; "jobs"]
    ["ghost"; "job"] =
  Return (flat_map (serviceItems Demo.cluster "default")
            ["api"; "ghost"; "jobs"] ++
          flat_map (deploymentItems Demo.cluster "default") ["ghost"; "job"]).
Proof.
  pose proof (not_found_skips_only_that_filter Demo.cluster "default")
    as (Hs & _ & _ & Hfail & _ & _ & _ & Hall).
  split; [| split].
  - apply Hs. reflexivity.
  - apply (Hfail ["api"] "flaky" [] ["job"] (ErrOther "timeout") [Demo.api1]);
      reflexivity.
  - apply Hall.
    + intros name [<- | [<- | [<- | []]]].
      * right. by exists {| Selector := Demo.app "api" |}, [Demo.api1].
      * by left.
      * right. by exists {| Selector := Demo.app "job" |}, [Demo.job1].
    + intros name [<- | [<- | []]].
      * by left.
      * right.
        by exists {| SelectorMatchLabels := Some (Demo.app "job");
                     Replicas := Some 1 |}, (Demo.app "job"), 1, [Demo.job1].
Defined.

Example found_filters_contribute :
  getPods Demo.cluster "default" ["api"; "ghost"; "jobs"] ["ghost"; "job"] =
  Return [Demo.api1; Demo.job1; Demo.job1].
Proof. reflexivity. Qed.

(** C6. A deployment that is found, with a selector and a replica count,
    adds its pods to the candidates exactly when the number of its pods in
    phase "Running" is at least the replica count; otherwise it adds
    none of them. *)
Theorem deployment_included_iff_running_ge_replicas (c : Cluster)
    (namespace name : string) (rest : list string) (pods items : list Pod)
    (deployment : Deployment) (set : gmap string string) (replicas : Z) :
  DeploymentsGet c namespace name = Ok deployment ->
  SelectorMatchLabels deployment = Some set ->
  PodsList c namespace {| LabelSelector := set; Limit := 0 |} = Ok items ->
  Replicas deployment = Some replicas ->
  Z.of_nat (length items) <= Go.maxInt64 ->
  let running :=
    Z.of_nat (length (filter (fun pod => Phase pod = "Running") items)) in
  (replicas <= running ->
   getPods_deployments c namespace (name :: rest) pods =
   getPods_deployments c namespace rest (pods ++ items)) /\
  (running < replicas ->
   getPods_deployments c namespace (name :: rest) pods =
   getPods_deployments c namespace rest pods) /\
  getPods c namespace [] [name] =
  Return (if decide (replicas <= running) then items else []).
Proof.
  intros Hget Hsel Hlist Hrep Hlen running.
  assert (Hcount : countRunning items 0 = running).
  { rewrite countRunning_length by lia. done. }
  assert (Hstep : forall rest' pods',
             getPods_deployments c namespace (name :: rest') pods' =
             getPods_deployments c namespace rest'
               (if decide (replicas <= running) then pods' ++ items else pods')).
  { intros rest' pods'. simpl. rewrite Hget, Hsel, Hlist, Hrep, Hcount.
    destruct (Z.geb_spec running replicas).
    - by rewrite decide_True by lia.
    - by rewrite decide_False by lia. }
  repeat split.
  - intros Hge. rewrite Hstep. by rewrite decide_True.
  - intros Hlt. rewrite Hstep. by rewrite decide_False by lia.
  - unfold getPods, getPods_filters. cbn [getPods_services].
    rewrite Hstep. simpl. by destruct (decide _).
Qed.

(** Three replicas wanted and two pods running: the deployment "web" adds
    nothing; one wanted and one running: "job" adds its pod. *)
Lemma deployment_included_iff_running_ge_replicas_witness :
  getPods Demo.cluster "default" [] ["web"] = Return [] /\
  getPods Demo.cluster "default" [] ["job"] = Return [Demo.job1].
Proof.
  split.
  - apply (deployment_included_iff_running_ge_replicas Demo.cluster "default"
             "web" [] [] [Demo.web1; Demo.web2; Demo.web3]
             {| SelectorMatchLabels := Some (Demo.app "web"); Replicas := Some 3 |}
             (Demo.app "web") 3); try reflexivity.
    vm_compute. discriminate.
  - apply (deployment_included_iff_running_ge_replicas Demo.cluster "default"
             "job" [] [] [Demo.job1]
             {| SelectorMatchLabels := Some (Demo.app "job"); Replicas := Some 1 |}
             (Demo.app "job") 1); try reflexivity.
    vm_compute. discriminate.
Defined.

(** C10. The replica count of a fetched deployment is dereferenced with no
    check that it is there: once the deployment and its pods have been
    fetched, a deployment without replica count makes resolution panic,
    whatever the other filters are, as soon as the filters before it went
    through. *)
Theorem missing_replicas_panics (c : Cluster) (namespace name : string)
    (serviceNames pre post : list string) (pods0 pods items : list Pod)
    (deployment : Deployment) (set : gmap string string) :
  DeploymentsGet c namespace name = Ok deployment ->
  SelectorMatchLabels deployment = Some set ->
  PodsList c namespace {| LabelSelector := set; Limit := 0 |} = Ok items ->
  Replicas deployment = None ->
  getPods_services c namespace serviceNames [] = Return pods0 ->
  getPods_deployments c namespace pre pods0 = Return pods ->
  getPods_deployments c namespace (name :: post) pods = Panic /\
  getPods c namespace serviceNames (pre ++ name :: post) = Panic.
Proof.
  intros Hget Hsel Hlist Hrep Hs Hpre.
  assert (Hstep : getPods_deployments c namespace (name :: post) pods = Panic).
  { simpl. by rewrite Hget, Hsel, Hlist, Hrep. }
  split; [done |].
  rewrite getPods_with_deployment. unfold getPods_filters.
  by rewrite Hs, getPods_deployments_app, Hpre.
Qed.

(** The deployment "bare" has no replica count: resolving it after the
    service "api" and the deployment "job" panics. *)
Lemma missing_replicas_panics_witness :
  getPods_deployments Demo.cluster "default" ("bare" :: ["web"])
    [Demo.api1; Demo.job1] = Panic /\
  getPods Demo.cluster "default" ["api"] (["job"] ++ "bare" :: ["web"]) = Panic.
Proof.
  apply (missing_replicas_panics Demo.cluster "default" "bare" ["api"] ["job"]
           ["web"] [Demo.api1] [Demo.api1; Demo.job1] [Demo.job1]
           {| SelectorMatchLabels := Some (Demo.app "job"); Replicas := None |}
           (Demo.app "job")); reflexivity.
Defined.

(** ** Requests, the context and the clock *)

Lemma getPods_cancelled (namespace : string)
    (serviceNames deploymentNames : list string) :
  getPods canceledCluster namespace serviceNames deploymentNames =
  Fail ErrCanceled.
Proof.
  unfold getPods, getPods_filters.
  destruct serviceNames as [| name rest]; [| done].
  by destruct deploymentNames.
Qed.

Lemma client_live (ctx : Context) (now : Z) (c : Cluster) :
  cancelled ctx now = false -> client ctx now c = c.
Proof. unfold client. by intros ->. Qed.

Lemma client_cut (ctx : Context) (now : Z) (c : Cluster) :
  cancelled ctx now = true -> client ctx now c = canceledCluster.
Proof. unfold client. by intros ->. Qed.

Lemma returnsAt_live (ctx : Context) (start : Z) (took : N) :
  cancelled ctx (start + Z.of_N took) = false ->
  returnsAt ctx start took = start + Z.of_N took.
Proof.
  unfold cancelled, returnsAt. destruct (cancelAt ctx) as [T |]; [| done].
  by intros ->.
Qed.


(** A request returns between its start and the end it would have had. *)
Lemma returnsAt_bounds (ctx : Context) (start : Z) (took : N) :
  start <= returnsAt ctx start took <= start + Z.of_N took.
Proof.
  unfold returnsAt. destruct (cancelAt ctx) as [T |]; [| lia].
  destruct (Z.leb_spec T (start + Z.of_N took)); lia.
Qed.


(** An iteration that runs to its end was not cancelled while it resolved
    the pods, went through the scan of the pods it found, swept the map
    the scan left and slept. *)
Lemma iteration_running (t : terminator) (ctx : Context) (c : Cluster)
    (namespace : string) (memoryLimit killAfter : Z)
    (serviceNames deploymentNames : list string) (sleep killSleep : Z)
    (s s' : State) :
  iteration t ctx c namespace memoryLimit killAfter serviceNames
    deploymentNames sleep killSleep s = (Running, s') ->
  cancelled ctx (clock s + Z.of_N (Took c PtResolve)) = false /\
  exists pods s1 killed,
    getPods c namespace serviceNames deploymentNames = Return pods /\
    podsLoop t ctx c memoryLimit killAfter killSleep pods
      (elapse (Took c PtFound) (elapse (Took c PtResolve) s)) false =
      (Running, s1, killed) /\
    s' = time_Sleep sleep
           (elapse (Took c PtSweep)
              (setPods (sweep (sweepReads c (clock s1)) killSleep
                          (podsToKill s1)) s1)).
Proof.
  unfold iteration. intros H.
  destruct (cancelled ctx (clock s + Z.of_N (Took c PtResolve))) eqn:Hc.
  { rewrite client_cut, getPods_cancelled in H; done. }
  rewrite client_live, returnsAt_live in H by done.
  split; [done |].
  destruct (getPods _ _ _ _) as [pods | err |]; [| done | done].
  change (setClock (clock s + Z.of_N (Took c PtResolve)) s)
    with (elapse (Took c PtResolve) s) in H.
  destruct (podsLoop _ _ _ _ _ _ _ _ _) as [[st s1] killed] eqn:Hloop.
  destruct st; [| done | done].
  injection H as <-. by exists pods, s1, killed.
Qed.


Section Clock.

Variable t : terminator.
Variable ctx : Context.
Variable c : Cluster.
Variables memoryLimit killAfter killSleep : Z.

(** The clock never runs backwards. *)
Lemma overBranch_clock (pod : Pod) (s : State) :
  clock s <= clock (overBranch t ctx c killAfter killSleep pod s).1.2.
Proof.
  unfold overBranch. destruct (_ >=? _); [| simpl; lia].
  destruct (dryRun t); [simpl; lia |].
  match goal with
  | |- context [returnsAt ctx ?a ?b] =>
      pose proof (returnsAt_bounds ctx a b) as Hret; simpl in Hret
  end.
  destruct (PodsDelete _ _ _ _); simpl; lia.
Qed.

Lemma podBody_clock (pod : Pod) (s : State) (killed : bool) :
  clock s <=
  clock (podBody t ctx c memoryLimit killAfter killSleep pod s killed).1.2.
Proof.
  unfold podBody.
  destruct (Containers pod) as [| container ?]; [simpl; lia |].
  destruct (negb _ || killed); [simpl; lia |].
  pose proof (returnsAt_bounds ctx (clock s)
                (Took c (PtMetrics (Namespace pod) (Name pod)))) as Hret.
  destruct (PodMetricsesGet _ _ _) as [podMetrics | err].
  - destruct (MetricsContainers podMetrics) as [| cm ?]; [simpl; lia |].
    destruct (overLimitb _ _ _); [| simpl; lia].
    match goal with
    | |- context [overBranch t ctx c killAfter killSleep pod ?s0] =>
        pose proof (overBranch_clock pod s0) as Hover; simpl in Hover
    end.
    lia.
  - destruct (IsNotFound err); simpl; lia.
Qed.

Lemma podsLoop_clock (pods : list Pod) (s : State) (killed : bool) :
  clock s <=
  clock (podsLoop t ctx c memoryLimit killAfter killSleep pods s killed).1.2.
Proof.
  revert s killed. induction pods as [| pod pods IH]; intros s killed;
    [simpl; lia |].
  cbn [podsLoop]. pose proof (podBody_clock pod s killed) as Hbody.
  destruct (podBody t ctx c memoryLimit killAfter killSleep pod s killed)
    as [[st s1] k1].
  simpl in Hbody. destruct st; [| done | done].
  specialize (IH s1 k1). lia.
Qed.

End Clock.

(** ** The expiry sweep *)

Lemma sweep_lookup (readAt : string -> Z) (killSleep : Z)
    (m : gmap string overLimit) (name : string) :
  sweep readAt killSleep m !! name =
  match m !! name with
  | Some over => if expired (readAt name) killSleep over then None else Some over
  | None => None
  end.
Proof.
  unfold sweep. destruct (m !! name) as [over |] eqn:Hm.
  - destruct (expired (readAt name) killSleep over) eqn:He.
    + apply map_lookup_filter_None. right. intros x Hx. simpl.
      rewrite Hm in Hx. injection Hx as <-. by rewrite He.
    + apply map_lookup_filter_Some. by split.
  - apply map_lookup_filter_None. by left.
Qed.

Lemma expired_exact (now killSleep : Z) (over : overLimit) :
  Go.int64 (now - at_ over) -> Go.int64 (count over + 1) ->
  Go.int64 (killSleep * (count over + 1)) ->
  expired now killSleep over = true <->
  now - at_ over > killSleep * (count over + 1).
Proof.
  intros Hage Hcount Hwin. unfold expired, Go.mul, Go.add.
  rewrite Since_exact by done. rewrite (wrap64_id (count over + 1)) by done.
  rewrite wrap64_id by done.
  destruct (Z.gtb_spec (now - at_ over) (killSleep * (count over + 1))); split;
    intros; (done || lia).
Qed.

Lemma Sub_monotone (t t' u : Z) : t <= t' -> Go.Sub t u <= Go.Sub t' u.
Proof.
  intros Hle. unfold Go.Sub, Go.minInt64, Go.maxInt64.
  repeat match goal with
         | |- context [?a <? ?b] => destruct (Z.ltb_spec a b)
         end; lia.
Qed.

Lemma expired_later (now now' killSleep : Z) (over : overLimit) :
  now <= now' ->
  expired now killSleep over = true -> expired now' killSleep over = true.
Proof.
  intros Hle. unfold expired, Go.Since.
  pose proof (Sub_monotone now now' (at_ over) Hle).
  rewrite !Z.gtb_ltb, !Z.ltb_lt. lia.
Qed.

Lemma sweep_subseteq (readAt : string -> Z) (killSleep : Z)
    (m : gmap string overLimit) :
  sweep readAt killSleep m ⊆ m.
Proof.
  apply map_subseteq_spec. intros name over. rewrite sweep_lookup.
  destruct (m !! name) as [o |]; [| done].
  by destruct (expired (readAt name) killSleep o).
Qed.

Lemma sweep_later (readAt readAt' : string -> Z) (killSleep : Z)
    (m : gmap string overLimit) :
  (forall name, readAt name <= readAt' name) ->
  sweep readAt' killSleep m ⊆ sweep readAt killSleep m.
Proof.
  intros Hle. apply map_subseteq_spec. intros name over.
  rewrite !sweep_lookup. destruct (m !! name) as [o |]; [| done].
  destruct (expired (readAt name) killSleep o) eqn:He.
  - by rewrite (expired_later _ _ killSleep o (Hle name) He).
  - by destruct (expired (readAt' name) killSleep o).
Qed.

(** C3, as the code has it. An iteration that runs to its end sweeps the
    map its scan left: it leaves no record but those of that map, removes
    each record that passes the test of line 191 when the sweep reads it
    and keeps every other record as it is. As long as the age and the
    window fit a 64-bit duration, the test holds exactly when the age
    since [at] is strictly greater than killSleep times (count + 1). *)
Theorem sweep_removes_exactly_the_expired (t : terminator) (ctx : Context)
    (c : Cluster) (namespace : string) (memoryLimit killAfter : Z)
    (serviceNames deploymentNames : list string) (sleep killSleep : Z)
    (s s' : State) :
  iteration t ctx c namespace memoryLimit killAfter serviceNames
    deploymentNames sleep killSleep s = (Running, s') ->
  exists pods s1 killed,
    getPods c namespace serviceNames deploymentNames = Return pods /\
    podsLoop t ctx c memoryLimit killAfter killSleep pods
      (elapse (Took c PtFound) (elapse (Took c PtResolve) s)) false =
      (Running, s1, killed) /\
    forall name,
      let now := sweepReads c (clock s1) name in
      podsToKill s' !! name =
      match podsToKill s1 !! name with
      | Some over => if expired now killSleep over then None else Some over
      | None => None
      end /\
      forall over,
        podsToKill s1 !! name = Some over ->
        Go.int64 (now - at_ over) -> Go.int64 (count over + 1) ->
        Go.int64 (killSleep * (count over + 1)) ->
        (now - at_ over > killSleep * (count over + 1) ->
         podsToKill s' !! name = None) /\
        (now - at_ over <= killSleep * (count over + 1) ->
         podsToKill s' !! name = Some over).
Proof.
  intros H.
  apply iteration_running in H as (_ & pods & s1 & killed & Hget & Hloop & ->).
  exists pods, s1, killed. split; [done |]. split; [done |].
  intros name now.
  change (podsToKill (time_Sleep sleep _))
    with (sweep (sweepReads c (clock s1)) killSleep (podsToKill s1)).
  rewrite sweep_lookup. fold now. split; [done |].
  intros over Hm Hage Hcount Hwin.
  pose proof (expired_exact now killSleep over Hage Hcount Hwin) as Hexp.
  rewrite Hm. split; intros H.
  - apply Hexp in H. by rewrite H.
  - destruct (expired now killSleep over); [| done].
    assert (now - at_ over > killSleep * (count over + 1)) by (by apply Hexp).
    lia.
Qed.

(** With killSleep one second and no pod over the limit, the iteration
    started at 2.5 s, whose sweep reads the records 40 ms later, removes
    "old" (window 1 s) and keeps "busy" (window 4 s). *)
Lemma sweep_removes_exactly_the_expired_witness :
  exists s',
    iteration Demo.real Demo.background DemoMore.quietCluster "default" 95 2
      [] [] Demo.second Demo.second DemoSweep.start = (Running, s') /\
    podsToKill s' !! "old" = None /\
    podsToKill s' !! "busy" = Some {| at_ := 0; count := 3 |}.
Proof.
  eexists. split; [reflexivity |].
  destruct (sweep_removes_exactly_the_expired Demo.real Demo.background
              DemoMore.quietCluster "default" 95 2 [] [] Demo.second
              Demo.second DemoSweep.start _ eq_refl)
    as (pods & s1 & killed & Hget & Hloop & Hsweep).
  injection Hget as <-. vm_compute in Hloop. injection Hloop as <- _.
  split.
  - apply (proj2 (Hsweep "old") {| at_ := 0; count := 0 |});
      try reflexivity; try (vm_compute; split; discriminate).
  - apply (proj2 (Hsweep "busy") {| at_ := 0; count := 3 |});
      try reflexivity; try (vm_compute; split; discriminate).
    vm_compute. discriminate.
Defined.

(** C3 fails as stated when the window does not fit 64 bits. With a
    kill-sleep of 9 000 000 000 s, "api-1" over the limit in both
    iterations and a poll of 1 s, the second sweep reads a record of count
    1 that is about one second old, far inside killSleep times (count + 1),
    and removes it: the product wraps around to a negative duration. *)
Lemma overflowing_window_drops_a_fresh_record :
  let killSleep := 9000000000000000000 in
  let run cs :=
    Terminate Demo.dry Demo.background "default" 95 5 ["api"] [] Demo.second
      killSleep 0 cs in
  exists s1 s2 over,
    run [Demo.timed] = (Running, s1) /\
    podsLoop Demo.dry Demo.background Demo.timed 95 5 killSleep [Demo.api1]
      (elapse (Took Demo.timed PtFound) (elapse (Took Demo.timed PtResolve) s1))
      false = (Running, s2, false) /\
    podsToKill s2 !! "api-1" = Some over /\
    count over = 1 /\
    sweepReads Demo.timed (clock s2) "api-1" - at_ over
      <= killSleep * (count over + 1) /\
    podsToKill (run [Demo.timed; Demo.timed]).2 !! "api-1" = None.
Proof.
  do 3 eexists. split; [vm_compute; reflexivity |].
  split; [vm_compute; reflexivity |].
  split; [vm_compute; reflexivity |].
  split; [reflexivity |]. split; [vm_compute; discriminate |].
  vm_compute. reflexivity.
Qed.

(** ** The scan of the candidate pods *)

Section Scan.

Variable t : terminator.
Variable ctx : Context.
Variable c : Cluster.
Variables memoryLimit killAfter killSleep : Z.

Lemma countb_app (f : Event -> bool) (l1 l2 : list Event) :
  countb f (l1 ++ l2) = (countb f l1 + countb f l2)%nat.
Proof. unfold countb. by rewrite List.filter_app, length_app. Qed.

(** Once [killed] is set the loop skips every pod. *)
Lemma podsLoop_killed (pods : list Pod) (s : State) :
  podsLoop t ctx c memoryLimit killAfter killSleep pods s true =
  (Running, s, true).
Proof.
  induction pods as [| pod pods IH]; [done |].
  cbn [podsLoop]. unfold podBody.
  destruct (Containers pod); [apply IH |].
  rewrite orb_true_r. apply IH.
Qed.

Lemma quiet_nil : quiet [].
Proof. split; [constructor | split; cbn; lia]. Qed.

Lemma quiet_sleep (tail : list Event) (d : Z) :
  quiet tail -> quiet (tail ++ [Sleep d]).
Proof.
  intros (Hs & Hd & Hk). split; [| split].
  - apply Forall_app. split; [done | by repeat constructor].
  - rewrite countb_app. cbn. lia.
  - rewrite countb_app. cbn. lia.
Qed.

Lemma overBranch_trace (pod : Pod) (s s' : State) (st : status)
    (killed' : bool) :
  overBranch t ctx c killAfter killSleep pod s = (st, s', killed') ->
  exists tail,
    events s' = events s ++ tail /\ quiet tail /\
    (st = Running -> killed' = false -> tail = []).
Proof.
  unfold overBranch. destruct (_ >=? _).
  - destruct (dryRun t).
    + intros [= <- <- <-]. eexists. split; [| split].
      * simpl. rewrite <- !app_assoc. reflexivity.
      * split; [by repeat constructor | split; cbn; lia].
      * done.
    + destruct (PodsDelete _ _ _ _) as [e |].
      * intros [= <- <- <-]. eexists. split; [| split].
        -- simpl. rewrite <- !app_assoc. reflexivity.
        -- split; [by repeat constructor | split; cbn; lia].
        -- done.
      * intros [= <- <- <-]. eexists. split; [| split].
        -- simpl. rewrite <- !app_assoc. reflexivity.
        -- split; [by repeat constructor | split; cbn; lia].
        -- done.
  - intros [= <- <- <-]. exists []. split; [| split].
    + simpl. by rewrite app_nil_r.
    + apply quiet_nil.
    + done.
Qed.

Lemma podBody_trace (pod : Pod) (s s' : State) (st : status)
    (killed' : bool) :
  podBody t ctx c memoryLimit killAfter killSleep pod s false =
    (st, s', killed') ->
  exists samples tail,
    events s' = events s ++ samples ++ tail /\
    Forall (fun e => isSample e = true) samples /\ quiet tail /\
    (st = Running -> killed' = false -> tail = []).
Proof.
  unfold podBody.
  assert (Hskip : forall s0 : State, exists samples tail,
             events s0 = events s0 ++ samples ++ tail /\
             Forall (fun e => isSample e = true) samples /\ quiet tail /\
             (Running = Running -> false = false -> tail = [])).
  { intros s0. exists [], []. rewrite app_nil_r.
    split; [done |]. split; [constructor |]. split; [apply quiet_nil | done]. }
  assert (Hone : forall (st0 : status) (s0 : State),
             events s0 =
               events s ++ [CallPodMetrics (Namespace pod) (Name pod)] ->
             exists samples tail,
             events s0 = events s ++ samples ++ tail /\
             Forall (fun e => isSample e = true) samples /\ quiet tail /\
             (st0 = Running -> false = false -> tail = [])).
  { intros st0 s0 ->. exists [CallPodMetrics (Namespace pod) (Name pod)], [].
    split; [done |]. split; [by repeat constructor |].
    split; [apply quiet_nil | done]. }
  destruct (Containers pod) as [| container ?].
  { intros [= <- <- <-]. apply Hskip. }
  destruct (negb _ || false).
  { intros [= <- <- <-]. apply Hskip. }
  destruct (PodMetricsesGet _ _ _) as [podMetrics | err].
  - destruct (MetricsContainers podMetrics) as [| cm ?].
    { intros [= <- <- <-]. by apply Hone. }
    destruct (overLimitb _ _ _).
    + intros H. apply overBranch_trace in H as (tail & Hev & Hq & Hnil).
      exists [CallPodMetrics (Namespace pod) (Name pod)], tail.
      split; [| split; [by repeat constructor | by split]].
      rewrite Hev. simpl. by rewrite <- app_assoc.
    + intros [= <- <- <-]. by apply Hone.
  - destruct (IsNotFound err); intros [= <- <- <-]; by apply Hone.
Qed.

Lemma podsLoop_trace (pods : list Pod) (s s' : State) (st : status)
    (killed' : bool) :
  podsLoop t ctx c memoryLimit killAfter killSleep pods s false =
    (st, s', killed') ->
  exists samples tail,
    events s' = events s ++ samples ++ tail /\
    Forall (fun e => isSample e = true) samples /\ quiet tail /\
    (st = Running -> killed' = false -> tail = []).
Proof.
  revert s. induction pods as [| pod pods IH]; intros s.
  - intros [= <- <- <-]. exists [], []. rewrite app_nil_r.
    split; [done |]. split; [constructor |]. split; [apply quiet_nil | done].
  - cbn [podsLoop].
    destruct (podBody t ctx c memoryLimit killAfter killSleep pod s false)
      as [[st1 s1] k1] eqn:Hbody.
    apply podBody_trace in Hbody as (samples1 & tail1 & Hev1 & Hs1 & Hq1 & Hnil1).
    destruct st1.
    + destruct k1.
      * rewrite podsLoop_killed. intros [= <- <- <-].
        by exists samples1, tail1.
      * rewrite (Hnil1 eq_refl eq_refl), app_nil_r in Hev1.
        intros H. apply IH in H as (samples2 & tail2 & Hev2 & Hs2 & Hq2 & Hnil2).
        exists (samples1 ++ samples2), tail2.
        split; [| split; [by apply Forall_app | by split]].
        rewrite Hev2, Hev1. by rewrite <- !app_assoc.
    + intros [= <- <- <-]. exists samples1, tail1.
      split; [done |]. split; [done |]. split; [done |]. discriminate.
    + intros [= <- <- <-]. exists samples1, tail1.
      split; [done |]. split; [done |]. split; [done |]. discriminate.
Qed.

End Scan.

(** C2. In one iteration every memory sample comes before every other
    event, and what follows the samples holds at most one kill decision
    and at most one pod-delete request: once a pod is chosen, no other pod
    of the candidate list is sampled or killed in that iteration. *)
Theorem at_most_one_kill_per_iteration (t : terminator) (ctx : Context)
    (c : Cluster) (namespace : string) (memoryLimit killAfter : Z)
    (serviceNames deploymentNames : list string) (sleep killSleep : Z)
    (s : State) :
  exists samples tail,
    events (iteration t ctx c namespace memoryLimit killAfter serviceNames
              deploymentNames sleep killSleep s).2 =
      events s ++ samples ++ tail /\
    Forall (fun e => isSample e = true) samples /\
    Forall (fun e => isSample e = false) tail /\
    (countb isDecision tail <= 1)%nat /\
    (countb isDelete tail <= 1)%nat.
Proof.
  unfold iteration.
  destruct (getPods _ _ _ _) as [pods | err |].
  - destruct (podsLoop _ _ _ _ _ _ _ _ _) as [[st s1] k1] eqn:Hloop.
    apply podsLoop_trace in Hloop as (samples & tail & Hev & Hs & Hq & _).
    simpl in Hev. destruct st.
    + exists samples, (tail ++ [Sleep sleep]).
      destruct (quiet_sleep tail sleep Hq) as (? & ? & ?).
      split; [| done]. simpl. rewrite Hev. by rewrite <- !app_assoc.
    + exists samples, tail. by destruct Hq as (? & ? & ?).
    + exists samples, tail. by destruct Hq as (? & ? & ?).
  - exists [], []. rewrite app_nil_r.
    split; [done |]. split; [constructor |]. split; [constructor |]. cbn. lia.
  - exists [], []. rewrite app_nil_r.
    split; [done |]. split; [constructor |]. split; [constructor |]. cbn. lia.
Qed.

(** ** Counting the observations of one pod name *)

Section Counting.

Variable t : terminator.
Variable ctx : Context.
Variable c : Cluster.
Variables memoryLimit killAfter killSleep : Z.
Variable name : string.

Lemma observe_same (n : string) (now : Z) (m : gmap string overLimit) :
  observe n now m !! n =
  Some match m !! n with
       | Some over => {| at_ := at_ over; count := Go.add (count over) 1 |}
       | None => {| at_ := now; count := 0 |}
       end.
Proof. unfold observe. destruct (m !! n); apply lookup_insert_eq. Qed.

Lemma observe_other (n : string) (now : Z) (m : gmap string overLimit) :
  n <> name -> observe n now m !! name = m !! name.
Proof. intros Hne. unfold observe. destruct (m !! n); by apply lookup_insert_ne. Qed.

Lemma overBranch_record (pod : Pod) (s s' : State) (st : status)
    (killed' : bool) (over : overLimit) :
  overBranch t ctx c killAfter killSleep pod s = (st, s', killed') ->
  podsToKill s !! name = Some over ->
  recordStep name pod over st s' killed'.
Proof.
  unfold overBranch, recordStep. intros H Hm.
  destruct (decide (Name pod = name)) as [Heq | Hne].
  - assert (Hobs : observe (Name pod) (clock s) (podsToKill s) !! name =
                   Some {| at_ := at_ over; count := Go.add (count over) 1 |}).
    { rewrite <- Heq. rewrite observe_same. rewrite Heq, Hm. done. }
    destruct (_ >=? _).
    + destruct (dryRun t).
      * injection H as <- <- <-. left. simpl. rewrite Heq.
        by rewrite lookup_delete_eq.
      * destruct (PodsDelete _ _ _ _) as [e |]; injection H as <- <- <-.
        -- right. eexists. simpl. split; [exact Hobs |]. simpl. split; [done |].
           right. done.
        -- left. simpl. rewrite Heq. by rewrite lookup_delete_eq.
    + injection H as <- <- <-. right. eexists. simpl.
      split; [exact Hobs |]. simpl. split; [done |]. by right.
  - assert (Hobs : observe (Name pod) (clock s) (podsToKill s) !! name =
                   Some over).
    { by rewrite observe_other. }
    right. exists over. split; [| split; [done | by left]].
    destruct (_ >=? _).
    + destruct (dryRun t).
      * injection H as <- <- <-. simpl. by rewrite lookup_delete_ne.
      * destruct (PodsDelete _ _ _ _) as [e |]; injection H as <- <- <-; simpl;
          [done | by rewrite lookup_delete_ne].
    + by injection H as <- <- <-.
Qed.

Lemma podBody_record (pod : Pod) (s s' : State) (st : status)
    (killed killed' : bool) (over : overLimit) :
  podBody t ctx c memoryLimit killAfter killSleep pod s killed =
    (st, s', killed') ->
  podsToKill s !! name = Some over ->
  recordStep name pod over st s' killed'.
Proof.
  unfold podBody. intros H Hm.
  assert (Hkeep : forall st0 s0 k0, podsToKill s0 = podsToKill s ->
             recordStep name pod over st0 s0 k0).
  { intros st0 s0 k0 Hs0. right. exists over. rewrite Hs0.
    split; [done |]. split; [done | by left]. }
  destruct (Containers pod) as [| container ?].
  { injection H as <- <- <-. by apply Hkeep. }
  destruct (negb _ || killed).
  { injection H as <- <- <-. by apply Hkeep. }
  destruct (PodMetricsesGet _ _ _) as [podMetrics | err].
  - destruct (MetricsContainers podMetrics) as [| cm ?].
    { injection H as <- <- <-. by apply Hkeep. }
    destruct (overLimitb _ _ _).
    + by apply (overBranch_record pod _ s' st killed' over) in H.
    + injection H as <- <- <-. by apply Hkeep.
  - destruct (IsNotFound err); injection H as <- <- <-; by apply Hkeep.
Qed.

Lemma occurrences_cons (pod : Pod) (pods : list Pod) :
  occurrences name (pod :: pods) =
  ((if String.eqb (Name pod) name then 1 else 0) + occurrences name pods)%nat.
Proof. unfold occurrences. simpl. by destruct (String.eqb _ _). Qed.

Lemma podsLoop_record (pods : list Pod) (s s' : State) (st : status)
    (killed killed' : bool) (over over' : overLimit) :
  podsLoop t ctx c memoryLimit killAfter killSleep pods s killed =
    (st, s', killed') ->
  podsToKill s !! name = Some over ->
  podsToKill s' !! name = Some over' ->
  Go.int64 (count over) ->
  count over + Z.of_nat (occurrences name pods) <= Go.maxInt64 ->
  at_ over' = at_ over /\
  count over <= count over' <= count over + Z.of_nat (occurrences name pods).
Proof.
  revert s killed over. induction pods as [| pod pods IH];
    intros s killed over Hloop Hm Hm' Hrange Hmax.
  - injection Hloop as <- <- <-. rewrite Hm in Hm'. injection Hm' as <-.
    split; [done | simpl; lia].
  - cbn [podsLoop] in Hloop. rewrite occurrences_cons in *.
    destruct (podBody t ctx c memoryLimit killAfter killSleep pod s killed)
      as [[st1 s1] k1] eqn:Hbody.
    apply (podBody_record pod s s1 st1 killed k1 over) in Hbody; [| done].
    destruct Hbody as [(Hnone & -> & ->) | (over1 & Hm1 & Hat & Hcount)].
    { rewrite podsLoop_killed in Hloop. injection Hloop as <- <- <-.
      by rewrite Hnone in Hm'. }
    assert (Hstep : count over <= count over1 <=
                    count over + Z.of_nat (if String.eqb (Name pod) name then 1 else 0)
                    /\ Go.int64 (count over1)).
    { unfold Go.int64, Go.minInt64, Go.maxInt64 in *.
      destruct Hcount as [-> | [Heq ->]]; [lia |].
      apply String.eqb_eq in Heq. rewrite Heq in *. unfold Go.add.
      rewrite wrap64_id by (unfold Go.int64, Go.minInt64, Go.maxInt64; lia).
      lia. }
    destruct Hstep as [Hstep Hrange1].
    destruct st1.
    + apply (IH s1 k1 over1) in Hloop; [| done | done | done | lia].
      destruct Hloop as [Hat' Hc']. split; [congruence | lia].
    + injection Hloop as <- <- <-. rewrite Hm1 in Hm'. injection Hm' as <-.
      split; [done | lia].
    + injection Hloop as <- <- <-. rewrite Hm1 in Hm'. injection Hm' as <-.
      split; [done | lia].
Qed.

End Counting.

(** C4, as the code has it. Over one iteration the count of a tracked pod
    name rises by at most the number of times a pod of that name is in the
    candidate list of the iteration (so by at most one when it is there
    once), and the record keeps its time stamp; the count is taken for
    every occurrence, not once for the iteration. *)
Theorem count_rises_at_most_once_per_occurrence (t : terminator)
    (ctx : Context) (c : Cluster) (namespace : string)
    (memoryLimit killAfter : Z) (serviceNames deploymentNames : list string)
    (sleep killSleep : Z) (s : State) (pods : list Pod) (name : string)
    (over over' : overLimit) :
  getPods (client ctx (clock s + Z.of_N (Took c PtResolve)) c) namespace
    serviceNames deploymentNames = Return pods ->
  podsToKill s !! name = Some over ->
  podsToKill (iteration t ctx c namespace memoryLimit killAfter serviceNames
                deploymentNames sleep killSleep s).2 !! name = Some over' ->
  Go.int64 (count over) ->
  count over + Z.of_nat (occurrences name pods) <= Go.maxInt64 ->
  at_ over' = at_ over /\
  count over <= count over' <= count over + Z.of_nat (occurrences name pods).
Proof.
  unfold iteration. intros -> Hm Hm' Hrange Hmax.
  destruct (podsLoop _ _ _ _ _ _ _ _ _) as [[st s1] k1] eqn:Hloop.
  assert (Hm1 : podsToKill s1 !! name = Some over').
  { destruct st; simpl in Hm'; [| done | done].
    rewrite sweep_lookup in Hm'.
    destruct (podsToKill s1 !! name) as [o |]; [| done].
    destruct (expired _ _ o); [done | done]. }
  by apply (podsLoop_record t ctx c memoryLimit killAfter killSleep name pods
              _ s1 st false k1 over over') in Hloop.
Qed.

(** The service "jobs" and the deployment "job" select the same pod, which
    is there twice: over one iteration its count stays within two of what
    it was. *)
Lemma count_rises_at_most_once_per_occurrence_witness :
  at_ {| at_ := 0; count := 3 |} = at_ {| at_ := 0; count := 1 |} /\
  count {| at_ := 0; count := 1 |} <= count {| at_ := 0; count := 3 |} <=
  count {| at_ := 0; count := 1 |} +
  Z.of_nat (occurrences "job-1" [Demo.job1; Demo.job1]).
Proof.
  apply (count_rises_at_most_once_per_occurrence Demo.real Demo.background
           Demo.timed "default" 95 10 ["jobs"] ["job"] Demo.second
           Demo.second Demo.tracked [Demo.job1; Demo.job1] "job-1"
           {| at_ := 0; count := 1 |} {| at_ := 0; count := 3 |});
    try reflexivity; vm_compute; try split; discriminate.
Defined.

(** C4 fails as stated: the pod "job-1", matched by a service and by a
    deployment, is twice in the candidate list, and one iteration takes its
    count from 1 to 3. *)
Lemma duplicate_pod_counted_twice :
  getPods Demo.timed "default" ["jobs"] ["job"] =
    Return [Demo.job1; Demo.job1] /\
  podsToKill Demo.tracked !! "job-1" = Some {| at_ := 0; count := 1 |} /\
  iteration Demo.real Demo.background Demo.timed "default" 95 10
    ["jobs"] ["job"] Demo.second Demo.second Demo.tracked =
  (Running,
   {| podsToKill := {[ "job-1" := {| at_ := 0; count := 3 |} ]};
      clock := 2030052000;
      events := [CallPodMetrics "default" "job-1";
                 CallPodMetrics "default" "job-1"; Sleep Demo.second] |}).
Proof. repeat split; vm_compute; reflexivity. Qed.

(** ** Dry run against real run *)

Lemma withoutDeletes_app (l1 l2 : list Event) :
  withoutDeletes (l1 ++ l2) = withoutDeletes l1 ++ withoutDeletes l2.
Proof. apply List.filter_app. Qed.

Lemma countb_zero_app (f : Event -> bool) (l1 l2 : list Event) :
  countb f (l1 ++ l2) = 0%nat -> countb f l1 = 0%nat.
Proof. rewrite countb_app. lia. Qed.

Lemma deleteTime_app (c : Cluster) (l1 l2 : list Event) :
  deleteTime c (l1 ++ l2) = deleteTime c l1 + deleteTime c l2.
Proof.
  induction l1 as [| e l1 IH]; [done |].
  simpl. destruct e; rewrite IH; lia.
Qed.

Lemma deleteTime_nonneg (c : Cluster) (l : list Event) : 0 <= deleteTime c l.
Proof. induction l as [| e l IH]; [done |]. simpl. destruct e; lia. Qed.

Lemma sameButLag_zero (sr sd : State) :
  sameButLag 0 sr sd <-> sameButDeletes sr sd.
Proof.
  unfold sameButLag, sameButDeletes.
  split; intros (Hm & Hc & Hev); (split; [done |]; split; [lia | done]).
Qed.

Lemma PodsDelete_granted (ctx : Context) (now : Z) (c : Cluster)
    (namespace name : string) (opts : DeleteOptions) :
  PodsDelete (client ctx now c) namespace name opts = None ->
  cancelled ctx now = false.
Proof. unfold client. by destruct (cancelled ctx now). Qed.

Section DryRun.

Variable ctx : Context.
Variables memoryLimit killAfter killSleep : Z.

Let real : terminator := {| dryRun := false |}.
Let dry : terminator := {| dryRun := true |}.

(** Splits two states related by [sameButDeletes] into their fields. *)
Ltac same_fields sr sd H :=
  destruct sr as [mr cr er], sd as [md cd ed];
  unfold sameButDeletes in H; simpl in H;
  destruct H as (-> & -> & ->).

Ltac fields :=
  unfold real, dry;
  cbn [events emit setClock elapse setPods time_Sleep fst snd podsToKill
       clock dryRun].

Lemma overBranch_dry (c : Cluster) (pod : Pod) (sr sd : State) :
  sameButDeletes sr sd ->
  let r := overBranch real ctx c killAfter killSleep pod sr in
  let d := overBranch dry ctx c killAfter killSleep pod sd in
  refused r.1.1 r.1.2 \/ together c sr r d.
Proof.
  intros H. same_fields sr sd H. unfold overBranch, together. fields.
  destruct (_ >=? _); fields.
  - destruct (PodsDelete _ _ _ _) as [e |] eqn:Hdel; fields.
    + left. split; [by exists e |]. fields. rewrite !countb_app. cbn. lia.
    + right. apply PodsDelete_granted in Hdel.
      rewrite returnsAt_live by exact Hdel.
      split; [done |]. split; [done |]. eexists. split.
      { rewrite <- !app_assoc. reflexivity. }
      split; [| done].
      unfold sameButLag. simpl. split; [done |]. split; [lia |].
      rewrite !withoutDeletes_app. simpl. by rewrite app_nil_r.
  - right. split; [done |]. split; [done |]. exists [].
    rewrite app_nil_r. split; [done |]. split; [| done].
    unfold sameButLag. simpl. split; [done |]. split; [lia | done].
Qed.

Lemma podBody_dry (c : Cluster) (pod : Pod) (sr sd : State) :
  sameButDeletes sr sd ->
  let r := podBody real ctx c memoryLimit killAfter killSleep pod sr false in
  let d := podBody dry ctx c memoryLimit killAfter killSleep pod sd false in
  refused r.1.1 r.1.2 \/ together c sr r d.
Proof.
  intros H. unfold podBody.
  assert (Hclock : clock sd = clock sr) by apply H.
  assert (Hstay : together c sr (Running, sr, false) (Running, sd, false)).
  { split; [done |]. split; [done |]. exists []. rewrite app_nil_r.
    split; [done |]. split; [by apply sameButLag_zero | done]. }
  assert (Hemit : forall now d, sameButDeletes
            (elapse d (setClock now
               (emit (CallPodMetrics (Namespace pod) (Name pod)) sr)))
            (elapse d (setClock now
               (emit (CallPodMetrics (Namespace pod) (Name pod)) sd)))).
  { intros now d. destruct H as (Hm & Hc & Hev).
    unfold sameButDeletes. simpl. split; [done |]. split; [done |].
    by rewrite withoutDeletes_app, Hev. }
  assert (Hone : forall st now d,
            together c sr
              (st, elapse d (setClock now
                 (emit (CallPodMetrics (Namespace pod) (Name pod)) sr)), false)
              (st, elapse d (setClock now
                 (emit (CallPodMetrics (Namespace pod) (Name pod)) sd)), false)).
  { intros st now d. split; [done |]. split; [done |].
    exists [CallPodMetrics (Namespace pod) (Name pod)].
    split; [done |]. split; [| done].
    apply sameButLag_zero, Hemit. }
  assert (H0 : forall s0 : State, elapse 0 s0 = s0).
  { intros [m0 c0 e0]. unfold elapse, setClock. simpl. f_equal. lia. }
  destruct (Containers pod) as [| container ?]; simpl.
  { by right. }
  destruct (negb _ || false); simpl.
  { by right. }
  rewrite Hclock.
  destruct (PodMetricsesGet _ _ _) as [podMetrics | err]; simpl.
  - destruct (MetricsContainers podMetrics) as [| cm ?]; simpl.
    { right. rewrite <- (H0 (setClock _ (emit _ sr))).
      rewrite <- (H0 (setClock _ (emit _ sd))). apply Hone. }
    destruct (overLimitb _ _ _); simpl.
    + match goal with
      | |- context [overBranch real ctx c killAfter killSleep pod ?a] =>
          match goal with
          | |- context [overBranch dry ctx c killAfter killSleep pod ?b] =>
              destruct (overBranch_dry c pod a b (Hemit _ _))
                as [Href | (Hst & Hk & new & Hev & Hlag & Hzero)]
          end
      end.
      * by left.
      * right. split; [done |]. split; [done |].
        exists (CallPodMetrics (Namespace pod) (Name pod) :: new).
        split; [| done]. rewrite Hev. simpl. by rewrite <- app_assoc.
    + right. apply Hone.
  - destruct (IsNotFound err); simpl; right.
    + apply Hone.
    + rewrite <- (H0 (setClock _ (emit _ sr))).
      rewrite <- (H0 (setClock _ (emit _ sd))). apply Hone.
Qed.

Lemma podsLoop_dry (c : Cluster) (pods : list Pod) (sr sd : State) :
  sameButDeletes sr sd ->
  let r := podsLoop real ctx c memoryLimit killAfter killSleep pods sr false in
  let d := podsLoop dry ctx c memoryLimit killAfter killSleep pods sd false in
  refused r.1.1 r.1.2 \/ together c sr r d.
Proof.
  revert sr sd. induction pods as [| pod pods IH]; intros sr sd H.
  - right. simpl. split; [done |]. split; [done |]. exists [].
    rewrite app_nil_r. split; [done |]. split; [by apply sameButLag_zero | done].
  - cbn [podsLoop].
    pose proof (podBody_dry c pod sr sd H) as Hbody.
    unfold together in Hbody. simpl in Hbody.
    destruct (podBody real ctx c memoryLimit killAfter killSleep pod sr false)
      as [[str sr1] kr].
    destruct (podBody dry ctx c memoryLimit killAfter killSleep pod sd false)
      as [[std sd1] kd].
    unfold together in Hbody. simpl in Hbody.
    destruct Hbody as [Href | (<- & <- & new1 & Hev1 & Hlag1 & Hzero1)].
    { left. destruct Href as [[e ->] Hcount]. split; [by exists e | done]. }
    simpl in Hev1, Hlag1, Hzero1.
    destruct str.
    + destruct kr.
      * rewrite !podsLoop_killed. right. split; [done |]. split; [done |].
        by exists new1.
      * rewrite (Hzero1 eq_refl eq_refl) in Hlag1.
        apply sameButLag_zero in Hlag1.
        destruct (IH sr1 sd1 Hlag1)
          as [Href | (Hst & Hk & new2 & Hev2 & Hlag2 & Hzero2)];
          [by left |].
        right. split; [done |]. split; [done |]. exists (new1 ++ new2).
        rewrite deleteTime_app, (Hzero1 eq_refl eq_refl), Z.add_0_l.
        split; [| done]. by rewrite Hev2, Hev1, <- app_assoc.
    + right. split; [done |]. split; [done |]. by exists new1.
    + right. split; [done |]. split; [done |]. by exists new1.
Qed.

Variable namespace : string.
Variables serviceNames deploymentNames : list string.
Variable sleep : Z.

Lemma iteration_dry (c : Cluster) (sr sd : State) :
  sameButDeletes sr sd ->
  let r := iteration real ctx c namespace memoryLimit killAfter serviceNames
             deploymentNames sleep killSleep sr in
  let d := iteration dry ctx c namespace memoryLimit killAfter serviceNames
             deploymentNames sleep killSleep sd in
  refused r.1 r.2 \/
  (r.1 = d.1 /\
   exists new,
     events r.2 = events sr ++ new /\
     events d.2 = withoutDeletes (events r.2) /\
     clock r.2 = clock d.2 + deleteTime c new /\
     podsToKill r.2 ⊆ podsToKill d.2 /\
     (deleteTime c new = 0 -> podsToKill r.2 = podsToKill d.2)).
Proof.
  intros H. unfold iteration.
  assert (Hclock : clock sd = clock sr) by apply H. rewrite Hclock.
  assert (Hstop : forall (st : status) (now : Z),
             (st, setClock now sr).1 = (st, setClock now sd).1 /\
             exists new,
               events (st, setClock now sr).2 = events sr ++ new /\
               events (st, setClock now sd).2 =
                 withoutDeletes (events (st, setClock now sr).2) /\
               clock (st, setClock now sr).2 =
                 clock (st, setClock now sd).2 + deleteTime c new /\
               podsToKill (st, setClock now sr).2 ⊆
                 podsToKill (st, setClock now sd).2 /\
               (deleteTime c new = 0 ->
                podsToKill (st, setClock now sr).2 =
                podsToKill (st, setClock now sd).2)).
  { intros st now. destruct H as (Hm & Hc & Hev). split; [done |].
    exists []. simpl. rewrite app_nil_r, Hm.
    split; [done |]. split; [done |]. split; [lia |]. done. }
  destruct (getPods _ _ _ _) as [pods | err |]; [| right; apply Hstop ..].
  assert (Hsame : sameButDeletes
            (elapse (Took c PtFound)
               (setClock (returnsAt ctx (clock sr) (Took c PtResolve)) sr))
            (elapse (Took c PtFound)
               (setClock (returnsAt ctx (clock sr) (Took c PtResolve)) sd))).
  { destruct H as (Hm & Hc & Hev). by split. }
  pose proof (podsLoop_dry c pods _ _ Hsame) as Hloop.
  unfold together in Hloop. simpl in Hloop.
  destruct (podsLoop real _ _ _ _ _ _ _ _) as [[str sr1] kr].
  destruct (podsLoop dry _ _ _ _ _ _ _ _) as [[std sd1] kd].
  unfold together in Hloop. simpl in Hloop.
  destruct Hloop as [Href | (<- & <- & new & Hev & Hlag & _)].
  { left. destruct Href as [[e ->] Hcount]. simpl. split; [by exists e | done]. }
  right. simpl in Hev, Hlag. destruct Hlag as (Hm & Hc & Hevd).
  pose proof (deleteTime_nonneg c new) as Hpos.
  destruct str; simpl.
  - split; [done |]. exists (new ++ [Sleep sleep]).
    rewrite deleteTime_app. simpl. rewrite Z.add_0_r.
    split; [by rewrite Hev, <- app_assoc |].
    split; [by rewrite withoutDeletes_app, Hevd |].
    split; [lia |]. rewrite Hm. split.
    + apply sweep_later. intros name. unfold sweepReads. lia.
    + intros Hzero. rewrite Hc, Hzero, Z.add_0_r. done.
  - split; [done |]. exists new. rewrite Hm.
    split; [done |]. split; [done |]. split; [lia |]. done.
  - split; [done |]. exists new. rewrite Hm.
    split; [done |]. split; [done |]. split; [lia |]. done.
Qed.

(** In a dry run no event is a pod-delete request. *)
Lemma overBranch_no_delete (c : Cluster) (pod : Pod) (s : State) :
  countb isDelete
    (events (overBranch dry ctx c killAfter killSleep pod s).1.2) =
  countb isDelete (events s).
Proof.
  unfold overBranch. simpl. destruct (_ >=? _); simpl; [| done].
  rewrite !countb_app. cbn. lia.
Qed.

Lemma podBody_no_delete (c : Cluster) (pod : Pod) (s : State) (killed : bool) :
  countb isDelete
    (events (podBody dry ctx c memoryLimit killAfter killSleep pod s
               killed).1.2) =
  countb isDelete (events s).
Proof.
  unfold podBody.
  assert (Hemit : forall s0 : State,
             events s0 =
               events s ++ [CallPodMetrics (Namespace pod) (Name pod)] ->
             countb isDelete (events s0) = countb isDelete (events s)).
  { intros s0 ->. rewrite countb_app. cbn. lia. }
  destruct (Containers pod) as [| container ?]; [done |].
  destruct (negb _ || killed); [done |].
  destruct (PodMetricsesGet _ _ _) as [podMetrics | err].
  - destruct (MetricsContainers podMetrics) as [| cm ?]; [by apply Hemit |].
    destruct (overLimitb _ _ _); [| by apply Hemit].
    rewrite overBranch_no_delete. by apply Hemit.
  - destruct (IsNotFound err); by apply Hemit.
Qed.

Lemma podsLoop_no_delete (c : Cluster) (pods : list Pod) (s : State)
    (killed : bool) :
  countb isDelete
    (events (podsLoop dry ctx c memoryLimit killAfter killSleep pods s
               killed).1.2) =
  countb isDelete (events s).
Proof.
  revert s killed. induction pods as [| pod pods IH]; intros s killed; [done |].
  cbn [podsLoop].
  pose proof (podBody_no_delete c pod s killed) as Hbody.
  destruct (podBody dry ctx c memoryLimit killAfter killSleep pod s killed)
    as [[st s1] k1].
  simpl in Hbody. destruct st; [by rewrite IH | done | done].
Qed.

Lemma iteration_no_delete (c : Cluster) (s : State) :
  countb isDelete
    (events (iteration dry ctx c namespace memoryLimit killAfter
               serviceNames deploymentNames sleep killSleep s).2) =
  countb isDelete (events s).
Proof.
  unfold iteration.
  destruct (getPods _ _ _ _) as [pods | err |]; [| done | done].
  match goal with
  | |- context [podsLoop dry ctx c memoryLimit killAfter killSleep pods ?s0 false] =>
      pose proof (podsLoop_no_delete c pods s0 false) as Hloop;
      destruct (podsLoop dry ctx c memoryLimit killAfter killSleep pods s0 false)
        as [[st s1] k1]
  end.
  simpl in Hloop. destruct st; simpl; [| done | done].
  rewrite countb_app. cbn. lia.
Qed.

Lemma loop_no_delete (cs : list Cluster) (s : State) :
  countb isDelete
    (events (loop dry ctx namespace memoryLimit killAfter serviceNames
               deploymentNames sleep killSleep cs s).2) =
  countb isDelete (events s).
Proof.
  revert s. induction cs as [| c cs IH]; intros s; [done |].
  cbn [loop].
  pose proof (iteration_no_delete c s) as Hit.
  destruct (iteration dry ctx c namespace memoryLimit killAfter serviceNames
              deploymentNames sleep killSleep s) as [st s1].
  simpl in Hit. destruct st; [by rewrite IH | done | done].
Qed.

End DryRun.

(** ** Runs and their prefixes *)

Section Runs.

Variable t : terminator.
Variable ctx : Context.
Variable namespace : string.
Variables memoryLimit killAfter : Z.
Variables serviceNames deploymentNames : list string.
Variables sleep killSleep : Z.

Lemma loop_app (cs1 cs2 : list Cluster) (s : State) :
  loop t ctx namespace memoryLimit killAfter serviceNames deploymentNames
    sleep killSleep (cs1 ++ cs2) s =
  match loop t ctx namespace memoryLimit killAfter serviceNames
          deploymentNames sleep killSleep cs1 s with
  | (Running, s') =>
      loop t ctx namespace memoryLimit killAfter serviceNames
        deploymentNames sleep killSleep cs2 s'
  | stop => stop
  end.
Proof.
  revert s. induction cs1 as [| c cs1 IH]; intros s; [done |].
  simpl. destruct (iteration _ _ _ _ _ _ _ _ _ _ _) as [st s1].
  destruct st; [apply IH | done | done].
Qed.

Lemma podsLoop_events_grow (c : Cluster) (pods : list Pod) (s : State)
    (killed : bool) :
  exists new,
    events (podsLoop t ctx c memoryLimit killAfter killSleep pods s
              killed).1.2 = events s ++ new.
Proof.
  destruct killed.
  - rewrite podsLoop_killed. exists []. by rewrite app_nil_r.
  - destruct (podsLoop _ _ _ _ _ _ _ _ _) as [[st s1] k1] eqn:Hloop.
    apply podsLoop_trace in Hloop as (samples & tail & Hev & _).
    simpl. rewrite Hev. by eexists.
Qed.

Lemma iteration_events_grow (c : Cluster) (s : State) :
  exists new,
    events (iteration t ctx c namespace memoryLimit killAfter serviceNames
              deploymentNames sleep killSleep s).2 = events s ++ new.
Proof.
  unfold iteration.
  destruct (getPods _ _ _ _) as [pods | err |];
    [| exists []; by rewrite app_nil_r | exists []; by rewrite app_nil_r].
  match goal with
  | |- context [podsLoop t ctx c memoryLimit killAfter killSleep pods ?s0 false] =>
      destruct (podsLoop_events_grow c pods s0 false) as [new Hev];
      destruct (podsLoop t ctx c memoryLimit killAfter killSleep pods s0 false)
        as [[st s1] k1]
  end.
  simpl in Hev.
  destruct st; simpl; rewrite Hev; eexists; by rewrite <- ?app_assoc.
Qed.

Lemma loop_events_grow (cs : list Cluster) (s : State) :
  exists new,
    events (loop t ctx namespace memoryLimit killAfter serviceNames
              deploymentNames sleep killSleep cs s).2 = events s ++ new.
Proof.
  revert s. induction cs as [| c cs IH]; intros s.
  - exists []. simpl. by rewrite app_nil_r.
  - cbn [loop]. destruct (iteration_events_grow c s) as [new1 Hev1].
    destruct (iteration _ _ _ _ _ _ _ _ _ _ _) as [st s1]. simpl in Hev1.
    destruct st; [| by exists new1 | by exists new1].
    destruct (IH s1) as [new2 Hev2]. exists (new1 ++ new2).
    by rewrite Hev2, Hev1, <- app_assoc.
Qed.

(** A run with no event of some kind has none on any prefix of its
    input. *)
Lemma loop_prefix_without (f : Event -> bool) (cs : list Cluster) (n : nat)
    (s : State) :
  countb f
    (events (loop t ctx namespace memoryLimit killAfter serviceNames
               deploymentNames sleep killSleep cs s).2) = 0%nat ->
  countb f
    (events (loop t ctx namespace memoryLimit killAfter serviceNames
               deploymentNames sleep killSleep (take n cs) s).2) = 0%nat.
Proof.
  rewrite <- (take_drop n cs) at 1. rewrite loop_app.
  destruct (loop _ _ _ _ _ _ _ _ _ (take n cs) s) as [st s1].
  destruct st; [| done | done].
  destruct (loop_events_grow (drop n cs) s1) as [new ->].
  apply countb_zero_app.
Qed.

End Runs.

(** ** The two runs until the first delete request *)

Section NoDelete.

Variable ctx : Context.
Variables memoryLimit killAfter killSleep : Z.

Let real : terminator := {| dryRun := false |}.
Let dry : terminator := {| dryRun := true |}.

Lemma overBranch_same (c : Cluster) (pod : Pod) (s : State) :
  let r := overBranch real ctx c killAfter killSleep pod s in
  r = overBranch dry ctx c killAfter killSleep pod s \/
  (0 < countb isDelete (events r.1.2))%nat.
Proof.
  unfold overBranch. simpl. destruct (_ >=? _); [| by left].
  right. destruct (PodsDelete _ _ _ _); simpl; rewrite !countb_app; cbn; lia.
Qed.

Lemma podBody_same (c : Cluster) (pod : Pod) (s : State) (killed : bool) :
  let r := podBody real ctx c memoryLimit killAfter killSleep pod s killed in
  r = podBody dry ctx c memoryLimit killAfter killSleep pod s killed \/
  (0 < countb isDelete (events r.1.2))%nat.
Proof.
  unfold podBody.
  destruct (Containers pod) as [| container ?]; [by left |].
  destruct (negb _ || killed); [by left |].
  destruct (PodMetricsesGet _ _ _) as [podMetrics | err]; [| by left].
  destruct (MetricsContainers podMetrics) as [| cm ?]; [by left |].
  destruct (overLimitb _ _ _); [| by left].
  apply overBranch_same.
Qed.

Lemma podsLoop_same (c : Cluster) (pods : list Pod) (s : State)
    (killed : bool) :
  let r := podsLoop real ctx c memoryLimit killAfter killSleep pods s killed in
  r = podsLoop dry ctx c memoryLimit killAfter killSleep pods s killed \/
  (0 < countb isDelete (events r.1.2))%nat.
Proof.
  revert s killed. induction pods as [| pod pods IH]; intros s killed;
    [by left |].
  cbn [podsLoop].
  destruct (podBody_same c pod s killed) as [<- | Hdel].
  - destruct (podBody real _ _ _ _ _ _ _ _) as [[st s1] k1].
    destruct st; [apply IH | by left | by left].
  - right.
    destruct (podBody real _ _ _ _ _ _ _ _) as [[st s1] k1].
    simpl in Hdel. destruct st; [| done | done].
    destruct (podsLoop_events_grow real ctx memoryLimit killAfter killSleep
                c pods s1 k1) as [new ->].
    rewrite countb_app. lia.
Qed.

Variable namespace : string.
Variables serviceNames deploymentNames : list string.
Variable sleep : Z.

Lemma iteration_same (c : Cluster) (s : State) :
  let r := iteration real ctx c namespace memoryLimit killAfter serviceNames
             deploymentNames sleep killSleep s in
  r = iteration dry ctx c namespace memoryLimit killAfter serviceNames
        deploymentNames sleep killSleep s \/
  (0 < countb isDelete (events r.2))%nat.
Proof.
  unfold iteration.
  destruct (getPods _ _ _ _) as [pods | err |]; [| by left | by left].
  match goal with
  | |- context [podsLoop real ctx c memoryLimit killAfter killSleep pods ?s0 false] =>
      destruct (podsLoop_same c pods s0 false) as [<- | Hdel];
      destruct (podsLoop real ctx c memoryLimit killAfter killSleep pods s0 false)
        as [[st s1] k1]
  end.
  - by left.
  - right. simpl in Hdel. destruct st; simpl; [| done | done].
    rewrite countb_app. lia.
Qed.

Lemma loop_same (cs : list Cluster) (s : State) :
  let r := loop real ctx namespace memoryLimit killAfter serviceNames
             deploymentNames sleep killSleep cs s in
  r = loop dry ctx namespace memoryLimit killAfter serviceNames
        deploymentNames sleep killSleep cs s \/
  (0 < countb isDelete (events r.2))%nat.
Proof.
  revert s. induction cs as [| c cs IH]; intros s; [by left |].
  cbn [loop].
  destruct (iteration_same c s) as [<- | Hdel].
  - destruct (iteration real _ _ _ _ _ _ _ _ _ _) as [st s1].
    destruct st; [apply IH | by left | by left].
  - right.
    destruct (iteration real _ _ _ _ _ _ _ _ _ _) as [st s1].
    simpl in Hdel. destruct st; [| done | done].
    destruct (loop_events_grow real ctx namespace memoryLimit killAfter
                serviceNames deploymentNames sleep killSleep cs s1)
      as [new ->].
    rewrite countb_app. lia.
Qed.

End NoDelete.

(** C7, as the code has it. A dry run never sends a pod-delete request.
    Until the run with termination sends its first delete request, the
    two runs are in the same state: on every prefix of the input, when
    that run has sent none, the dry run returns the same status and the
    same state. And from the same records at the same clock value, a scan
    and an iteration go the same way in both runs unless the delete
    request is refused: same status, same [killed], same records after the
    scan, same events but for the delete requests; only the clock of the
    run with termination is ahead, by the time its delete requests took,
    and so the records it keeps after the sweep are among those the dry run
    keeps, and the same when no request was sent. *)
Theorem dry_run_same_decisions_no_delete (ctx : Context) (namespace : string)
    (memoryLimit killAfter : Z) (serviceNames deploymentNames : list string)
    (sleep killSleep start : Z) (cs : list Cluster) :
  let run dryRun input :=
    Terminate {| dryRun := dryRun |} ctx namespace memoryLimit killAfter
      serviceNames deploymentNames sleep killSleep start input in
  countb isDelete (events (run true cs).2) = 0%nat /\
  (countb isDelete (events (run false cs).2) = 0%nat ->
   forall n, run true (take n cs) = run false (take n cs)) /\
  (forall c pods sr sd,
      sameButDeletes sr sd ->
      let r := podsLoop {| dryRun := false |} ctx c memoryLimit killAfter
                 killSleep pods sr false in
      let d := podsLoop {| dryRun := true |} ctx c memoryLimit killAfter
                 killSleep pods sd false in
      refused r.1.1 r.1.2 \/
      (r.1.1 = d.1.1 /\ r.2 = d.2 /\
       exists new,
         events r.1.2 = events sr ++ new /\
         sameButLag (deleteTime c new) r.1.2 d.1.2)) /\
  (forall c sr sd,
      sameButDeletes sr sd ->
      let r := iteration {| dryRun := false |} ctx c namespace memoryLimit
                 killAfter serviceNames deploymentNames sleep killSleep sr in
      let d := iteration {| dryRun := true |} ctx c namespace memoryLimit
                 killAfter serviceNames deploymentNames sleep killSleep sd in
      refused r.1 r.2 \/
      (r.1 = d.1 /\
       exists new,
         events r.2 = events sr ++ new /\
         events d.2 = withoutDeletes (events r.2) /\
         clock r.2 = clock d.2 + deleteTime c new /\
         podsToKill r.2 ⊆ podsToKill d.2 /\
         (deleteTime c new = 0 -> podsToKill r.2 = podsToKill d.2))).
Proof.
  intros run. unfold run, Terminate. split; [| split; [| split]].
  - by rewrite loop_no_delete.
  - intros Hok n.
    apply (loop_prefix_without _ _ _ _ _ _ _ _ _ _ _ n) in Hok.
    destruct (loop_same ctx memoryLimit killAfter killSleep namespace
                serviceNames deploymentNames sleep (take n cs)
                {| podsToKill := ∅; clock := start; events := [] |})
      as [Heq | Hdel]; [done | lia].
  - intros c pods sr sd H.
    destruct (podsLoop_dry ctx memoryLimit killAfter killSleep c pods sr sd H)
      as [Href | (Hst & Hk & new & Hev & Hlag & _)]; [by left |].
    right. split; [done |]. split; [done |]. by exists new.
  - intros c sr sd H.
    apply (iteration_dry ctx memoryLimit killAfter killSleep namespace
             serviceNames deploymentNames sleep c sr sd H).
Qed.

(** Two iterations that track "api-1" without reaching the bar of five:
    the run with termination sends no request and the dry run is in the
    same state. And one iteration that kills "api-1" at once: the delete
    request takes 15 ms, by which the run with termination ends ahead of
    the dry run, with the same records. *)
Lemma dry_run_same_decisions_no_delete_witness :
  let run killAfter dryRun input :=
    Terminate {| dryRun := dryRun |} Demo.background "default" 95 killAfter
      ["api"] [] Demo.second Demo.second 0 input in
  let once dryRun :=
    iteration {| dryRun := dryRun |} Demo.background Demo.timed "default" 95 0
      ["api"] [] Demo.second Demo.second
      {| podsToKill := ∅; clock := 0; events := [] |} in
  run 5 true (take 2 [Demo.timed; Demo.timed]) =
  run 5 false (take 2 [Demo.timed; Demo.timed]) /\
  (once false).1 = (once true).1 /\
  clock (once false).2 = clock (once true).2 + 15000000 /\
  podsToKill (once false).2 = podsToKill (once true).2.
Proof.
  intros run once. split.
  - apply (proj1 (proj2 (dry_run_same_decisions_no_delete Demo.background
                           "default" 95 5 ["api"] [] Demo.second Demo.second 0
                           [Demo.timed; Demo.timed]))).
    vm_compute. reflexivity.
  - destruct (proj2 (proj2 (proj2
                (dry_run_same_decisions_no_delete Demo.background "default"
                   95 0 ["api"] [] Demo.second Demo.second 0 [])))
                Demo.timed {| podsToKill := ∅; clock := 0; events := [] |}
                {| podsToKill := ∅; clock := 0; events := [] |}
                ltac:(split; [reflexivity | split; reflexivity]))
      as [[[err Herr] _] | (Hst & new & Hev & _ & Hclock & _ & _)].
    + vm_compute in Herr. discriminate.
    + vm_compute in Hev. subst new. split; [exact Hst |].
      split; [exact Hclock |]. vm_compute. reflexivity.
Defined.

(** C7 fails as stated: when the delete request is refused, the run with
    termination returns the error with the record still in the map and no
    sleep, while the dry run drops the record, sleeps and goes on. *)
Lemma refused_delete_parts_the_runs :
  Terminate Demo.real Demo.background "default" 95 0 ["api"] []
    Demo.second Demo.second 0 [Demo.timedForbidding] =
  (Returned (ErrOther "forbidden"),
   {| podsToKill := {[ "api-1" := {| at_ := 25020000; count := 0 |} ]};
      clock := 40040000;
      events := [CallPodMetrics "default" "api-1"; LogDeleting "api-1";
                 CallDelete "default" "api-1"
                   {| GracePeriodSeconds := None |}
                   (Some (ErrOther "forbidden"))] |}) /\
  Terminate Demo.dry Demo.background "default" 95 0 ["api"] []
    Demo.second Demo.second 0 [Demo.timedForbidding] =
  (Running,
   {| podsToKill := ∅;
      clock := 2025042000;
      events := [CallPodMetrics "default" "api-1"; LogDeleting "api-1";
                 Sleep Demo.second; Sleep Demo.second] |}).
Proof. split; vm_compute; reflexivity. Qed.

(** The runs part with every request granted, too. With kill-after 2, a
    poll of 1 s and a kill-sleep of 2.06 s, "api-1" and "job-1" are over
    the limit in every iteration. The third iteration kills "api-1"; its
    sweep finds the record of "job-1" (count 1, window 4.12 s) 4.115 s old
    in the dry run, and 15 ms older, past its window, in the run that
    waited for the delete request. The fourth iteration of the dry run
    decides to kill "job-1"; that of the run with termination starts both
    pods afresh. *)
Example delete_round_trip_parts_the_runs :
  let run dryRun n :=
    (Terminate {| dryRun := dryRun |} Demo.background "default" 95 2
       ["api"; "jobs"] [] Demo.second 2060000000 0 (repeat Demo.timed n)).2 in
  podsToKill (run true 3%nat) =
    {[ "job-1" := {| at_ := 30040000; count := 1 |} ]} /\
  podsToKill (run false 3%nat) = ∅ /\
  clock (run false 3%nat) = clock (run true 3%nat) + 15000000 /\
  countb isFailedDelete (events (run false 4%nat)) = 0%nat /\
  List.filter isDecision (events (run true 4%nat)) =
    [LogDeleting "api-1"; LogDeleting "job-1"] /\
  List.filter isDecision (events (run false 4%nat)) = [LogDeleting "api-1"].
Proof. repeat split; vm_compute; reflexivity. Qed.

(** ** Cancellation *)



(** The runs of [Terminate] that reach these two states: cancelled at 22
    ms, and at 30 ms. *)
Example cancelled_during_the_metrics_request :
  Terminate Demo.real {| cancelAt := Some 22000000 |} "default" 95 0
    ["api"] [] Demo.second Demo.second 0 [Demo.timed] =
  (Returned ErrCanceled,
   {| podsToKill := ∅; clock := 22000000;
      events := [CallPodMetrics "default" "api-1"] |}).
Proof. vm_compute. reflexivity. Qed.

Example cancelled_during_the_delete_request :
  Terminate Demo.real {| cancelAt := Some 30000000 |} "default" 95 0
    ["api"] [] Demo.second Demo.second 0 [Demo.timed] =
  (Returned ErrCanceled,
   {| podsToKill := {[ "api-1" := {| at_ := 25020000; count := 0 |} ]};
      clock := 30000000;
      events := [CallPodMetrics "default" "api-1"; LogDeleting "api-1";
                 CallDelete "default" "api-1"
                   {| GracePeriodSeconds := None |} (Some ErrCanceled)] |}).
Proof. vm_compute. reflexivity. Qed.


(** ** One pod over the limit in every iteration *)

Lemma sweep_singleton (readAt : string -> Z) (killSleep : Z) (name : string)
    (over : overLimit) :
  sweep readAt killSleep {[ name := over ]} =
  if expired (readAt name) killSleep over then ∅ else {[ name := over ]}.
Proof.
  apply map_eq. intros k. rewrite sweep_lookup.
  destruct (decide (k = name)) as [-> | Hne].
  - rewrite lookup_singleton_eq.
    destruct (expired _ killSleep over); [done | by rewrite lookup_singleton_eq].
  - rewrite lookup_singleton_ne by done.
    destruct (expired _ killSleep over); [done | by rewrite lookup_singleton_ne].
Qed.

Lemma sweep_empty (readAt : string -> Z) (killSleep : Z) :
  sweep readAt killSleep ∅ = ∅.
Proof. apply map_eq. intros k. by rewrite sweep_lookup, lookup_empty. Qed.

(** The test of the sweep on a record whose age fits a duration. *)
Lemma expired_age (now opened killSleep n : Z) :
  Go.int64 (now - opened) ->
  expired now killSleep {| at_ := opened; count := n |} =
  (now - opened >? Go.mul killSleep (Go.add n 1)).
Proof. intros Hage. unfold expired. simpl. by rewrite Since_exact. Qed.

Section SinglePod.

Variable t : terminator.
Variable ctx : Context.
Variable c : Cluster.
Variable namespace : string.
Variables memoryLimit killAfter : Z.
Variables serviceNames deploymentNames : list string.
Variables sleep killSleep : Z.
Variable pod : Pod.
Variables (container : Container) (containers : list Container).
Variables (podMetrics : PodMetrics) (cm : ContainerMetrics)
          (cms : list ContainerMetrics).

Hypothesis never_cancelled : cancelAt ctx = None.
Hypothesis resolved :
  getPods c namespace serviceNames deploymentNames = Return [pod].
Hypothesis running : Phase pod = "Running".
Hypothesis has_container : Containers pod = container :: containers.
Hypothesis has_metrics :
  PodMetricsesGet c (Namespace pod) (Name pod) = Ok podMetrics.
Hypothesis has_usage : MetricsContainers podMetrics = cm :: cms.
Hypothesis over_limit :
  overLimitb (Memory (UsageMemory cm)) (Memory (LimitsMemory container))
    memoryLimit = true.

Lemma client_never (now : Z) : client ctx now c = c.
Proof. unfold client, cancelled. by rewrite never_cancelled. Qed.

Lemma returnsAt_never (start : Z) (took : N) :
  returnsAt ctx start took = start + Z.of_N took.
Proof. unfold returnsAt. by rewrite never_cancelled. Qed.

(** The iteration comes down to the over-limit branch on that pod. *)
Lemma iteration_single (s : State) :
  iteration t ctx c namespace memoryLimit killAfter serviceNames
    deploymentNames sleep killSleep s =
  match overBranch t ctx c killAfter killSleep pod (sampled c pod s) with
  | (Running, s1, _) =>
      (Running,
       time_Sleep sleep
         (elapse (Took c PtSweep)
            (setPods (sweep (sweepReads c (clock s1)) killSleep
                        (podsToKill s1)) s1)))
  | (stop, s1, _) => (stop, s1)
  end.
Proof.
  unfold iteration. rewrite client_never, returnsAt_never, resolved.
  cbn [podsLoop]. unfold podBody.
  rewrite has_container, running, client_never, returnsAt_never,
    has_metrics, has_usage, over_limit.
  change (negb ("Running" =? "Running")%string || false) with false.
  cbv iota.
  match goal with
  | |- context [overBranch t ctx c killAfter killSleep pod ?s0] =>
      replace s0 with (sampled c pod s)
        by (unfold sampled, leadTime, elapse, setClock, emit; simpl;
            f_equal; lia)
  end.
  by destruct (overBranch _ _ _ _ _ _ _) as [[[] ?] ?].
Qed.

(** First observation: a record is opened with count 0. *)
Lemma iteration_opens (now : Z) (evs : list Event) :
  0 < killAfter ->
  iteration t ctx c namespace memoryLimit killAfter serviceNames
    deploymentNames sleep killSleep
    {| podsToKill := ∅; clock := now; events := evs |} =
  (Running,
   {| podsToKill :=
        (let over := {| at_ := now + leadTime c pod; count := 0 |} in
         if expired (now + leadTime c pod + readAge c pod) killSleep over
         then ∅ else {[ Name pod := over ]});
      clock := now + cycleTime c pod sleep;
      events := (evs ++ [CallPodMetrics (Namespace pod) (Name pod)]) ++
                [Sleep sleep] |}).
Proof.
  intros HK. rewrite iteration_single.
  unfold overBranch, observe, countOf, sampled.
  cbn [podsToKill clock events elapse setClock setPods emit].
  rewrite lookup_empty, lookup_insert_eq. cbn [count].
  destruct (Z.geb_spec 0 killAfter); [lia |].
  unfold time_Sleep, elapse, setClock, setPods. simpl.
  rewrite insert_empty, sweep_singleton. unfold sweepReads, readAge, cycleTime.
  by rewrite !Z.add_assoc.
Qed.

(** Later observation below the bar: the count goes up by one. *)
Lemma iteration_counts (opened n now : Z) (evs : list Event) :
  Go.add n 1 < killAfter ->
  iteration t ctx c namespace memoryLimit killAfter serviceNames
    deploymentNames sleep killSleep
    {| podsToKill := {[ Name pod := {| at_ := opened; count := n |} ]};
       clock := now; events := evs |} =
  (Running,
   {| podsToKill :=
        (let over := {| at_ := opened; count := Go.add n 1 |} in
         if expired (now + leadTime c pod + readAge c pod) killSleep over
         then ∅ else {[ Name pod := over ]});
      clock := now + cycleTime c pod sleep;
      events := (evs ++ [CallPodMetrics (Namespace pod) (Name pod)]) ++
                [Sleep sleep] |}).
Proof.
  intros HK. rewrite iteration_single.
  unfold overBranch, observe, countOf, sampled.
  cbn [podsToKill clock events elapse setClock setPods emit].
  rewrite lookup_singleton_eq, lookup_insert_eq. cbn [count at_].
  destruct (Z.geb_spec (Go.add n 1) killAfter); [lia |].
  unfold time_Sleep, elapse, setClock, setPods. simpl.
  rewrite insert_singleton_eq, sweep_singleton.
  unfold sweepReads, readAge, cycleTime.
  by rewrite !Z.add_assoc.
Qed.

(** Later observation that reaches the bar: the pod is killed. *)
Lemma iteration_kills (opened n now : Z) (evs : list Event) :
  killAfter <= Go.add n 1 ->
  dryRun t = false ->
  PodsDelete c (Namespace pod) (Name pod)
    {| GracePeriodSeconds := DeletionGracePeriodSeconds pod |} = None ->
  iteration t ctx c namespace memoryLimit killAfter serviceNames
    deploymentNames sleep killSleep
    {| podsToKill := {[ Name pod := {| at_ := opened; count := n |} ]};
       clock := now; events := evs |} =
  (Running,
   {| podsToKill := ∅;
      clock := now + leadTime c pod + killTime c pod sleep killSleep;
      events :=
        ((((evs ++ [CallPodMetrics (Namespace pod) (Name pod)]) ++
           [LogDeleting (Name pod)]) ++
          [CallDelete (Namespace pod) (Name pod)
             {| GracePeriodSeconds := DeletionGracePeriodSeconds pod |}
             None]) ++ [Sleep killSleep]) ++ [Sleep sleep] |}).
Proof.
  intros HK Hdry Hdel. rewrite iteration_single.
  unfold overBranch, observe, countOf, sampled.
  cbn [podsToKill clock events elapse setClock setPods emit].
  rewrite lookup_singleton_eq, lookup_insert_eq. cbn [count at_].
  destruct (Z.geb_spec (Go.add n 1) killAfter); [| lia].
  rewrite Hdry, client_never, returnsAt_never, Hdel.
  unfold time_Sleep, elapse, setClock, setPods. simpl.
  rewrite insert_singleton_eq, delete_singleton_eq, sweep_empty.
  unfold killTime. by rewrite !Z.add_assoc.
Qed.

(** First observation with a bar of 0 or less: the pod is killed at
    once. *)
Lemma iteration_opens_kills (now : Z) (evs : list Event) :
  killAfter <= 0 ->
  dryRun t = false ->
  PodsDelete c (Namespace pod) (Name pod)
    {| GracePeriodSeconds := DeletionGracePeriodSeconds pod |} = None ->
  iteration t ctx c namespace memoryLimit killAfter serviceNames
    deploymentNames sleep killSleep
    {| podsToKill := ∅; clock := now; events := evs |} =
  (Running,
   {| podsToKill := ∅;
      clock := now + leadTime c pod + killTime c pod sleep killSleep;
      events :=
        ((((evs ++ [CallPodMetrics (Namespace pod) (Name pod)]) ++
           [LogDeleting (Name pod)]) ++
          [CallDelete (Namespace pod) (Name pod)
             {| GracePeriodSeconds := DeletionGracePeriodSeconds pod |}
             None]) ++ [Sleep killSleep]) ++ [Sleep sleep] |}).
Proof.
  intros HK Hdry Hdel. rewrite iteration_single.
  unfold overBranch, observe, countOf, sampled.
  cbn [podsToKill clock events elapse setClock setPods emit].
  rewrite lookup_empty, lookup_insert_eq. cbn [count at_].
  destruct (Z.geb_spec 0 killAfter); [| lia].
  rewrite Hdry, client_never, returnsAt_never, Hdel.
  unfold time_Sleep, elapse, setClock, setPods. simpl.
  rewrite delete_insert_eq, delete_empty, sweep_empty.
  unfold killTime. by rewrite !Z.add_assoc.
Qed.

(** *** The streak that every sweep finds within its window *)

Hypothesis bar_positive : 0 <= killAfter.
Hypothesis within_window :
  forall j, 1 <= j <= killAfter ->
            (j - 1) * cycleTime c pod sleep + readAge c pod <= j * killSleep.
Hypothesis windows_fit : killSleep * (killAfter + 1) <= Go.maxInt64.

Lemma cycleTime_nonneg : 0 <= cycleTime c pod sleep.
Proof. unfold cycleTime, leadTime. lia. Qed.

Lemma readAge_nonneg : 0 <= readAge c pod.
Proof. unfold readAge. lia. Qed.

Lemma kept_in_streak (start now j : Z) :
  now = start + (j - 1) * cycleTime c pod sleep ->
  1 <= j <= killAfter -> j < Go.maxInt64 ->
  expired (now + leadTime c pod + readAge c pod) killSleep
    {| at_ := start + leadTime c pod; count := j - 1 |} = false.
Proof.
  intros -> Hj Hmax.
  pose proof (within_window j Hj) as Hwin.
  pose proof cycleTime_nonneg as Hcycle.
  pose proof readAge_nonneg as Hread.
  assert (Hage : start + (j - 1) * cycleTime c pod sleep + leadTime c pod +
                   readAge c pod - (start + leadTime c pod) =
                 (j - 1) * cycleTime c pod sleep + readAge c pod) by lia.
  assert (Hks : 0 <= killSleep) by nia.
  rewrite expired_age; rewrite Hage.
  - unfold Go.add, Go.mul. replace (j - 1 + 1) with j by lia.
    rewrite (wrap64_id j)
      by (unfold Go.int64, Go.minInt64, Go.maxInt64 in *; lia).
    rewrite wrap64_id
      by (unfold Go.int64, Go.minInt64, Go.maxInt64 in *; nia).
    destruct (Z.gtb_spec ((j - 1) * cycleTime c pod sleep + readAge c pod)
                (killSleep * j)); [nia | done].
  - unfold Go.int64, Go.minInt64, Go.maxInt64 in *. nia.
Qed.

Lemma streak_opens (start : Z) (evs : list Event) :
  0 < killAfter -> killAfter < Go.maxInt64 ->
  iteration t ctx c namespace memoryLimit killAfter serviceNames
    deploymentNames sleep killSleep
    {| podsToKill := ∅; clock := start; events := evs |} =
  (Running,
   streak c pod sleep start 1
     ((evs ++ [CallPodMetrics (Namespace pod) (Name pod)]) ++ [Sleep sleep])).
Proof.
  intros HK Hmax. rewrite iteration_opens by done. unfold streak.
  cbv zeta.
  pose proof (kept_in_streak start start 1) as Hkept.
  change (1 - 1) with 0 in Hkept. rewrite Hkept by lia.
  do 2 f_equal. lia.
Qed.

Lemma streak_goes_on (start : Z) (j : nat) (evs : list Event) :
  (1 <= j)%nat -> Z.of_nat j < killAfter -> killAfter < Go.maxInt64 ->
  iteration t ctx c namespace memoryLimit killAfter serviceNames
    deploymentNames sleep killSleep (streak c pod sleep start j evs) =
  (Running,
   streak c pod sleep start (S j)
     ((evs ++ [CallPodMetrics (Namespace pod) (Name pod)]) ++ [Sleep sleep])).
Proof.
  intros Hj HK Hmax. unfold streak.
  assert (Hadd : Go.add (Z.of_nat j - 1) 1 = Z.of_nat j).
  { unfold Go.add. rewrite wrap64_id; [lia |].
    unfold Go.int64, Go.minInt64, Go.maxInt64 in *. lia. }
  rewrite iteration_counts by (rewrite Hadd; lia).
  cbv zeta. rewrite Hadd.
  pose proof (kept_in_streak start
                (start + Z.of_nat j * cycleTime c pod sleep)
                (Z.of_nat j + 1)) as Hkept.
  replace (Z.of_nat j + 1 - 1) with (Z.of_nat j) in Hkept by lia.
  rewrite Hkept by lia.
  do 2 f_equal; [do 3 f_equal |]; lia.
Qed.

Lemma streak_ends (start : Z) (j : nat) (evs : list Event) :
  (1 <= j)%nat -> Z.of_nat j = killAfter -> killAfter < Go.maxInt64 ->
  dryRun t = false ->
  PodsDelete c (Namespace pod) (Name pod)
    {| GracePeriodSeconds := DeletionGracePeriodSeconds pod |} = None ->
  exists now,
    iteration t ctx c namespace memoryLimit killAfter serviceNames
      deploymentNames sleep killSleep (streak c pod sleep start j evs) =
    (Running,
     {| podsToKill := ∅;
        clock := now;
        events :=
          ((((evs ++ [CallPodMetrics (Namespace pod) (Name pod)]) ++
             [LogDeleting (Name pod)]) ++
            [CallDelete (Namespace pod) (Name pod)
               {| GracePeriodSeconds := DeletionGracePeriodSeconds pod |}
               None]) ++ [Sleep killSleep]) ++ [Sleep sleep] |}).
Proof.
  intros Hj HK Hmax Hdry Hdel. unfold streak.
  assert (Hadd : Go.add (Z.of_nat j - 1) 1 = Z.of_nat j).
  { unfold Go.add. rewrite wrap64_id; [lia |].
    unfold Go.int64, Go.minInt64, Go.maxInt64 in *. lia. }
  eexists. by rewrite iteration_kills by (done || rewrite Hadd; lia).
Qed.

(** [n] more observations below the bar. *)
Lemma streak_loop (start : Z) (n j : nat) (evs : list Event) :
  (1 <= j)%nat -> Z.of_nat (j + n) <= killAfter ->
  killAfter < Go.maxInt64 ->
  exists evs',
    loop t ctx namespace memoryLimit killAfter serviceNames deploymentNames
      sleep killSleep (repeat c n) (streak c pod sleep start j evs) =
      (Running, streak c pod sleep start (j + n) evs') /\
    countb isDecision evs' = countb isDecision evs /\
    countb isDelete evs' = countb isDelete evs.
Proof.
  revert j evs. induction n as [| n IH]; intros j evs Hj HK Hmax.
  - exists evs. by rewrite Nat.add_0_r.
  - cbn [repeat loop]. rewrite streak_goes_on by lia.
    destruct (IH (S j) ((evs ++ [CallPodMetrics (Namespace pod) (Name pod)])
                          ++ [Sleep sleep])) as (evs' & Hloop & Hdec & Hdel);
      [lia | lia | done |].
    exists evs'. rewrite Hloop.
    replace (S j + n)%nat with (j + S n)%nat by lia.
    split; [done |]. rewrite Hdec, Hdel, !countb_app. cbn. lia.
Qed.

(** X19. One candidate pod is over the limit in every iteration, and
    iteration after iteration takes the same time. If each of the first
    [killAfter] sweeps finds the record within its window (the sweep of
    iteration j reads an age of j - 1 cycles plus the time from
    [time.Now] to its reading, against a window of j kill-sleeps), no
    kill is decided in the first [killAfter] iterations, and iteration
    [killAfter + 1] decides and requests it. *)
Lemma kill_on_observation_after_bar (k : nat) (start : Z) :
  killAfter = Z.of_nat k -> killAfter < Go.maxInt64 ->
  dryRun t = false ->
  PodsDelete c (Namespace pod) (Name pod)
    {| GracePeriodSeconds := DeletionGracePeriodSeconds pod |} = None ->
  let run n :=
    Terminate t ctx namespace memoryLimit killAfter serviceNames
      deploymentNames sleep killSleep start (repeat c n) in
  (forall n, (n <= k)%nat ->
             (run n).1 = Running /\
             countb isDecision (events (run n).2) = 0%nat /\
             countb isDelete (events (run n).2) = 0%nat) /\
  exists evs,
    (run (S k)).1 = Running /\
    podsToKill (run (S k)).2 = ∅ /\
    events (run (S k)).2 =
      evs ++ [LogDeleting (Name pod);
              CallDelete (Namespace pod) (Name pod)
                {| GracePeriodSeconds := DeletionGracePeriodSeconds pod |}
                None;
              Sleep killSleep; Sleep sleep] /\
    countb isDecision evs = 0%nat /\ countb isDelete evs = 0%nat.
Proof.
  intros HK Hmax Hdry Hdel run. unfold run, Terminate. split.
  - intros [| n] Hn; [done |].
    cbn [repeat loop]. rewrite streak_opens by lia.
    destruct (streak_loop start n 1
                (([] ++ [CallPodMetrics (Namespace pod) (Name pod)]) ++
                 [Sleep sleep])) as (evs' & -> & Hdec & Hdel');
      [lia | lia | done |].
    simpl. by rewrite Hdec, Hdel'.
  - destruct k as [| k].
    + cbn [repeat loop]. rewrite iteration_opens_kills by (done || lia).
      exists [CallPodMetrics (Namespace pod) (Name pod)]. by cbn.
    + replace (repeat c (S (S k))) with (c :: (repeat c k ++ [c]))
        by (by rewrite <- repeat_cons).
      cbn [loop]. rewrite streak_opens by lia.
      rewrite loop_app.
      destruct (streak_loop start k 1
                  (([] ++ [CallPodMetrics (Namespace pod) (Name pod)]) ++
                   [Sleep sleep])) as (evs' & -> & Hdec & Hdel');
        [lia | lia | done |].
      cbn [loop].
      destruct (streak_ends start (1 + k) evs') as [now ->];
        [lia | lia | done | done | done |].
      exists (evs' ++ [CallPodMetrics (Namespace pod) (Name pod)]).
      cbn [fst snd podsToKill events].
      split; [done |]. split; [done |]. split.
      * by rewrite <- !app_assoc.
      * rewrite !countb_app, Hdec, Hdel'. by cbn.
Qed.

End SinglePod.

(** ** The region where the sweep cuts every streak *)

Section CutEveryStreak.

Variable t : terminator.
Variable ctx : Context.
Variable c : Cluster.
Variable namespace : string.
Variables memoryLimit killAfter : Z.
Variables serviceNames deploymentNames : list string.
Variables sleep killSleep : Z.
Variable pod : Pod.
Variables (container : Container) (containers : list Container).
Variables (podMetrics : PodMetrics) (cm : ContainerMetrics)
          (cms : list ContainerMetrics).

Hypothesis never_cancelled : cancelAt ctx = None.
Hypothesis resolved :
  getPods c namespace serviceNames deploymentNames = Return [pod].
Hypothesis running : Phase pod = "Running".
Hypothesis has_container : Containers pod = container :: containers.
Hypothesis has_metrics :
  PodMetricsesGet c (Namespace pod) (Name pod) = Ok podMetrics.
Hypothesis has_usage : MetricsContainers podMetrics = cm :: cms.
Hypothesis over_limit :
  overLimitb (Memory (UsageMemory cm)) (Memory (LimitsMemory container))
    memoryLimit = true.

Hypothesis bar_of_two : 2 <= killAfter.
Hypothesis kill_sleep_positive : 0 <= killSleep.
Hypothesis poll_beyond_window : 2 * killSleep < sleep.
Hypothesis poll_fits : sleep <= Go.maxInt64.

Let step (s : State) : status * State :=
  iteration t ctx c namespace memoryLimit killAfter serviceNames
    deploymentNames sleep killSleep s.

(** A record of count 1 that is a poll interval old is past its
    window. *)
Lemma expired_after_a_poll (opened now : Z) :
  opened + sleep <= now ->
  expired now killSleep {| at_ := opened; count := Go.add 0 1 |} = true.
Proof.
  intros Hold. unfold expired, Go.Since, Go.Sub, Go.mul. simpl.
  change (Go.add 0 1) with 1. change (Go.add 1 1) with 2.
  rewrite wrap64_id
    by (unfold Go.int64, Go.minInt64, Go.maxInt64 in *; lia).
  unfold Go.minInt64, Go.maxInt64 in *.
  destruct (Z.ltb_spec (now - opened) (- 2 ^ 63)); [lia |].
  destruct (Z.ltb_spec (2 ^ 63 - 1) (now - opened));
    apply Z.gtb_lt; lia.
Qed.

Lemma cut_step (s : State) :
  cutShort (Name pod) sleep s ->
  exists s',
    step s = (Running, s') /\ cutShort (Name pod) sleep s' /\
    countb isSample (events s') = S (countb isSample (events s)).
Proof.
  destruct s as [m now evs]. unfold cutShort, step. simpl.
  intros (Hdec & Hdel & [-> | (opened & -> & Hold)]).
  - rewrite (iteration_opens t ctx c namespace memoryLimit killAfter
               serviceNames deploymentNames sleep killSleep pod container
               containers podMetrics cm cms never_cancelled resolved running
               has_container has_metrics has_usage over_limit now evs)
      by lia.
    eexists. split; [reflexivity |]. cbn [podsToKill clock events].
    rewrite !countb_app, Hdec, Hdel.
    cbn [countb List.filter isDecision isDelete isSample length].
    split; [split; [lia | split; [lia |]] | lia].
    cbv zeta. destruct (expired _ _ _); [by left |].
    right. eexists. split; [reflexivity |].
    unfold cycleTime, leadTime. lia.
  - rewrite (iteration_counts t ctx c namespace memoryLimit killAfter
               serviceNames deploymentNames sleep killSleep pod container
               containers podMetrics cm cms never_cancelled resolved running
               has_container has_metrics has_usage over_limit opened
               0 now evs)
      by (change (Go.add 0 1) with 1; lia).
    eexists. split; [reflexivity |]. cbn [podsToKill clock events].
    rewrite !countb_app, Hdec, Hdel.
    cbn [countb List.filter isDecision isDelete isSample length].
    split; [split; [lia | split; [lia |]] | lia].
    left. cbv zeta. rewrite expired_after_a_poll; [done |].
    unfold leadTime, readAge. lia.
Qed.

Lemma cut_loop (n : nat) (s : State) :
  cutShort (Name pod) sleep s ->
  exists s',
    loop t ctx namespace memoryLimit killAfter serviceNames deploymentNames
      sleep killSleep (repeat c n) s = (Running, s') /\
    cutShort (Name pod) sleep s' /\
    countb isSample (events s') = (n + countb isSample (events s))%nat.
Proof.
  revert s. induction n as [| n IH]; intros s Hinv.
  - by exists s.
  - destruct (cut_step s Hinv) as (s1 & Hrun & Hinv1 & Hcount1).
    destruct (IH s1 Hinv1) as (s' & Hloop & Hinv' & Hcount').
    exists s'. cbn [repeat loop]. unfold step in Hrun. rewrite Hrun.
    split; [done |]. split; [done | lia].
Qed.

(** X15. With a kill-after of 2 or more, a kill-sleep that is not
    negative and a poll interval longer than twice the kill-sleep, a pod
    found over the limit in every iteration is never killed, however
    long the requests and the log lines take: the sweep that ends the
    iteration of its second observation finds the record at least one
    poll interval old, against a window of two kill-sleeps, and removes
    it, so its count never passes 1. *)
Theorem poll_beyond_two_kill_sleeps_never_kills (n : nat) (start : Z) :
  let r := Terminate t ctx namespace memoryLimit killAfter serviceNames
             deploymentNames sleep killSleep start (repeat c n) in
  r.1 = Running /\
  countb isSample (events r.2) = n /\
  countb isDecision (events r.2) = 0%nat /\
  countb isDelete (events r.2) = 0%nat.
Proof.
  unfold Terminate.
  destruct (cut_loop n {| podsToKill := ∅; clock := start; events := [] |})
    as (s' & -> & (Hdec & Hdel & _) & Hcount).
  { split; [done |]. split; [done |]. by left. }
  cbn [fst snd]. split; [done |]. split; [| done].
  rewrite Hcount. cbn. lia.
Qed.

End CutEveryStreak.

Lemma poll_beyond_two_kill_sleeps_never_kills_witness :
  let r := Terminate Demo.real Demo.background "default" 95 3 ["api"] []
             (5 * Demo.second) (2 * Demo.second) 0 (repeat Demo.timed 6) in
  r.1 = Running /\
  countb isSample (events r.2) = 6%nat /\
  countb isDecision (events r.2) = 0%nat /\
  countb isDelete (events r.2) = 0%nat.
Proof.
  apply (poll_beyond_two_kill_sleeps_never_kills Demo.real Demo.background
           Demo.timed "default" 95 3 ["api"] [] (5 * Demo.second)
           (2 * Demo.second) Demo.api1 {| LimitsMemory := Some 1000 |} []
           (Demo.metricsOf 990) {| UsageMemory := Some 990 |} []
           eq_refl eq_refl eq_refl eq_refl eq_refl eq_refl eq_refl);
    vm_compute; (reflexivity || discriminate).
Defined.

(** ** A streak cut short by the sweep *)

(** C1 on the code: with kill-after 2, a poll interval of 3 s and a
    kill-sleep of 1 s, the pod "api-1" is sampled over the limit in each
    of [n] consecutive iterations, whatever [n] and however long the
    requests and the log lines take, and no kill is ever decided or
    requested: the sweep that ends every second iteration removes the
    record (age 3 s or more against a window of 2 s) although the pod was
    just observed, and the count starts again at 0. *)
Theorem streak_cut_by_sweep_never_kills (took : Point -> N) (n : nat) :
  let r := Terminate Demo.real Demo.background "default" 95 2 ["api"] []
             (3 * Demo.second) Demo.second 0 (repeat (Demo.paced took) n) in
  r.1 = Running /\
  countb isSample (events r.2) = n /\
  countb isDecision (events r.2) = 0%nat /\
  countb isDelete (events r.2) = 0%nat.
Proof.
  unfold Terminate.
  destruct (cut_loop Demo.real Demo.background (Demo.paced took) "default" 95
              2 ["api"] [] (3 * Demo.second) Demo.second Demo.api1
              {| LimitsMemory := Some 1000 |} [] (Demo.metricsOf 990)
              {| UsageMemory := Some 990 |} [] eq_refl eq_refl eq_refl eq_refl
              eq_refl eq_refl eq_refl ltac:(lia)
              ltac:(unfold Demo.second; lia) ltac:(unfold Demo.second; lia)
              ltac:(unfold Demo.second, Go.maxInt64; lia) n
              {| podsToKill := ∅; clock := 0; events := [] |})
    as (s' & -> & (Hdec & Hdel & _) & Hcount).
  { split; [done |]. split; [done |]. by left. }
  cbn [fst snd]. split; [done |]. split; [| done].
  rewrite Hcount. cbn. lia.
Qed.

(** The same run with requests and log lines that take no time, and with
    the durations of a small cluster. *)
Example streak_cut_whatever_the_durations (n : nat) :
  let run c :=
    Terminate Demo.real Demo.background "default" 95 2 ["api"] []
      (3 * Demo.second) Demo.second 0 (repeat c n) in
  countb isDecision (events (run Demo.cluster).2) = 0%nat /\
  countb isDecision (events (run Demo.timed).2) = 0%nat.
Proof.
  pose proof (cut_loop Demo.real Demo.background) as Hcut.
  split.
  - destruct (Hcut Demo.cluster "default" 95 2 ["api"] []
                (3 * Demo.second) Demo.second Demo.api1
                {| LimitsMemory := Some 1000 |} [] (Demo.metricsOf 990)
                {| UsageMemory := Some 990 |} [] eq_refl eq_refl eq_refl
                eq_refl eq_refl eq_refl eq_refl ltac:(lia)
                ltac:(unfold Demo.second; lia) ltac:(unfold Demo.second; lia)
                ltac:(unfold Demo.second, Go.maxInt64; lia) n
                {| podsToKill := ∅; clock := 0; events := [] |})
      as (s' & Hrun & (Hdec & _) & _).
    { split; [done |]. split; [done |]. by left. }
    unfold Terminate. by rewrite Hrun.
  - destruct (Hcut Demo.timed "default" 95 2 ["api"] []
                (3 * Demo.second) Demo.second Demo.api1
                {| LimitsMemory := Some 1000 |} [] (Demo.metricsOf 990)
                {| UsageMemory := Some 990 |} [] eq_refl eq_refl eq_refl
                eq_refl eq_refl eq_refl eq_refl ltac:(lia)
                ltac:(unfold Demo.second; lia) ltac:(unfold Demo.second; lia)
                ltac:(unfold Demo.second, Go.maxInt64; lia) n
                {| podsToKill := ∅; clock := 0; events := [] |})
      as (s' & Hrun & (Hdec & _) & _).
    { split; [done |]. split; [done |]. by left. }
    unfold Terminate. by rewrite Hrun.
Qed.

(** ** float64 of an integer, and the division by a zero limit *)

Section Binary64.

Let prec := Float64.prec.
Let emax := Float64.emax.

Lemma digits2_pos_bounds (p : positive) :
  2 ^ (Zpos (digits2_pos p) - 1) <= Zpos p < 2 ^ Zpos (digits2_pos p).
Proof.
  induction p as [p IH | p IH |]; cbn [digits2_pos].
  - rewrite Pos2Z.inj_succ. change (Z.pos p~1) with (2 * Z.pos p + 1).
    replace (Z.succ (Zpos (digits2_pos p)) - 1)
      with (Z.succ (Zpos (digits2_pos p) - 1)) by lia.
    rewrite !Z.pow_succ_r by lia. lia.
  - rewrite Pos2Z.inj_succ. change (Z.pos p~0) with (2 * Z.pos p).
    replace (Z.succ (Zpos (digits2_pos p)) - 1)
      with (Z.succ (Zpos (digits2_pos p) - 1)) by lia.
    rewrite !Z.pow_succ_r by lia. lia.
  - simpl. lia.
Qed.

Lemma shr_1_m (mrs : shr_record) :
  0 <= shr_m mrs -> shr_m (shr_1 mrs) = shr_m mrs / 2.
Proof.
  destruct mrs as [m r s]. cbn [shr_m]. intros Hm.
  destruct m as [| [p | p |] | p]; cbn [shr_1 shr_m].
  - reflexivity.
  - change (Z.pos p~1) with (2 * Z.pos p + 1).
    apply (Z.div_unique _ _ _ 1); lia.
  - change (Z.pos p~0) with (2 * Z.pos p).
    apply (Z.div_unique _ _ _ 0); lia.
  - reflexivity.
  - lia.
Qed.

Lemma iter_shr_1_m (n : positive) (mrs : shr_record) :
  0 <= shr_m mrs ->
  shr_m (SpecFloat.iter_pos shr_1 n mrs) = shr_m mrs / 2 ^ Zpos n.
Proof.
  revert mrs. induction n as [n IH | n IH |]; intros mrs Hm; cbn [SpecFloat.iter_pos].
  - assert (H1 : 0 <= shr_m (shr_1 mrs)).
    { rewrite shr_1_m by done. apply Z.div_pos; lia. }
    assert (H2 : 0 <= shr_m (SpecFloat.iter_pos shr_1 n (shr_1 mrs))).
    { rewrite IH by done. apply Z.div_pos; [done | lia]. }
    rewrite IH, IH, shr_1_m by done.
    rewrite !Z.div_div by lia. f_equal.
    replace (Z.pos n~1) with (Z.pos n + Z.pos n + 1) by lia.
    rewrite !Z.pow_add_r by lia. lia.
  - assert (H2 : 0 <= shr_m (SpecFloat.iter_pos shr_1 n mrs)).
    { rewrite IH by done. apply Z.div_pos; [done | lia]. }
    rewrite IH, IH by done.
    rewrite !Z.div_div by lia. f_equal.
    replace (Z.pos n~0) with (Z.pos n + Z.pos n) by lia.
    rewrite !Z.pow_add_r by lia. lia.
  - rewrite shr_1_m by done. done.
Qed.

Lemma shr_record_of_loc_m (m : Z) (l : location) :
  shr_m (shr_record_of_loc m l) = m.
Proof. by destruct l as [| []]. Qed.

(** Above the least exponent the shift keeps a positive mantissa
    positive. *)
Lemma shr_fexp_positive (p : positive) (e : Z) (l : location) :
  emin prec emax <= e ->
  0 < shr_m (shr_fexp prec emax (Zpos p) e l).1 /\
  emin prec emax <= (shr_fexp prec emax (Zpos p) e l).2.
Proof.
  intros He. unfold shr_fexp, shr, fexp. cbn [Zdigits2].
  pose proof (digits2_pos_bounds p) as [Hlow _].
  set (d := Zpos (digits2_pos p)) in *.
  destruct (Z.max (d + e - prec) (emin prec emax) - e) as [| n | n] eqn:Hn;
    cbn [fst snd]; rewrite ?shr_record_of_loc_m; try (split; lia).
  split; [| lia].
  rewrite iter_shr_1_m by (rewrite shr_record_of_loc_m; lia).
  rewrite shr_record_of_loc_m.
  assert (Hle : Zpos n <= d - 1).
  { subst prec. unfold Float64.prec in *. lia. }
  apply Z.div_str_pos. split; [lia |].
  etransitivity; [| exact Hlow]. apply Z.pow_le_mono_r; lia.
Qed.

Lemma round_nearest_even_positive (m : Z) (l : location) :
  0 < m -> 0 < round_nearest_even m l.
Proof.
  intros Hm. destruct l as [| []]; simpl; try lia.
  destruct (Z.even m); lia.
Qed.

Lemma binary_round_aux_signed (sx : bool) (p : positive) (e : Z)
    (l : location) :
  emin prec emax <= e ->
  binary_round_aux prec emax sx (Zpos p) e l = S754_infinity sx \/
  exists m e', binary_round_aux prec emax sx (Zpos p) e l = S754_finite sx m e'.
Proof.
  intros He. unfold binary_round_aux.
  pose proof (shr_fexp_positive p e l He) as [Hm1 He1].
  destruct (shr_fexp prec emax (Zpos p) e l) as [mrs1 e1]. cbn [fst snd] in *.
  pose proof (round_nearest_even_positive (shr_m mrs1)
                (loc_of_shr_record mrs1) Hm1) as Hr.
  destruct (round_nearest_even (shr_m mrs1) (loc_of_shr_record mrs1))
    as [| q | q]; [lia | | lia].
  pose proof (shr_fexp_positive q e1 loc_Exact He1) as [Hm2 _].
  destruct (shr_fexp prec emax (Zpos q) e1 loc_Exact) as [mrs2 e2].
  cbn [fst snd] in *.
  destruct (shr_m mrs2) as [| m | m]; [lia | | lia].
  destruct (e2 <=? emax - prec); [right; by eexists _, _ | by left].
Qed.

Lemma binary_round_signed (sx : bool) (p : positive) :
  binary_round prec emax sx p 0 = S754_infinity sx \/
  exists m e, binary_round prec emax sx p 0 = S754_finite sx m e.
Proof.
  unfold binary_round, shl_align.
  assert (Hfexp : emin prec emax <= fexp prec emax (Zpos (digits2_pos p) + 0)).
  { unfold fexp. lia. }
  assert (H0 : emin prec emax <= 0) by (by vm_compute).
  destruct (fexp prec emax (Zpos (digits2_pos p) + 0) - 0);
    by apply binary_round_aux_signed.
Qed.

End Binary64.

(** [float64(n)] has the sign of [n] and is never a NaN. *)
Lemma ofInt_cases (n : Z) :
  match n with
  | Z0 => Float64.ofInt n = S754_zero false
  | Zpos _ =>
      Float64.ofInt n = S754_infinity false \/
      exists m e, Float64.ofInt n = S754_finite false m e
  | Zneg _ =>
      Float64.ofInt n = S754_infinity true \/
      exists m e, Float64.ofInt n = S754_finite true m e
  end.
Proof.
  destruct n as [| p | p]; [done | |]; apply binary_round_signed.
Qed.

Lemma percentage_zero_limit (using_ : Z) :
  0 < using_ -> percentage using_ 0 = S754_infinity false.
Proof.
  intros Hpos. unfold percentage, Float64.mul, Float64.div.
  pose proof (ofInt_cases using_) as Hu.
  destruct using_ as [| p | p]; [lia | | lia].
  change (Float64.ofInt 0) with (S754_zero false).
  change (Float64.ofInt 100) with (S754_finite false 7036874417766400 (-46)).
  by destruct Hu as [-> | (m & e & ->)].
Qed.

Lemma infinity_over_any_limit (memoryLimit : Z) :
  Float64.geb (S754_infinity false) (Float64.ofInt memoryLimit) = true.
Proof.
  pose proof (ofInt_cases memoryLimit) as Hl. unfold Float64.geb.
  destruct memoryLimit as [| p | p].
  - by rewrite Hl.
  - by destruct Hl as [-> | (m & e & ->)].
  - by destruct Hl as [-> | (m & e & ->)].
Qed.

(** ** A pod without a memory limit *)

Lemma PodMetricsesGet_answered (ctx : Context) (now : Z) (c : Cluster)
    (namespace name : string) (podMetrics : PodMetrics) :
  PodMetricsesGet (client ctx now c) namespace name = Ok podMetrics ->
  cancelled ctx now = false.
Proof. unfold client. by destruct (cancelled ctx now). Qed.

(** C9, as the code has it. For a running pod whose first container
    declares no memory limit the divisor of the percentage is zero and the
    pod is not skipped. With a positive usage the percentage is plus
    infinity, which is over any threshold, and the pod is treated like any
    pod over the limit: its record is opened with count 0 and the time
    [time.Now] reads, or its count goes up by one; below kill-after
    nothing else happens; from kill-after on the kill is decided, the
    delete request is sent in the namespace of the pod unless the run is
    dry, and once it is granted the post-kill sleep is taken and the
    record removed, while a refused request ends the run with the record
    in place. With a usage of zero the percentage is a NaN, the comparison
    is false and nothing is recorded. *)
Theorem zero_limit_is_over_any_threshold (t : terminator) (ctx : Context)
    (c : Cluster) (memoryLimit killAfter killSleep : Z) (pod : Pod)
    (container : Container) (containers : list Container)
    (podMetrics : PodMetrics) (cm : ContainerMetrics)
    (cms : list ContainerMetrics) (s : State) :
  Phase pod = "Running" ->
  Containers pod = container :: containers ->
  Memory (LimitsMemory container) = 0 ->
  PodMetricsesGet
    (client ctx
       (clock s + Z.of_N (Took c (PtMetrics (Namespace pod) (Name pod)))) c)
    (Namespace pod) (Name pod) = Ok podMetrics ->
  MetricsContainers podMetrics = cm :: cms ->
  let using_ := Memory (UsageMemory cm) in
  let r := podBody t ctx c memoryLimit killAfter killSleep pod s false in
  let t0 := clock s + Z.of_N (Took c (PtMetrics (Namespace pod) (Name pod))) +
            Z.of_N (Took c (PtUsage (Name pod))) in
  let t1 := t0 + Z.of_N (Took c (PtOver (Name pod))) in
  let t2 := t1 + Z.of_N (Took c (PtDeleting (Name pod))) in
  let took := Took c (PtDelete (Namespace pod) (Name pod)) in
  let seen := events s ++ [CallPodMetrics (Namespace pod) (Name pod)] in
  let m := observe (Name pod) t0 (podsToKill s) in
  let opts := {| GracePeriodSeconds := DeletionGracePeriodSeconds pod |} in
  (0 < using_ ->
   percentage using_ 0 = S754_infinity false /\
   overLimitb using_ 0 memoryLimit = true /\
   m !! Name pod =
     Some match podsToKill s !! Name pod with
          | Some over =>
              {| at_ := at_ over; count := Go.add (count over) 1 |}
          | None => {| at_ := t0; count := 0 |}
          end /\
   (countOf (Name pod) m < killAfter ->
    r = (Running, {| podsToKill := m; clock := t1; events := seen |},
         false)) /\
   (killAfter <= countOf (Name pod) m -> dryRun t = true ->
    r = (Running,
         {| podsToKill := delete (Name pod) m;
            clock := t2 + Z.max killSleep 0;
            events := seen ++ [LogDeleting (Name pod); Sleep killSleep] |},
         true)) /\
   (killAfter <= countOf (Name pod) m -> dryRun t = false ->
    r = match PodsDelete (client ctx (t2 + Z.of_N took) c) (Namespace pod)
                (Name pod) opts with
        | None =>
            (Running,
             {| podsToKill := delete (Name pod) m;
                clock := t2 + Z.of_N took + Z.max killSleep 0;
                events :=
                  seen ++ [LogDeleting (Name pod);
                           CallDelete (Namespace pod) (Name pod) opts None;
                           Sleep killSleep] |},
             true)
        | Some e =>
            (Returned e,
             {| podsToKill := m;
                clock := returnsAt ctx t2 took;
                events :=
                  seen ++ [LogDeleting (Name pod);
                           CallDelete (Namespace pod) (Name pod) opts
                             (Some e)] |},
             false)
        end)) /\
  (using_ = 0 ->
   percentage using_ 0 = S754_nan /\
   overLimitb using_ 0 memoryLimit = false /\
   r = (Running,
        {| podsToKill := podsToKill s; clock := t0; events := seen |},
        false)).
Proof.
  intros Hphase Hcont Hlimit Hget Hm using_ r t0 t1 t2 took seen m opts.
  pose proof (PodMetricsesGet_answered _ _ _ _ _ _ Hget) as Hlive.
  set (s2 := {| podsToKill := podsToKill s; clock := t0; events := seen |}).
  assert (Hbody : r = if overLimitb using_ 0 memoryLimit
                      then overBranch t ctx c killAfter killSleep pod s2
                      else (Running, s2, false)).
  { unfold r, podBody.
    rewrite Hcont, Hphase, Hget, Hm, Hlimit, returnsAt_live by exact Hlive.
    reflexivity. }
  assert (Hover : r = overBranch t ctx c killAfter killSleep pod s2 ->
            (countOf (Name pod) m < killAfter ->
             r = (Running, {| podsToKill := m; clock := t1; events := seen |},
                  false)) /\
            (killAfter <= countOf (Name pod) m -> dryRun t = true ->
             r = (Running,
                  {| podsToKill := delete (Name pod) m;
                     clock := t2 + Z.max killSleep 0;
                     events := seen ++ [LogDeleting (Name pod);
                                        Sleep killSleep] |},
                  true)) /\
            (killAfter <= countOf (Name pod) m -> dryRun t = false ->
             r = match PodsDelete (client ctx (t2 + Z.of_N took) c)
                         (Namespace pod) (Name pod) opts with
                 | None =>
                     (Running,
                      {| podsToKill := delete (Name pod) m;
                         clock := t2 + Z.of_N took + Z.max killSleep 0;
                         events :=
                           seen ++ [LogDeleting (Name pod);
                                    CallDelete (Namespace pod) (Name pod) opts
                                      None;
                                    Sleep killSleep] |},
                      true)
                 | Some e =>
                     (Returned e,
                      {| podsToKill := m;
                         clock := returnsAt ctx t2 took;
                         events :=
                           seen ++ [LogDeleting (Name pod);
                                    CallDelete (Namespace pod) (Name pod) opts
                                      (Some e)] |},
                      false)
                 end)).
  { intros ->. unfold overBranch.
    cbn [podsToKill clock events elapse setClock setPods emit s2].
    fold m t1 t2 took opts.
    destruct (Z.geb_spec (countOf (Name pod) m) killAfter) as [Hge | Hlt].
    - split; [lia |]. split.
      + intros _ ->. unfold time_Sleep, setClock, emit, elapse, setPods.
        simpl. by rewrite <- app_assoc.
      + intros _ ->.
        destruct (PodsDelete _ _ _ _) as [e |] eqn:Hdel.
        * unfold setClock, emit, elapse, setPods. simpl.
          by rewrite <- app_assoc.
        * apply PodsDelete_granted in Hdel. rewrite returnsAt_live by done.
          unfold time_Sleep, setClock, emit, elapse, setPods. simpl.
          by rewrite <- !app_assoc.
    - split; [done |]. split; intros; lia. }
  split.
  - intros Hpos.
    assert (Hinf : overLimitb using_ 0 memoryLimit = true).
    { unfold overLimitb. rewrite percentage_zero_limit by done.
      apply infinity_over_any_limit. }
    split; [by apply percentage_zero_limit |]. split; [done |].
    split; [apply observe_same |].
    apply Hover. by rewrite Hbody, Hinf.
  - intros Hzero. rewrite Hbody, Hzero. by repeat split.
Qed.

(** The pod "free-1" has no limit and uses 990 bytes: its percentage is
    plus infinity, and with kill-after 1 its first sample opens a record
    stamped 5.01 ms after the request started. *)
Lemma zero_limit_is_over_any_threshold_witness :
  percentage 990 0 = S754_infinity false /\
  overLimitb 990 0 95 = true /\
  podBody Demo.real Demo.background Demo.timed 95 1 Demo.second Demo.free1
    {| podsToKill := ∅; clock := 0; events := [] |} false =
  (Running,
   {| podsToKill := {[ "free-1" := {| at_ := 5010000; count := 0 |} ]};
      clock := 5020000;
      events := [CallPodMetrics "default" "free-1"] |}, false).
Proof.
  destruct (proj1 (zero_limit_is_over_any_threshold Demo.real Demo.background
                     Demo.timed 95 1 Demo.second Demo.free1
                     {| LimitsMemory := None |} [] (Demo.metricsOf 990)
                     {| UsageMemory := Some 990 |} []
                     {| podsToKill := ∅; clock := 0; events := [] |}
                     eq_refl eq_refl eq_refl eq_refl eq_refl)
              ltac:(reflexivity))
    as (Hinf & Hover & _ & Hbelow & _).
  split; [exact Hinf |]. split; [exact Hover |].
  etrans; [apply Hbelow; vm_compute; reflexivity |].
  vm_compute. reflexivity.
Defined.

(** C9 fails as stated: the pod is tracked, but not "eventually killed".
    With kill-after 2, a poll of 3 s and a kill-sleep of 1 s, six
    iterations sample "free-1" at plus infinity, and none decides or
    requests a kill. *)
Lemma limitless_pod_is_not_killed :
  let r := Terminate Demo.real Demo.background "default" 95 2 ["free"] []
             (3 * Demo.second) Demo.second 0 (repeat Demo.timed 6) in
  getPods Demo.timed "default" ["free"] [] = Return [Demo.free1] /\
  overLimitb 990 (Memory (LimitsMemory {| LimitsMemory := None |})) 95 = true /\
  r.1 = Running /\
  countb isSample (events r.2) = 6%nat /\
  countb isDecision (events r.2) = 0%nat /\
  countb isDelete (events r.2) = 0%nat.
Proof. repeat split; vm_compute; reflexivity. Qed.

(** And so on, for any number of iterations and whatever the requests and
    the log lines take. *)
Example limitless_pod_is_never_killed (took : Point -> N) (n : nat) :
  let r := Terminate Demo.real Demo.background "default" 95 2 ["free"] []
             (3 * Demo.second) Demo.second 0 (repeat (Demo.paced took) n) in
  r.1 = Running /\
  countb isSample (events r.2) = n /\
  countb isDecision (events r.2) = 0%nat /\
  countb isDelete (events r.2) = 0%nat.
Proof.
  unfold Terminate.
  destruct (cut_loop Demo.real Demo.background (Demo.paced took) "default" 95
              2 ["free"] [] (3 * Demo.second) Demo.second Demo.free1
              {| LimitsMemory := None |} [] (Demo.metricsOf 990)
              {| UsageMemory := Some 990 |} [] eq_refl eq_refl eq_refl eq_refl
              eq_refl eq_refl eq_refl ltac:(lia)
              ltac:(unfold Demo.second; lia) ltac:(unfold Demo.second; lia)
              ltac:(unfold Demo.second, Go.maxInt64; lia) n
              {| podsToKill := ∅; clock := 0; events := [] |})
    as (s' & -> & (Hdec & Hdel & _) & Hcount).
  { split; [done |]. split; [done |]. by left. }
  cbn [fst snd]. split; [done |]. split; [| done].
  rewrite Hcount. cbn. lia.
Qed.

(** With the default flags (limit 95, poll and kill-sleep of one second,
    kill-after 1) and the durations of a small cluster, the pod "api-1",
    over the limit in every iteration, is left alone by the first
    iteration and killed by the second: the sweep of the first iteration
    reads an age of 11 us against a window of 1 s. *)
Example default_flags_kill_on_second_observation :
  let run n :=
    Terminate Demo.real Demo.background "default" 95 1 ["api"] []
      Demo.second Demo.second 0 (repeat Demo.timed n) in
  countb isDecision (events (run 1%nat).2) = 0%nat /\
  exists evs,
    events (run 2%nat).2 =
      evs ++ [LogDeleting "api-1";
              CallDelete "default" "api-1" {| GracePeriodSeconds := None |} None;
              Sleep Demo.second; Sleep Demo.second] /\
    countb isDecision evs = 0%nat.
Proof.
  pose proof (kill_on_observation_after_bar Demo.real Demo.background
                Demo.timed "default" 95 1 ["api"] [] Demo.second Demo.second
                Demo.api1 {| LimitsMemory := Some 1000 |} []
                (Demo.metricsOf 990) {| UsageMemory := Some 990 |} []
                eq_refl eq_refl eq_refl eq_refl eq_refl eq_refl eq_refl)
    as Hkill.
  assert (Hwin : forall j, 1 <= j <= 1 ->
            (j - 1) * cycleTime Demo.timed Demo.api1 Demo.second +
            readAge Demo.timed Demo.api1 <= j * Demo.second).
  { intros j Hj. replace j with 1 by lia. vm_compute. discriminate. }
  destruct (Hkill ltac:(lia) Hwin
              ltac:(unfold Demo.second, Go.maxInt64; lia) 1%nat 0 eq_refl
              ltac:(unfold Go.maxInt64; lia) eq_refl eq_refl)
    as [Hbelow (evs & _ & _ & Hev & Hdec & _)].
  split.
  - apply (Hbelow 1%nat). lia.
  - exists evs. split; [exact Hev | exact Hdec].
Defined.

(** * Further properties *)

(** ** The resolved list *)

Lemma getPods_services_items (c : Cluster) (namespace : string)
    (names : list string) (acc pods : list Pod) :
  getPods_services c namespace names acc = Return pods ->
  pods = acc ++ flat_map (serviceItems c namespace) names.
Proof.
  revert acc. induction names as [| name names IH]; intros acc H; simpl in *.
  - injection H as <-. by rewrite app_nil_r.
  - unfold serviceItems at 1.
    destruct (ServicesGet c namespace name) as [service | err].
    + destruct (PodsList c namespace _) as [items | err]; [| done].
      apply IH in H. by rewrite H, app_assoc.
    + destruct (IsNotFound err); [| done]. by apply IH in H.
Qed.

Lemma getPods_deployments_items (c : Cluster) (namespace : string)
    (names : list string) (acc pods : list Pod) :
  getPods_deployments c namespace names acc = Return pods ->
  pods = acc ++ flat_map (deploymentItems c namespace) names.
Proof.
  revert acc. induction names as [| name names IH]; intros acc H; simpl in *.
  - injection H as <-. by rewrite app_nil_r.
  - unfold deploymentItems at 1.
    destruct (DeploymentsGet c namespace name) as [deployment | err].
    + destruct (SelectorMatchLabels deployment) as [set |]; [| done].
      destruct (PodsList c namespace _) as [items | err]; [| done].
      destruct (Replicas deployment) as [replicas |]; [| done].
      destruct (_ >=? _); apply IH in H; [by rewrite H, app_assoc |].
      by rewrite H.
    + destruct (IsNotFound err); [| done]. by apply IH in H.
Qed.

(** X1. When resolution by filters succeeds, the candidate list is the pods
    of the services, in the order of the service names, followed by the
    pods of the deployments that pass the running test, in the order of the
    deployment names; nothing is dropped, reordered or deduplicated. *)
Theorem resolved_pods_follow_the_filters (c : Cluster) (namespace : string)
    (serviceNames deploymentNames : list string) (pods : list Pod) :
  getPods_filters c namespace serviceNames deploymentNames = Return pods ->
  pods = flat_map (serviceItems c namespace) serviceNames ++
         flat_map (deploymentItems c namespace) deploymentNames.
Proof.
  unfold getPods_filters. intros H.
  destruct (getPods_services c namespace serviceNames []) as [found | |] eqn:Hs;
    [| done | done].
  apply getPods_services_items in Hs. apply getPods_deployments_items in H.
  by rewrite H, Hs.
Qed.

Lemma resolved_pods_follow_the_filters_witness :
  [Demo.api1; Demo.job1; Demo.job1] =
  flat_map (serviceItems Demo.cluster "default") ["api"; "ghost"; "jobs"] ++
  flat_map (deploymentItems Demo.cluster "default") ["web"; "job"].
Proof.
  apply (resolved_pods_follow_the_filters Demo.cluster "default"
           ["api"; "ghost"; "jobs"] ["web"; "job"]).
  reflexivity.
Defined.

(** X2. Only the lookup of a service or deployment may come back "not
    found": an error of the pod listing that follows a successful lookup,
    or of the listing without filters, aborts resolution with that error,
    "not found" included. *)
Theorem pod_listing_error_aborts (c : Cluster) (namespace : string)
    (err : error) :
  (PodsList c namespace {| LabelSelector := ∅; Limit := 10 |} = Err err ->
   getPods c namespace [] [] = Fail err) /\
  (forall pre name post deploymentNames service pods,
      ServicesGet c namespace name = Ok service ->
      PodsList c namespace
        {| LabelSelector := Selector service; Limit := 0 |} = Err err ->
      getPods_services c namespace pre [] = Return pods ->
      getPods c namespace (pre ++ name :: post) deploymentNames = Fail err) /\
  (forall serviceNames pre name post deployment set pods0 pods,
      DeploymentsGet c namespace name = Ok deployment ->
      SelectorMatchLabels deployment = Some set ->
      PodsList c namespace {| LabelSelector := set; Limit := 0 |} = Err err ->
      getPods_services c namespace serviceNames [] = Return pods0 ->
      getPods_deployments c namespace pre pods0 = Return pods ->
      getPods c namespace serviceNames (pre ++ name :: post) = Fail err).
Proof.
  split; [| split].
  - intros H. unfold getPods. by rewrite H.
  - intros pre name post deps service pods Hget Hlist Hpre.
    rewrite getPods_with_service. unfold getPods_filters.
    rewrite getPods_services_app, Hpre. simpl. by rewrite Hget, Hlist.
  - intros svcs pre name post deployment set pods0 pods Hget Hsel Hlist Hs Hpre.
    rewrite getPods_with_deployment. unfold getPods_filters.
    rewrite Hs, getPods_deployments_app, Hpre. simpl.
    by rewrite Hget, Hsel, Hlist.
Qed.

Lemma pod_listing_error_aborts_witness :
  getPods DemoMore.unlisted "default" [] [] = Fail ErrNotFound /\
  getPods DemoMore.unlisted "default" (["ghost"] ++ "api" :: []) ["job"] =
    Fail ErrNotFound /\
  getPods DemoMore.unlisted "default" ["ghost"] (["nobody"] ++ "job" :: []) =
    Fail ErrNotFound.
Proof.
  pose proof (pod_listing_error_aborts DemoMore.unlisted "default" ErrNotFound)
    as (Hall & Hsvc & Hdep).
  split; [| split].
  - apply Hall. reflexivity.
  - apply (Hsvc ["ghost"] "api" [] ["job"] {| Selector := Demo.app "api" |} []);
      reflexivity.
  - apply (Hdep ["ghost"] ["nobody"] "job" []
             {| SelectorMatchLabels := Some (Demo.app "job"); Replicas := Some 1 |}
             (Demo.app "job") [] []); reflexivity.
Defined.

(** X3. The selector of a fetched deployment is dereferenced with no check
    that it is there: a deployment without selector makes resolution panic
    before any pod is listed for it, as soon as the filters before it went
    through. *)
Theorem missing_selector_panics (c : Cluster) (namespace name : string)
    (serviceNames pre post : list string) (pods0 pods : list Pod)
    (deployment : Deployment) :
  DeploymentsGet c namespace name = Ok deployment ->
  SelectorMatchLabels deployment = None ->
  getPods_services c namespace serviceNames [] = Return pods0 ->
  getPods_deployments c namespace pre pods0 = Return pods ->
  getPods c namespace serviceNames (pre ++ name :: post) = Panic.
Proof.
  intros Hget Hsel Hs Hpre.
  rewrite getPods_with_deployment. unfold getPods_filters.
  rewrite Hs, getPods_deployments_app, Hpre. simpl. by rewrite Hget, Hsel.
Qed.

Lemma missing_selector_panics_witness :
  getPods DemoMore.unlisted "default" ["ghost"] (["nobody"] ++ "loose" :: ["job"])
  = Panic.
Proof.
  apply (missing_selector_panics DemoMore.unlisted "default" "loose" ["ghost"]
           ["nobody"] ["job"] [] []
           {| SelectorMatchLabels := None; Replicas := Some 1 |}); reflexivity.
Defined.

(** ** The scan, pod by pod *)

Lemma countb_single (f : Event -> bool) (e : Event) :
  countb f [e] = if f e then 1%nat else 0%nat.
Proof. unfold countb. simpl. by destruct (f e). Qed.

Section ScanMore.

Variable t : terminator.
Variable ctx : Context.
Variable c : Cluster.
Variables memoryLimit killAfter killSleep : Z.

Lemma podsLoop_app (pre post : list Pod) (s : State) (killed : bool) :
  podsLoop t ctx c memoryLimit killAfter killSleep (pre ++ post) s killed =
  match podsLoop t ctx c memoryLimit killAfter killSleep pre s killed with
  | (Running, s', killed') =>
      podsLoop t ctx c memoryLimit killAfter killSleep post s' killed'
  | stop => stop
  end.
Proof.
  revert s killed. induction pre as [| pod pre IH]; intros s killed; [done |].
  cbn [app podsLoop].
  destruct (podBody t ctx c memoryLimit killAfter killSleep pod s killed)
    as [[[] s1] k1]; [apply IH | done | done].
Qed.

Lemma podBody_ineligible (pod : Pod) (s : State) (killed : bool) :
  Containers pod = [] \/ Phase pod <> "Running" ->
  podBody t ctx c memoryLimit killAfter killSleep pod s killed =
  (Running, s, killed).
Proof.
  intros H. unfold podBody. destruct (Containers pod) as [| container ?];
    [done |].
  destruct H as [H | H]; [done |].
  destruct (String.eqb_spec (Phase pod) "Running"); [done | done].
Qed.

Lemma overNow_cancelled (pod : Pod) :
  overNow canceledCluster memoryLimit pod = false.
Proof.
  unfold overNow. destruct (Containers pod); [done |]. simpl.
  apply andb_false_r.
Qed.

Lemma overNow_live (now : Z) (pod : Pod) :
  overNow (client ctx now c) memoryLimit pod = true ->
  cancelled ctx now = false.
Proof.
  unfold client. destruct (cancelled ctx now); [| done].
  by rewrite overNow_cancelled.
Qed.

(** A pod the scan finds over the limit goes through the over-limit
    branch, after its sample and the line that logs its usage. *)
Lemma podBody_over (pod : Pod) (s : State) :
  let took := Took c (PtMetrics (Namespace pod) (Name pod)) in
  overNow (client ctx (clock s + Z.of_N took) c) memoryLimit pod = true ->
  podBody t ctx c memoryLimit killAfter killSleep pod s false =
  overBranch t ctx c killAfter killSleep pod
    (elapse (Took c (PtUsage (Name pod)))
       (setClock (clock s + Z.of_N took)
          (emit (CallPodMetrics (Namespace pod) (Name pod)) s))).
Proof.
  intros took Hover. pose proof (overNow_live _ _ Hover) as Hlive.
  revert Hover. unfold overNow, podBody.
  destruct (Containers pod) as [| container ?]; [done |].
  destruct (String.eqb (Phase pod) "Running"); [| done]. simpl.
  fold took. rewrite returnsAt_live by done.
  destruct (PodMetricsesGet _ _ _) as [podMetrics | err]; [| done].
  destruct (MetricsContainers podMetrics) as [| cm ?]; [done |].
  by intros ->.
Qed.

(** A pod the scan does not find over the limit changes neither the
    records nor [killed], and brings no decision. *)
Lemma podBody_below (pod : Pod) (s : State) (killed : bool) :
  overNow
    (client ctx
       (clock s + Z.of_N (Took c (PtMetrics (Namespace pod) (Name pod)))) c)
    memoryLimit pod = false ->
  let r := podBody t ctx c memoryLimit killAfter killSleep pod s killed in
  podsToKill r.1.2 = podsToKill s /\
  r.2 = killed /\
  countb isDecision (events r.1.2) = countb isDecision (events s) /\
  countb isDelete (events r.1.2) = countb isDelete (events s).
Proof.
  unfold overNow, podBody.
  assert (Hemit : forall e,
             isDecision e = false -> isDelete e = false ->
             countb isDecision (events s ++ [e]) =
               countb isDecision (events s) /\
             countb isDelete (events s ++ [e]) = countb isDelete (events s)).
  { intros e He1 He2. rewrite !countb_app, !countb_single, He1, He2. lia. }
  destruct (Containers pod) as [| container ?]; [done |].
  destruct (String.eqb (Phase pod) "Running"); simpl; [| done].
  destruct killed; simpl; [done |].
  destruct (PodMetricsesGet _ _ _) as [podMetrics | err].
  - destruct (MetricsContainers podMetrics) as [| cm ?]; simpl.
    { intros _. split; [done |]. split; [done |]. by apply Hemit. }
    intros ->. simpl. split; [done |]. split; [done |]. by apply Hemit.
  - intros _. destruct (IsNotFound err); simpl;
      (split; [done |]; split; [done |]; by apply Hemit).
Qed.

Lemma podsLoop_below (pods : list Pod) (s : State) (killed : bool) :
  (forall pod now, In pod pods ->
                   overNow (client ctx now c) memoryLimit pod = false) ->
  let r := podsLoop t ctx c memoryLimit killAfter killSleep pods s killed in
  podsToKill r.1.2 = podsToKill s /\
  countb isDecision (events r.1.2) = countb isDecision (events s) /\
  countb isDelete (events r.1.2) = countb isDelete (events s).
Proof.
  revert s killed. induction pods as [| pod pods IH]; intros s killed H;
    [done |].
  cbn [podsLoop].
  pose proof (podBody_below pod s killed (H pod _ (or_introl eq_refl)))
    as (Hm & Hk & Hdec & Hdel).
  destruct (podBody t ctx c memoryLimit killAfter killSleep pod s killed)
    as [[st s1] k1]. simpl in Hm, Hk, Hdec, Hdel.
  destruct st; simpl; [| done | done].
  destruct (IH s1 k1) as (Hm' & Hdec' & Hdel').
  { intros p now Hp. apply H. by right. }
  split; [congruence |]. split; congruence.
Qed.

End ScanMore.

(** X4. A pod with no container, or in a phase other than "Running", is
    invisible to the scan: wherever it stands in the candidate list, the
    scan ends in the same status, state and events as on the list without
    it (no sample, no record, no kill for it). *)
Theorem ineligible_pod_is_invisible (t : terminator) (ctx : Context)
    (c : Cluster) (memoryLimit killAfter killSleep : Z)
    (pre post : list Pod) (pod : Pod) (s : State) (killed : bool) :
  Containers pod = [] \/ Phase pod <> "Running" ->
  podsLoop t ctx c memoryLimit killAfter killSleep (pre ++ pod :: post) s
    killed =
  podsLoop t ctx c memoryLimit killAfter killSleep (pre ++ post) s killed.
Proof.
  intros H. rewrite !podsLoop_app.
  destruct (podsLoop t ctx c memoryLimit killAfter killSleep pre s killed)
    as [[[] s1] k1]; [| done | done].
  cbn [podsLoop]. by rewrite podBody_ineligible.
Qed.

Lemma ineligible_pod_is_invisible_witness :
  podsLoop Demo.real Demo.background Demo.timed 95 1 Demo.second
    ([DemoMore.hollow] ++ DemoMore.pending :: [Demo.api1])
    {| podsToKill := ∅; clock := 0; events := [] |} false =
  podsLoop Demo.real Demo.background Demo.timed 95 1 Demo.second
    ([DemoMore.hollow] ++ [Demo.api1])
    {| podsToKill := ∅; clock := 0; events := [] |} false.
Proof.
  apply (ineligible_pod_is_invisible Demo.real Demo.background Demo.timed
           95 1 Demo.second [DemoMore.hollow] [Demo.api1] DemoMore.pending).
  right. discriminate.
Defined.

(** X5. As long as no candidate pod is found over the limit, in any
    iteration, the run opens no record, decides no kill and sends no
    delete request. *)
Theorem below_limit_run_tracks_nothing (t : terminator) (ctx : Context)
    (namespace : string) (memoryLimit killAfter : Z)
    (serviceNames deploymentNames : list string) (sleep killSleep start : Z)
    (cs : list Cluster) :
  (forall c now pods pod,
      In c cs ->
      getPods (client ctx now c) namespace serviceNames deploymentNames =
        Return pods ->
      In pod pods ->
      overNow (client ctx now c) memoryLimit pod = false) ->
  let r := Terminate t ctx namespace memoryLimit killAfter serviceNames
             deploymentNames sleep killSleep start cs in
  podsToKill r.2 = ∅ /\
  countb isDecision (events r.2) = 0%nat /\
  countb isDelete (events r.2) = 0%nat.
Proof.
  intros Hbelow. unfold Terminate.
  set (init := {| podsToKill := ∅; clock := start; events := [] |}).
  assert (Hinit : podsToKill init = ∅ /\
                  countb isDecision (events init) = 0%nat /\
                  countb isDelete (events init) = 0%nat) by done.
  clearbody init. revert init Hinit.
  induction cs as [| c cs IH]; intros s Hs; [done |].
  cbn [loop]. unfold iteration.
  destruct (getPods _ _ _ _) as [pods | err |] eqn:Hget; [| done | done].
  assert (Hpods : forall pod now, In pod pods ->
            overNow (client ctx now c) memoryLimit pod = false).
  { intros pod now Hpod.
    destruct (cancelled ctx now) eqn:Hnow.
    - rewrite client_cut by done. apply overNow_cancelled.
    - rewrite client_live by done.
      specialize (Hbelow c _ pods pod (or_introl eq_refl) Hget Hpod).
      destruct (cancelled ctx (clock s + Z.of_N (Took c PtResolve))) eqn:Hthen.
      + by rewrite client_cut, getPods_cancelled in Hget.
      + by rewrite client_live in Hbelow. }
  match goal with
  | |- context [podsLoop t ctx c memoryLimit killAfter killSleep pods ?s0 false] =>
      pose proof (podsLoop_below t ctx c memoryLimit killAfter killSleep pods
                    s0 false Hpods) as Hloop;
      destruct (podsLoop t ctx c memoryLimit killAfter killSleep pods s0 false)
        as [[st s1] k1]
  end.
  destruct Hloop as (Hm & Hdec & Hdel).
  simpl in Hm, Hdec, Hdel. destruct Hs as (Hs0 & Hs1 & Hs2).
  destruct st; cbn [fst snd]; [| by rewrite Hm, Hdec, Hdel ..].
  apply IH.
  - intros c' now pods' pod Hin. apply Hbelow. by right.
  - simpl. rewrite Hm, Hs0, sweep_empty, !countb_app, Hdec, Hdel, Hs1, Hs2.
    done.
Qed.

Lemma below_limit_run_tracks_nothing_witness :
  let r := Terminate Demo.real Demo.background "default" 95 1 ["api"] ["job"]
             Demo.second Demo.second 0
             [DemoMore.quietCluster; DemoMore.quietCluster] in
  podsToKill r.2 = ∅ /\
  countb isDecision (events r.2) = 0%nat /\
  countb isDelete (events r.2) = 0%nat.
Proof.
  apply (below_limit_run_tracks_nothing Demo.real Demo.background "default"
           95 1 ["api"] ["job"] Demo.second Demo.second 0
           [DemoMore.quietCluster; DemoMore.quietCluster]).
  intros c now pods pod Hc Hget Hpod.
  assert (c = DemoMore.quietCluster) as ->.
  { simpl in Hc. destruct Hc as [<- | [<- | []]]; reflexivity. }
  change (client Demo.background now DemoMore.quietCluster)
    with DemoMore.quietCluster in *.
  vm_compute in Hget. injection Hget as <-.
  simpl in Hpod. destruct Hpod as [<- | [<- | []]]; vm_compute; reflexivity.
Defined.

(** ** The order of events in an iteration *)

Section Protocol.

Variable t : terminator.
Variable ctx : Context.
Variable c : Cluster.
Variables memoryLimit killAfter killSleep : Z.
Variable all : list Pod.

Lemma overBranch_end (pod : Pod) (s s' : State) (st : status)
    (killed' : bool) :
  In pod all ->
  overBranch t ctx c killAfter killSleep pod s = (st, s', killed') ->
  exists tail,
    events s' = events s ++ tail /\
    scanEnd t killSleep all st killed' tail /\
    (st = Running -> forall name,
       In (LogDeleting name) tail -> podsToKill s' !! name = None).
Proof.
  intros Hin. unfold overBranch. destruct (_ >=? _).
  - destruct (dryRun t) eqn:Hdry.
    + intros [= <- <- <-]. eexists. split; [| split].
      * simpl. rewrite <- !app_assoc. reflexivity.
      * by apply EndDry.
      * intros _ name [[= <-] | [[=] | []]]. simpl. apply lookup_delete_eq.
    + destruct (PodsDelete _ _ _ _) as [e |] eqn:Hdel.
      * intros [= <- <- <-]. eexists. split; [| split].
        -- simpl. rewrite <- !app_assoc. reflexivity.
        -- by apply EndRefused.
        -- done.
      * intros [= <- <- <-]. eexists. split; [| split].
        -- simpl. rewrite <- !app_assoc. reflexivity.
        -- by apply EndKill.
        -- intros _ name [[= <-] | [[=] | [[=] | []]]]. simpl.
           apply lookup_delete_eq.
  - intros [= <- <- <-]. exists []. split; [| split].
    + simpl. by rewrite app_nil_r.
    + apply EndNone.
    + by intros _ name [].
Qed.

Lemma podBody_end (pod : Pod) (s s' : State) (st : status)
    (killed' : bool) :
  In pod all ->
  podBody t ctx c memoryLimit killAfter killSleep pod s false =
    (st, s', killed') ->
  exists samples tail,
    events s' = events s ++ samples ++ tail /\
    Forall (fun e => isSample e = true) samples /\
    scanEnd t killSleep all st killed' tail /\
    (st = Running -> forall name,
       In (LogDeleting name) tail -> podsToKill s' !! name = None).
Proof.
  intros Hin. unfold podBody.
  assert (Hskip : exists samples tail,
             events s = events s ++ samples ++ tail /\
             Forall (fun e => isSample e = true) samples /\
             scanEnd t killSleep all Running false tail /\
             (Running = Running -> forall name,
                In (LogDeleting name) tail -> podsToKill s !! name = None)).
  { exists [], []. rewrite app_nil_r.
    split; [done |]. split; [constructor |]. split; [apply EndNone |].
    by intros _ name []. }
  assert (Hone : forall st0,
             st0 = Running \/ (exists err, st0 = Returned err) ->
             exists samples tail,
               events (emit (CallPodMetrics (Namespace pod) (Name pod)) s) =
                 events s ++ samples ++ tail /\
               Forall (fun e => isSample e = true) samples /\
               scanEnd t killSleep all st0 false tail /\
               (st0 = Running -> forall name,
                  In (LogDeleting name) tail ->
                  podsToKill
                    (emit (CallPodMetrics (Namespace pod) (Name pod)) s)
                    !! name = None)).
  { intros st0 Hst. exists [CallPodMetrics (Namespace pod) (Name pod)], [].
    split; [done |]. split; [by repeat constructor |]. split.
    - destruct Hst as [-> | [err ->]]; [apply EndNone | apply EndMetrics].
    - by intros _ name []. }
  destruct (Containers pod) as [| container ?].
  { intros [= <- <- <-]. apply Hskip. }
  destruct (negb _ || false).
  { intros [= <- <- <-]. apply Hskip. }
  destruct (PodMetricsesGet _ _ _) as [podMetrics | err].
  - destruct (MetricsContainers podMetrics) as [| cm ?].
    { intros [= <- <- <-]. apply Hone. by left. }
    destruct (overLimitb _ _ _).
    + intros H. apply overBranch_end in H as (tail & Hev & Hend & Hgone);
        [| done].
      exists [CallPodMetrics (Namespace pod) (Name pod)], tail.
      split; [| split; [by repeat constructor | by split]].
      rewrite Hev. simpl. by rewrite <- app_assoc.
    + intros [= <- <- <-]. apply Hone. by left.
  - destruct (IsNotFound err); intros [= <- <- <-]; apply Hone;
      [by left | right; by exists err].
Qed.

Lemma scanEnd_running_on (tail : list Event) :
  scanEnd t killSleep all Running false tail -> tail = [].
Proof. by inversion 1. Qed.

Lemma podsLoop_end (pods : list Pod) (s s' : State) (st : status)
    (killed' : bool) :
  (forall pod, In pod pods -> In pod all) ->
  podsLoop t ctx c memoryLimit killAfter killSleep pods s false =
    (st, s', killed') ->
  exists samples tail,
    events s' = events s ++ samples ++ tail /\
    Forall (fun e => isSample e = true) samples /\
    scanEnd t killSleep all st killed' tail /\
    (st = Running -> forall name,
       In (LogDeleting name) tail -> podsToKill s' !! name = None).
Proof.
  revert s. induction pods as [| pod pods IH]; intros s Hsub.
  - intros [= <- <- <-]. exists [], []. rewrite app_nil_r.
    split; [done |]. split; [constructor |]. split; [apply EndNone |].
    by intros _ name [].
  - cbn [podsLoop].
    destruct (podBody t ctx c memoryLimit killAfter killSleep pod s false)
      as [[st1 s1] k1] eqn:Hbody.
    apply podBody_end in Hbody
      as (samples1 & tail1 & Hev1 & Hs1 & Hend1 & Hgone1);
      [| apply Hsub; by left].
    destruct st1.
    + destruct k1.
      * rewrite podsLoop_killed. intros [= <- <- <-].
        by exists samples1, tail1.
      * apply scanEnd_running_on in Hend1 as ->.
        rewrite app_nil_r in Hev1.
        intros H. apply IH in H
          as (samples2 & tail2 & Hev2 & Hs2 & Hend2 & Hgone2);
          [| intros p Hp; apply Hsub; by right].
        exists (samples1 ++ samples2), tail2.
        split; [| split; [by apply Forall_app | by split]].
        rewrite Hev2, Hev1. by rewrite <- !app_assoc.
    + intros [= <- <- <-]. by exists samples1, tail1.
    + intros [= <- <- <-]. by exists samples1, tail1.
Qed.

End Protocol.

(** X6. What an iteration does after resolving its candidates follows one
    of five scripts. It samples pods, then: nothing more and the poll sleep
    (no kill); the decision, the post-kill sleep and the poll sleep (dry
    run); the decision, the delete request for a pod of the candidate list,
    with that pod's namespace, name and deletion grace period, then the
    post-kill sleep and the poll sleep; the decision and a refused delete
    request, whose error is returned with no sleep; or no decision and the
    error of a metrics request, returned with no sleep. *)
Theorem iteration_follows_one_script (t : terminator) (ctx : Context)
    (c : Cluster) (namespace : string) (memoryLimit killAfter : Z)
    (serviceNames deploymentNames : list string) (sleep killSleep : Z)
    (s : State) (pods : list Pod) :
  getPods (client ctx (clock s + Z.of_N (Took c PtResolve)) c) namespace
    serviceNames deploymentNames = Return pods ->
  let r := iteration t ctx c namespace memoryLimit killAfter serviceNames
             deploymentNames sleep killSleep s in
  exists samples tail killed,
    Forall (fun e => isSample e = true) samples /\
    scanEnd t killSleep pods r.1 killed tail /\
    events r.2 =
      events s ++ samples ++ tail ++
      match r.1 with
      | Running => [Sleep sleep]
      | _ => []
      end.
Proof.
  intros Hget. unfold iteration. rewrite Hget.
  destruct (podsLoop _ _ _ _ _ _ _ _ _) as [[st s1] k1] eqn:Hloop.
  apply (podsLoop_end t ctx c memoryLimit killAfter killSleep pods) in Hloop
    as (samples & tail & Hev & Hs & Hend & _); [| done].
  simpl in Hev.
  exists samples, tail, k1. destruct st; cbn [fst snd].
  - split; [done |]. split; [done |]. simpl. rewrite Hev.
    by rewrite <- !app_assoc.
  - split; [done |]. split; [done |]. by rewrite app_nil_r.
  - split; [done |]. split; [done |]. by rewrite app_nil_r.
Qed.

Lemma iteration_follows_one_script_witness :
  let r := iteration Demo.real Demo.background Demo.timed "default" 95 0
             ["api"] [] Demo.second Demo.second
             {| podsToKill := ∅; clock := 0; events := [] |} in
  exists samples tail killed,
    Forall (fun e => isSample e = true) samples /\
    scanEnd Demo.real Demo.second [Demo.api1] r.1 killed tail /\
    events r.2 =
      [] ++ samples ++ tail ++
      match r.1 with
      | Running => [Sleep Demo.second]
      | _ => []
      end.
Proof.
  apply (iteration_follows_one_script Demo.real Demo.background Demo.timed
           "default" 95 0 ["api"] [] Demo.second Demo.second
           {| podsToKill := ∅; clock := 0; events := [] |} [Demo.api1]).
  reflexivity.
Defined.

(** X7. A pod whose kill an iteration decides and carries through has no
    record left when the iteration ends: the record is deleted with the
    kill, whatever its count was. *)
Theorem kill_removes_the_record (t : terminator) (ctx : Context)
    (c : Cluster) (namespace : string) (memoryLimit killAfter : Z)
    (serviceNames deploymentNames : list string) (sleep killSleep : Z)
    (s s' : State) (new : list Event) (name : string) :
  iteration t ctx c namespace memoryLimit killAfter serviceNames
    deploymentNames sleep killSleep s = (Running, s') ->
  events s' = events s ++ new ->
  In (LogDeleting name) new ->
  podsToKill s' !! name = None.
Proof.
  unfold iteration.
  destruct (getPods _ _ _ _) as [pods | err |]; [| done | done].
  destruct (podsLoop _ _ _ _ _ _ _ _ _) as [[st s1] k1] eqn:Hloop.
  apply (podsLoop_end t ctx c memoryLimit killAfter killSleep pods) in Hloop
    as (samples & tail & Hev & Hs & _ & Hgone); [| done].
  destruct st; [| done | done].
  intros [= <-] Hnew Hin. simpl in *. rewrite Hev in Hnew.
  rewrite <- !app_assoc in Hnew. apply app_inv_head in Hnew. subst new.
  rewrite sweep_lookup.
  rewrite !in_app_iff in Hin. destruct Hin as [Hin | [Hin | Hin]].
  - rewrite Forall_forall in Hs. apply list_elem_of_In in Hin.
    by apply Hs in Hin.
  - by rewrite (Hgone eq_refl name Hin).
  - by destruct Hin as [[=] | []].
Qed.

Lemma kill_removes_the_record_witness :
  podsToKill
    {| podsToKill := ∅; clock := 2040042000;
       events := [CallPodMetrics "default" "api-1"; LogDeleting "api-1";
                  CallDelete "default" "api-1"
                    {| GracePeriodSeconds := None |} None;
                  Sleep Demo.second; Sleep Demo.second] |} !! "api-1" = None.
Proof.
  apply (kill_removes_the_record Demo.real Demo.background Demo.timed
           "default" 95 0 ["api"] [] Demo.second Demo.second
           {| podsToKill := ∅; clock := 0; events := [] |} _
           [CallPodMetrics "default" "api-1"; LogDeleting "api-1";
            CallDelete "default" "api-1" {| GracePeriodSeconds := None |} None;
            Sleep Demo.second; Sleep Demo.second] "api-1").
  - vm_compute. reflexivity.
  - reflexivity.
  - simpl. tauto.
Defined.

(** ** Where records come from *)

Section Origin.

Variable t : terminator.
Variable ctx : Context.
Variable c : Cluster.
Variables memoryLimit killAfter killSleep : Z.
Variable name : string.

Lemma overBranch_origin (pod : Pod) (s s' : State) (st : status)
    (killed' : bool) (over' : overLimit) :
  overBranch t ctx c killAfter killSleep pod s = (st, s', killed') ->
  podsToKill s' !! name = Some over' ->
  (exists over, podsToKill s !! name = Some over /\ at_ over' = at_ over) \/
  (Name pod = name /\ at_ over' = clock s).
Proof.
  intros H Hm'.
  assert (Hobs : forall over1,
             observe (Name pod) (clock s) (podsToKill s) !! name = Some over1 ->
             (exists over, podsToKill s !! name = Some over /\
                           at_ over1 = at_ over) \/
             (Name pod = name /\ at_ over1 = clock s)).
  { intros over1. destruct (decide (Name pod = name)) as [Heq | Hne].
    - rewrite <- Heq, observe_same.
      destruct (podsToKill s !! Name pod) as [over |]; intros [= <-].
      + left. by exists over.
      + by right.
    - rewrite observe_other by done. intros Hm. left. by exists over1. }
  unfold overBranch in H. destruct (_ >=? _).
  - assert (Hdel : forall s0 : State,
               delete (Name pod) (observe (Name pod) (clock s) (podsToKill s))
                 !! name = Some over' ->
               (exists over, podsToKill s !! name = Some over /\
                             at_ over' = at_ over) \/
               (Name pod = name /\ at_ over' = clock s)).
    { intros _ Hd. apply lookup_delete_Some in Hd as [_ Hd]. by apply Hobs. }
    destruct (dryRun t).
    + injection H as <- <- <-. by apply (Hdel s).
    + destruct (PodsDelete _ _ _ _); injection H as <- <- <-.
      * by apply Hobs.
      * by apply (Hdel s).
  - injection H as <- <- <-. by apply Hobs.
Qed.

Lemma podBody_origin (pod : Pod) (s s' : State) (st : status)
    (killed killed' : bool) (over' : overLimit) :
  podBody t ctx c memoryLimit killAfter killSleep pod s killed =
    (st, s', killed') ->
  podsToKill s' !! name = Some over' ->
  (exists over, podsToKill s !! name = Some over /\ at_ over' = at_ over) \/
  (exists now,
      Name pod = name /\ clock s <= now /\
      overNow (client ctx now c) memoryLimit pod = true /\
      at_ over' = now + Z.of_N (Took c (PtUsage (Name pod))) /\
      at_ over' <= clock s').
Proof.
  unfold podBody, overNow. intros H Hm'.
  assert (Hkeep : podsToKill s' = podsToKill s ->
             exists over, podsToKill s !! name = Some over /\
                          at_ over' = at_ over).
  { intros Hs0. exists over'. by rewrite <- Hs0. }
  destruct (Containers pod) as [| container ?].
  { injection H as <- <- <-. left. by apply Hkeep. }
  destruct (String.eqb (Phase pod) "Running"); simpl in *;
    [| injection H as <- <- <-; left; by apply Hkeep].
  destruct killed; simpl in *.
  { injection H as <- <- <-. left. by apply Hkeep. }
  destruct (cancelled ctx
              (clock s +
               Z.of_N (Took c (PtMetrics (Namespace pod) (Name pod)))))
    eqn:Hlive.
  { rewrite client_cut in H by done. simpl in H.
    injection H as <- <- <-. left. by apply Hkeep. }
  rewrite returnsAt_live in H by done.
  destruct (PodMetricsesGet _ _ _) as [podMetrics | err] eqn:Hget.
  - destruct (MetricsContainers podMetrics) as [| cm ?] eqn:Hcm.
    { injection H as <- <- <-. left. by apply Hkeep. }
    destruct (overLimitb _ _ _) eqn:Hover.
    + pose proof (overBranch_clock t ctx c killAfter killSleep pod
                    (elapse (Took c (PtUsage (Name pod)))
                       (setClock
                          (clock s +
                           Z.of_N (Took c (PtMetrics (Namespace pod)
                                             (Name pod))))
                          (emit (CallPodMetrics (Namespace pod) (Name pod))
                             s)))) as Hclock.
      rewrite H in Hclock.
      apply (overBranch_origin pod _ s' st killed' over') in H; [| done].
      destruct H as [H | [H1 H2]]; [by left |]. right.
      exists (clock s +
              Z.of_N (Took c (PtMetrics (Namespace pod) (Name pod)))).
      simpl in H2, Hclock.
      split; [done |]. split; [lia |]. rewrite Hget, Hcm.
      split; [done |]. split; [done | lia].
    + injection H as <- <- <-. left. by apply Hkeep.
  - destruct (IsNotFound err); injection H as <- <- <-; left; by apply Hkeep.
Qed.

Lemma podsLoop_origin (pods : list Pod) (s s' : State) (st : status)
    (killed killed' : bool) (over' : overLimit) :
  podsLoop t ctx c memoryLimit killAfter killSleep pods s killed =
    (st, s', killed') ->
  podsToKill s' !! name = Some over' ->
  (exists over, podsToKill s !! name = Some over /\ at_ over' = at_ over) \/
  (exists pod now,
      In pod pods /\ Name pod = name /\ clock s <= now /\
      overNow (client ctx now c) memoryLimit pod = true /\
      at_ over' = now + Z.of_N (Took c (PtUsage (Name pod))) /\
      at_ over' <= clock s').
Proof.
  revert s killed. induction pods as [| pod pods IH]; intros s killed H Hm'.
  - injection H as <- <- <-. left. by exists over'.
  - cbn [podsLoop] in H.
    pose proof (podBody_clock t ctx c memoryLimit killAfter killSleep pod s
                  killed) as Hstep.
    destruct (podBody t ctx c memoryLimit killAfter killSleep pod s killed)
      as [[st1 s1] k1] eqn:Hbody.
    simpl in Hstep.
    assert (Hhere : podsToKill s1 !! name = Some over' ->
              (exists over, podsToKill s !! name = Some over /\
                            at_ over' = at_ over) \/
              (exists p now,
                  In p (pod :: pods) /\ Name p = name /\ clock s <= now /\
                  overNow (client ctx now c) memoryLimit p = true /\
                  at_ over' = now + Z.of_N (Took c (PtUsage (Name p))) /\
                  at_ over' <= clock s1)).
    { intros Hm1.
      destruct (podBody_origin pod s s1 st1 killed k1 over' Hbody Hm1)
        as [Hold | (now & Hn & Hle & Hover & Hat & Hend)]; [by left |].
      right. exists pod, now. split; [by left | done]. }
    destruct st1; [| injection H as <- <- <-; by apply Hhere ..].
    destruct k1.
    { rewrite podsLoop_killed in H. injection H as <- <- <-. by apply Hhere. }
    pose proof (podsLoop_clock t ctx c memoryLimit killAfter killSleep pods
                  s1 false) as Hrest.
    rewrite H in Hrest. simpl in Hrest.
    destruct (IH s1 false H Hm')
      as [(over1 & Hm1 & Hat1) | (p & now & Hp & Hn & Hle & Ho & Hat & Hend)].
    + destruct (podBody_origin pod s s1 Running killed false over1 Hbody Hm1)
        as [(over & Hm & Hat) | (now & Hn & Hle & Hover & Hat & Hend)].
      * left. exists over. split; [done | congruence].
      * right. exists pod, now. split; [by left |]. split; [done |].
        split; [done |]. split; [done |]. split; [congruence | lia].
    + right. exists p, now. split; [by right |]. split; [done |].
      split; [lia | done].
Qed.

End Origin.



(** X9. Records are keyed by pod name alone. With kill-after 1, two
    candidate pods of the same name, in whatever namespaces, both over the
    limit and not tracked yet, are taken for one pod seen twice: the first
    opens the record, the second raises its count to 1, and the kill is
    decided for the second pod, and requested in its namespace unless the
    run is dry, in the very iteration that first sees them. *)
Theorem same_name_shares_one_record (t : terminator) (ctx : Context)
    (c : Cluster) (memoryLimit killSleep : Z) (p q : Pod) (s : State) :
  let tp := clock s + Z.of_N (Took c (PtMetrics (Namespace p) (Name p))) in
  let tq := tp + Z.of_N (Took c (PtUsage (Name p))) +
            Z.of_N (Took c (PtOver (Name p))) +
            Z.of_N (Took c (PtMetrics (Namespace q) (Name q))) in
  Name p = Name q ->
  overNow (client ctx tp c) memoryLimit p = true ->
  overNow (client ctx tq c) memoryLimit q = true ->
  podsToKill s !! Name p = None ->
  let r := podsLoop t ctx c memoryLimit 1 killSleep [p; q] s false in
  In (LogDeleting (Name q)) (events r.1.2) /\
  (dryRun t = false ->
   exists err,
     In (CallDelete (Namespace q) (Name q) (deleteOptionsOf q) err)
       (events r.1.2)).
Proof.
  intros tp tq Hname Hp Hq Hnone.
  set (s1 := {| podsToKill :=
                  <[Name p := {| at_ := tp + Z.of_N (Took c (PtUsage (Name p)));
                                 count := 0 |}]> (podsToKill s);
                clock := tp + Z.of_N (Took c (PtUsage (Name p))) +
                         Z.of_N (Took c (PtOver (Name p)));
                events := events s ++ [CallPodMetrics (Namespace p) (Name p)] |}).
  assert (H1 : podBody t ctx c memoryLimit 1 killSleep p s false =
               (Running, s1, false)).
  { rewrite podBody_over by done. unfold overBranch, observe, countOf.
    cbn [podsToKill clock events emit setPods setClock elapse].
    rewrite Hnone, lookup_insert_eq. reflexivity. }
  assert (Hq1 : overNow
                  (client ctx
                     (clock s1 +
                      Z.of_N (Took c (PtMetrics (Namespace q) (Name q)))) c)
                  memoryLimit q = true) by done.
  cbn [podsLoop].
  rewrite H1, (podBody_over t ctx c memoryLimit 1 killSleep q s1 Hq1).
  unfold overBranch, observe, countOf.
  cbn [podsToKill clock events emit setPods setClock elapse s1].
  rewrite <- Hname, !lookup_insert_eq.
  cbn [count at_]. change (Go.add 0 1 >=? 1) with true. cbv iota.
  destruct (dryRun t).
  - split; [| done]. cbn. rewrite !in_app_iff. simpl. tauto.
  - destruct (PodsDelete _ _ _ _) as [e |] eqn:Hdel.
    + split; [cbn; rewrite !in_app_iff; simpl; tauto |].
      intros _. exists (Some e). rewrite Hname. unfold deleteOptionsOf.
      cbn. rewrite !in_app_iff. simpl. tauto.
    + split; [cbn; rewrite !in_app_iff; simpl; tauto |].
      intros _. exists None. rewrite Hname. unfold deleteOptionsOf.
      cbn. rewrite !in_app_iff. simpl. tauto.
Qed.

Lemma same_name_shares_one_record_witness :
  let r := podsLoop Demo.real Demo.background DemoMore.everywhere 95 1
             Demo.second [DemoMore.webA; DemoMore.webB]
             {| podsToKill := ∅; clock := 0; events := [] |} false in
  In (LogDeleting "web-0") (events r.1.2) /\
  (dryRun Demo.real = false ->
   exists err,
     In (CallDelete "team-b" "web-0" (deleteOptionsOf DemoMore.webB) err)
       (events r.1.2)).
Proof.
  apply (same_name_shares_one_record Demo.real Demo.background
           DemoMore.everywhere 95 Demo.second DemoMore.webA DemoMore.webB
           {| podsToKill := ∅; clock := 0; events := [] |});
    vm_compute; reflexivity.
Defined.

(** ** The sweep over time *)

(** X10. The sweep adds no record and changes none: what it leaves is part
    of the map it was given; and sweeping again with every record read at
    the same clock value as before removes nothing more. *)
Theorem sweep_only_removes_and_settles (readAt : string -> Z) (killSleep : Z)
    (m : gmap string overLimit) :
  sweep readAt killSleep m ⊆ m /\
  sweep readAt killSleep (sweep readAt killSleep m) = sweep readAt killSleep m.
Proof.
  split.
  - apply sweep_subseteq.
  - apply map_eq. intros name. rewrite !sweep_lookup.
    destruct (m !! name) as [o |]; [| done].
    destruct (expired (readAt name) killSleep o) eqn:He; [done |].
    by rewrite He.
Qed.

(** X11. A record past its window stays past it: whatever a sweep removes,
    a sweep of the same map that reads no record earlier removes too. *)
Theorem later_sweep_removes_more (readAt readAt' : string -> Z)
    (killSleep : Z) (m : gmap string overLimit) :
  (forall name, readAt name <= readAt' name) ->
  sweep readAt' killSleep m ⊆ sweep readAt killSleep m.
Proof.
  intros Hle. apply map_subseteq_spec. intros name over.
  rewrite !sweep_lookup. destruct (m !! name) as [o |]; [| done].
  destruct (expired (readAt name) killSleep o) eqn:He.
  - by rewrite (expired_later _ _ killSleep o (Hle name) He).
  - by destruct (expired (readAt' name) killSleep o).
Qed.

Lemma later_sweep_removes_more_witness :
  sweep (sweepReads Demo.timed 4500000000) 1000000000 DemoSweep.records ⊆
  sweep (fun _ => 2500000000) 1000000000 DemoSweep.records.
Proof.
  apply (later_sweep_removes_more (fun _ => 2500000000)
           (sweepReads Demo.timed 4500000000) 1000000000 DemoSweep.records).
  intros name. unfold sweepReads. lia.
Defined.

(** X12. The window grows with the count: with a kill-sleep that is not
    negative, and as long as the window fits a duration, a record that is
    past its window would be past it with any lower count as well, so a
    longer streak is never forgotten sooner than a shorter one of the same
    age. *)
Theorem window_grows_with_count (now killSleep opened n n' : Z) :
  0 <= killSleep -> 0 <= n <= n' -> n' < Go.maxInt64 ->
  killSleep * (n' + 1) <= Go.maxInt64 ->
  expired now killSleep {| at_ := opened; count := n' |} = true ->
  expired now killSleep {| at_ := opened; count := n |} = true.
Proof.
  intros Hks Hn Hmax Hfit. unfold expired, Go.mul, Go.add. simpl.
  rewrite (wrap64_id (n + 1)), (wrap64_id (n' + 1))
    by (unfold Go.int64, Go.minInt64, Go.maxInt64 in *; lia).
  rewrite !wrap64_id by (unfold Go.int64, Go.minInt64, Go.maxInt64 in *; nia).
  rewrite !Z.gtb_ltb, !Z.ltb_lt. nia.
Qed.

Lemma window_grows_with_count_witness :
  expired 2500000000 1000000000 {| at_ := 0; count := 0 |} = true.
Proof.
  apply (window_grows_with_count 2500000000 1000000000 0 0 1);
    try reflexivity; try (vm_compute; discriminate).
  split; vm_compute; discriminate.
Defined.

(** ** The clock of a run *)

Section RunClock.

Variable t : terminator.
Variable ctx : Context.
Variable namespace : string.
Variables memoryLimit killAfter : Z.
Variables serviceNames deploymentNames : list string.
Variables sleep killSleep : Z.

Lemma iteration_clock (c : Cluster) (s : State) :
  let r := iteration t ctx c namespace memoryLimit killAfter serviceNames
             deploymentNames sleep killSleep s in
  clock s <= clock r.2 /\
  (r.1 = Running -> clock s + Z.max sleep 0 <= clock r.2).
Proof.
  unfold iteration.
  pose proof (returnsAt_bounds ctx (clock s) (Took c PtResolve)) as Hret.
  destruct (getPods _ _ _ _) as [pods | err |];
    [| simpl; split; [lia | discriminate] ..].
  match goal with
  | |- context [podsLoop t ctx c memoryLimit killAfter killSleep pods ?s0 false] =>
      pose proof (podsLoop_clock t ctx c memoryLimit killAfter killSleep pods
                    s0 false) as Hclock;
      destruct (podsLoop t ctx c memoryLimit killAfter killSleep pods s0 false)
        as [[st s1] k1]
  end.
  simpl in Hclock. destruct st; simpl; (split; [lia |]);
    [intros _; lia | discriminate | discriminate].
Qed.

Lemma iteration_opened_within (c : Cluster) (s : State) (since : Z) :
  openedWithin since s -> since <= clock s ->
  openedWithin since
    (iteration t ctx c namespace memoryLimit killAfter serviceNames
       deploymentNames sleep killSleep s).2.
Proof.
  intros Hinv Hsince.
  pose proof (iteration_clock c s) as [Hclock _]. revert Hclock.
  unfold iteration.
  pose proof (returnsAt_bounds ctx (clock s) (Took c PtResolve)) as Hret.
  destruct (getPods _ _ _ _) as [pods | err |];
    [| intros Hclock name over Hm; specialize (Hinv name over Hm);
       simpl in *; lia ..].
  destruct (podsLoop _ _ _ _ _ _ _ _ _) as [[st s1] k1] eqn:Hloop.
  pose proof (podsLoop_clock t ctx c memoryLimit killAfter killSleep pods
                (elapse (Took c PtFound)
                   (setClock (returnsAt ctx (clock s) (Took c PtResolve)) s))
                false) as Hscan.
  rewrite Hloop in Hscan. simpl in Hscan.
  assert (H1 : forall s2 : State,
             clock s1 <= clock s2 ->
             (forall name over, podsToKill s2 !! name = Some over ->
                                podsToKill s1 !! name = Some over) ->
             openedWithin since s2).
  { intros s2 Hc Hsub name over Hm. apply Hsub in Hm.
    destruct (podsLoop_origin t ctx c memoryLimit killAfter killSleep name
                pods _ s1 st false k1 over Hloop Hm)
      as [(o & Ho & Hat) | (p & now & _ & _ & Hle & _ & Hat & Hend)].
    - specialize (Hinv name o Ho). simpl in Ho. lia.
    - simpl in Hle. lia. }
  destruct st; simpl; intros Hclock; apply H1; try done; try (simpl; lia).
  intros name over. simpl. rewrite sweep_lookup.
  destruct (podsToKill s1 !! name) as [o |]; [| done].
  by destruct (expired _ _ o).
Qed.

End RunClock.

(** X13. The clock never runs backwards, and every iteration that runs to
    its end takes at least the poll interval: a loop still running after
    its input has advanced the clock by at least the number of iterations
    times the poll interval (zero for a negative one). *)
Theorem run_takes_a_poll_per_iteration (t : terminator) (ctx : Context)
    (namespace : string) (memoryLimit killAfter : Z)
    (serviceNames deploymentNames : list string) (sleep killSleep : Z)
    (cs : list Cluster) (s s' : State) (st : status) :
  loop t ctx namespace memoryLimit killAfter serviceNames deploymentNames
    sleep killSleep cs s = (st, s') ->
  clock s <= clock s' /\
  (st = Running ->
   clock s + Z.of_nat (length cs) * Z.max sleep 0 <= clock s').
Proof.
  revert s. induction cs as [| c cs IH]; intros s.
  - intros [= <- <-]. simpl. lia.
  - cbn [loop length].
    pose proof (iteration_clock t ctx namespace memoryLimit killAfter
                  serviceNames deploymentNames sleep killSleep c s)
      as [Hle Hstep].
    destruct (iteration t ctx c namespace memoryLimit killAfter serviceNames
                deploymentNames sleep killSleep s) as [st1 s1].
    simpl in Hle, Hstep. destruct st1.
    + intros H. apply IH in H as [Hle' Hrun]. specialize (Hstep eq_refl).
      split; [lia |]. intros Hst. specialize (Hrun Hst). lia.
    + intros [= <- <-]. split; [done | discriminate].
    + intros [= <- <-]. split; [done | discriminate].
Qed.

(** Two iterations of a small cluster with a poll of one second: left
    alone, then killed, "api-1" takes the loop to 3.065 s. *)
Lemma run_takes_a_poll_per_iteration_witness :
  0 <= 3065074000 /\
  (Running = Running ->
   0 + Z.of_nat (length [Demo.timed; Demo.timed]) * Z.max Demo.second 0
   <= 3065074000).
Proof.
  apply (run_takes_a_poll_per_iteration Demo.real Demo.background "default"
           95 1 ["api"] [] Demo.second Demo.second [Demo.timed; Demo.timed]
           {| podsToKill := ∅; clock := 0; events := [] |}
           {| podsToKill := ∅; clock := 3065074000;
              events := [CallPodMetrics "default" "api-1"; Sleep Demo.second;
                         CallPodMetrics "default" "api-1";
                         LogDeleting "api-1";
                         CallDelete "default" "api-1"
                           {| GracePeriodSeconds := None |} None;
                         Sleep Demo.second; Sleep Demo.second] |}
           Running).
  vm_compute. reflexivity.
Defined.

(** X14. Every record of a run was opened at a clock value of that run:
    its time stamp lies between the start of [Terminate] and the present,
    so the age the sweep computes is never negative. *)
Theorem records_are_opened_during_the_run (t : terminator) (ctx : Context)
    (namespace : string) (memoryLimit killAfter : Z)
    (serviceNames deploymentNames : list string)
    (sleep killSleep start : Z) (cs : list Cluster) :
  openedWithin start
    (Terminate t ctx namespace memoryLimit killAfter serviceNames
       deploymentNames sleep killSleep start cs).2.
Proof.
  unfold Terminate.
  set (init := {| podsToKill := ∅; clock := start; events := [] |}).
  assert (Hinv : openedWithin start init) by (by intros name over).
  assert (Hsince : start <= clock init) by (simpl; lia).
  clearbody init. revert init Hinv Hsince.
  induction cs as [| c cs IH]; intros s Hinv Hsince; [done |].
  cbn [loop].
  pose proof (iteration_opened_within t ctx namespace memoryLimit killAfter
                serviceNames deploymentNames sleep killSleep c s start Hinv
                Hsince) as Hnext.
  pose proof (iteration_clock t ctx namespace memoryLimit killAfter
                serviceNames deploymentNames sleep killSleep c s) as [Hle _].
  destruct (iteration t ctx c namespace memoryLimit killAfter serviceNames
              deploymentNames sleep killSleep s) as [st1 s1].
  simpl in Hnext, Hle. destruct st1; [| done | done].
  apply IH; [done | lia].
Qed.

(** ** A usage of zero *)

(** X16. A pod that reports a memory usage of zero is never over a
    positive threshold, whatever limit it declares: the percentage is a
    zero, or a NaN when the limit is zero too. *)
Theorem zero_usage_is_never_over_a_positive_limit (limit memoryLimit : Z) :
  0 < memoryLimit -> overLimitb 0 limit memoryLimit = false.
Proof.
  intros Hpos. unfold overLimitb, percentage, Float64.mul, Float64.div,
    Float64.geb.
  change (Float64.ofInt 0) with (S754_zero false).
  change (Float64.ofInt 100) with (S754_finite false 7036874417766400 (-46)).
  pose proof (ofInt_cases limit) as Hl.
  pose proof (ofInt_cases memoryLimit) as Hm.
  destruct memoryLimit as [| ml | ml]; [lia | | lia].
  destruct limit as [| l | l].
  - rewrite Hl. reflexivity.
  - destruct Hl as [-> | (m & e & ->)];
      by destruct Hm as [-> | (m' & e' & ->)].
  - destruct Hl as [-> | (m & e & ->)];
      by destruct Hm as [-> | (m' & e' & ->)].
Qed.

Lemma zero_usage_is_never_over_a_positive_limit_witness :
  overLimitb 0 1000 95 = false.
Proof.
  apply (zero_usage_is_never_over_a_positive_limit 1000 95). reflexivity.
Defined.

(** ** What is sampled, and what a failed sample does *)

Section Samples.

Variable t : terminator.
Variable ctx : Context.
Variable c : Cluster.
Variables memoryLimit killAfter killSleep : Z.

Lemma overBranch_no_sample (pod : Pod) (s : State) :
  exists tail,
    events (overBranch t ctx c killAfter killSleep pod s).1.2 =
      events s ++ tail /\
    Forall (fun e => isSample e = false) tail.
Proof.
  unfold overBranch. destruct (_ >=? _).
  - destruct (dryRun t); [| destruct (PodsDelete _ _ _ _)]; simpl;
      eexists; (split; [by rewrite <- !app_assoc | by repeat constructor]).
  - exists []. simpl. by rewrite app_nil_r.
Qed.

Lemma podBody_samples (pod : Pod) (s : State) (killed : bool) :
  exists new,
    events (podBody t ctx c memoryLimit killAfter killSleep pod s
              killed).1.2 = events s ++ new /\
    Forall (fun e => isSample e = true -> sampleOf [pod] e) new /\
    (countb isSample new <= 1)%nat.
Proof.
  unfold podBody.
  assert (Hnone : exists new, events s = events s ++ new /\
             Forall (fun e => isSample e = true -> sampleOf [pod] e) new /\
             (countb isSample new <= 1)%nat).
  { exists []. rewrite app_nil_r. split; [done |]. split; [constructor |].
    cbn. lia. }
  destruct (Containers pod) as [| container rest] eqn:Hcont; [done |].
  destruct (String.eqb_spec (Phase pod) "Running") as [Hphase | ?];
    [| done].
  destruct killed; [done |]. simpl.
  assert (Hsample : sampleOf [pod] (CallPodMetrics (Namespace pod) (Name pod))).
  { exists pod. split; [by left |]. split; [done |]. split; [done |].
    by rewrite Hcont. }
  assert (Hone : forall s0 : State,
             events s0 =
               events s ++ [CallPodMetrics (Namespace pod) (Name pod)] ->
             exists new,
             events s0 = events s ++ new /\
             Forall (fun e => isSample e = true -> sampleOf [pod] e) new /\
             (countb isSample new <= 1)%nat).
  { intros s0 ->. exists [CallPodMetrics (Namespace pod) (Name pod)].
    split; [done |]. split; [by repeat constructor |]. cbn. lia. }
  destruct (PodMetricsesGet _ _ _) as [podMetrics | err].
  - destruct (MetricsContainers podMetrics) as [| cm ?]; [by apply Hone |].
    destruct (overLimitb _ _ _); [| by apply Hone].
    match goal with
    | |- context [overBranch t ctx c killAfter killSleep pod ?s0] =>
        destruct (overBranch_no_sample pod s0) as (tail & -> & Htail)
    end.
    exists (CallPodMetrics (Namespace pod) (Name pod) :: tail).
    split; [simpl; by rewrite <- app_assoc |]. split.
    + constructor; [done |].
      eapply Forall_impl; [exact Htail |]. simpl. congruence.
    + change (CallPodMetrics (Namespace pod) (Name pod) :: tail)
        with ([CallPodMetrics (Namespace pod) (Name pod)] ++ tail).
      rewrite countb_app, countb_single. simpl.
      assert (countb isSample tail = 0%nat); [| lia].
      clear -Htail. induction Htail as [| e l He _ IH]; [done |].
      unfold countb in *. simpl. by rewrite He.
  - destruct (IsNotFound err); by apply Hone.
Qed.

Lemma sampleOf_mono (pods pods' : list Pod) (e : Event) :
  (forall pod, In pod pods -> In pod pods') ->
  sampleOf pods e -> sampleOf pods' e.
Proof.
  intros Hsub (pod & Hin & He). exists pod. split; [by apply Hsub | done].
Qed.

Lemma podsLoop_samples (pods : list Pod) (s : State) (killed : bool) :
  exists new,
    events (podsLoop t ctx c memoryLimit killAfter killSleep pods s
              killed).1.2 = events s ++ new /\
    Forall (fun e => isSample e = true -> sampleOf pods e) new /\
    (countb isSample new <= length pods)%nat.
Proof.
  revert s killed. induction pods as [| pod pods IH]; intros s killed.
  - exists []. simpl. rewrite app_nil_r. split; [done |].
    split; [constructor | cbn; lia].
  - cbn [podsLoop].
    destruct (podBody_samples pod s killed) as (new1 & Hev1 & Hs1 & Hn1).
    destruct (podBody t ctx c memoryLimit killAfter killSleep pod s killed)
      as [[st s1] k1]. simpl in Hev1.
    assert (Hs1' : Forall (fun e => isSample e = true ->
                                    sampleOf (pod :: pods) e) new1).
    { eapply Forall_impl; [exact Hs1 |]. intros e He Hsample.
      apply (sampleOf_mono [pod]); [| by apply He].
      intros p [<- | []]. by left. }
    destruct st; [| exists new1; simpl; split; [done |]; split; [done |];
                    lia ..].
    destruct (IH s1 k1) as (new2 & Hev2 & Hs2 & Hn2).
    exists (new1 ++ new2). rewrite Hev2, Hev1, <- app_assoc.
    split; [done |]. split.
    + apply Forall_app. split; [done |].
      eapply Forall_impl; [exact Hs2 |]. intros e He Hsample.
      apply (sampleOf_mono pods); [| by apply He].
      intros p Hp. by right.
    + rewrite countb_app. simpl. lia.
Qed.

End Samples.

(** X17. An iteration asks for the metrics of running candidate pods with a
    container only, at most once for each entry of the candidate list: it
    never samples a pod outside the resolved list, a pod in another phase or
    a pod without container. *)
Theorem only_running_candidates_are_sampled (t : terminator) (ctx : Context)
    (c : Cluster) (namespace : string) (memoryLimit killAfter : Z)
    (serviceNames deploymentNames : list string) (sleep killSleep : Z)
    (s : State) (pods : list Pod) :
  getPods (client ctx (clock s + Z.of_N (Took c PtResolve)) c) namespace
    serviceNames deploymentNames = Return pods ->
  exists new,
    events (iteration t ctx c namespace memoryLimit killAfter serviceNames
              deploymentNames sleep killSleep s).2 = events s ++ new /\
    Forall (fun e => isSample e = true -> sampleOf pods e) new /\
    (countb isSample new <= length pods)%nat.
Proof.
  intros Hget. unfold iteration. rewrite Hget.
  match goal with
  | |- context [podsLoop t ctx c memoryLimit killAfter killSleep pods ?s0 false] =>
      destruct (podsLoop_samples t ctx c memoryLimit killAfter killSleep pods
                  s0 false) as (new & Hev & Hs & Hn);
      destruct (podsLoop t ctx c memoryLimit killAfter killSleep pods s0 false)
        as [[st s1] k1]
  end.
  simpl in Hev.
  destruct st; [| by exists new ..].
  exists (new ++ [Sleep sleep]). simpl. rewrite Hev, <- app_assoc.
  split; [done |]. split.
  - apply Forall_app. split; [done |]. by repeat constructor.
  - rewrite countb_app, countb_single. simpl. lia.
Qed.

Lemma only_running_candidates_are_sampled_witness :
  exists new,
    events (iteration Demo.real Demo.background Demo.timed "default" 95 1
              [] ["web"; "job"] Demo.second Demo.second
              {| podsToKill := ∅; clock := 0; events := [] |}).2 = [] ++ new /\
    Forall (fun e => isSample e = true -> sampleOf [Demo.job1] e) new /\
    (countb isSample new <= length [Demo.job1])%nat.
Proof.
  apply (only_running_candidates_are_sampled Demo.real Demo.background
           Demo.timed "default" 95 1 [] ["web"; "job"] Demo.second
           Demo.second {| podsToKill := ∅; clock := 0; events := [] |}
           [Demo.job1]).
  reflexivity.
Defined.

(** X18. A metrics request that fails otherwise than by "not found" ends
    the run at that pod: [Terminate] returns the error as soon as the
    request returns; the pods after it are not sampled, and the sweep and
    the poll sleep of the iteration are skipped. *)
Theorem metrics_error_ends_the_run (t : terminator) (ctx : Context)
    (c : Cluster) (namespace : string) (memoryLimit killAfter : Z)
    (serviceNames deploymentNames : list string) (sleep killSleep : Z)
    (s s1 : State) (pre post : list Pod) (pod : Pod) (err : error)
    (cs : list Cluster) :
  let took := Took c (PtMetrics (Namespace pod) (Name pod)) in
  getPods (client ctx (clock s + Z.of_N (Took c PtResolve)) c) namespace
    serviceNames deploymentNames = Return (pre ++ pod :: post) ->
  podsLoop t ctx c memoryLimit killAfter killSleep pre
    (elapse (Took c PtFound) (elapse (Took c PtResolve) s)) false =
    (Running, s1, false) ->
  Containers pod <> [] -> Phase pod = "Running" ->
  PodMetricsesGet (client ctx (clock s1 + Z.of_N took) c) (Namespace pod)
    (Name pod) = Err err ->
  IsNotFound err = false ->
  loop t ctx namespace memoryLimit killAfter serviceNames deploymentNames
    sleep killSleep (c :: cs) s =
  (Returned err,
   setClock (returnsAt ctx (clock s1) took)
     (emit (CallPodMetrics (Namespace pod) (Name pod)) s1)).
Proof.
  intros took Hget Hpre Hcont Hphase Hmet Hnf.
  cbn [loop]. unfold iteration. rewrite Hget.
  assert (Hlive : cancelled ctx (clock s + Z.of_N (Took c PtResolve)) = false).
  { destruct (cancelled ctx _) eqn:Hc; [| done].
    by rewrite client_cut, getPods_cancelled in Hget. }
  rewrite returnsAt_live by done.
  change (setClock (clock s + Z.of_N (Took c PtResolve)) s)
    with (elapse (Took c PtResolve) s).
  rewrite podsLoop_app, Hpre.
  cbn [podsLoop]. unfold podBody.
  destruct (Containers pod) as [| container ?]; [done |].
  fold took. by rewrite Hphase, Hmet, Hnf.
Qed.

(** The metrics service is down: resolution takes 20 ms, the line that
    reports the pods 10 us, and the request for "api-1" fails 5 ms
    later. *)
Lemma metrics_error_ends_the_run_witness :
  loop Demo.real Demo.background "default" 95 1 ["api"; "jobs"] []
    Demo.second Demo.second (DemoMore.blind :: [Demo.timed])
    {| podsToKill := ∅; clock := 0; events := [] |} =
  (Returned (ErrOther "unavailable"),
   {| podsToKill := ∅; clock := 25010000;
      events := [CallPodMetrics "default" "api-1"] |}).
Proof.
  apply (metrics_error_ends_the_run Demo.real Demo.background DemoMore.blind
           "default" 95 1 ["api"; "jobs"] [] Demo.second Demo.second
           {| podsToKill := ∅; clock := 0; events := [] |}
           {| podsToKill := ∅; clock := 20010000; events := [] |}
           [] [Demo.job1] Demo.api1 (ErrOther "unavailable") [Demo.timed]);
    (reflexivity || discriminate).
Defined.
